(** * CodeGuard AI review pipeline: a shallow embedding and its properties

    The development follows the Python sources of the backend:
    - [app/utils/codeguardignore.py]  (ignore rules, diff filtering),
    - [app/worker/processor.py]       (pipeline driver),
    - [app/agents/formatter.py]       (report renderer),
    - [app/services/llm.py]           (structured output, retries, escape repair),
    - [app/agents/schemas.py], [app/models/finding.py] (finding schemas).

    Python [str] values are sequences of Unicode code points; they are
    modelled as lists of code points ([list N]). *)

From Stdlib Require Import NArith ZArith Lia Bool List Sorted Ascii String DecimalString.
From stdpp Require Import base option list gmap.

Set Default Proof Using "Type".
Local Open Scope N_scope.

(** ** Python strings *)

Module Py.

Abbreviation pystr := (list N).

(** A literal: the code points of an ASCII string. *)
Definition py (s : string) : pystr :=
  List.map N_of_ascii (list_ascii_of_string s).

Definition NL : N := 10.
Definition SLASH : N := 47.
Definition BACKSLASH : N := 92.
Definition QUOTE : N := 34.
Definition APOSTROPHE : N := 39.

(** [str.isspace] on one code point (CPython's [_PyUnicode_IsWhitespace]). *)
Definition is_space (c : N) : bool :=
  ((9 <=? c) && (c <=? 13)) || ((28 <=? c) && (c <=? 32))
  || (c =? 133) || (c =? 160) || (c =? 5760)
  || ((8192 <=? c) && (c <=? 8202))
  || (c =? 8232) || (c =? 8233) || (c =? 8239) || (c =? 8287) || (c =? 12288).

Fixpoint lstrip (s : pystr) : pystr :=
  match s with
  | c :: s' => if is_space c then lstrip s' else s
  | [] => []
  end.

(** [s.strip()] *)
Definition strip (s : pystr) : pystr := rev (lstrip (rev (lstrip s))).

(** [not s.strip()]: every character is whitespace. *)
Definition is_blank (s : pystr) : bool := forallb is_space s.

(** [s.startswith(p)] *)
Fixpoint startswith (p s : pystr) : bool :=
  match p, s with
  | [], _ => true
  | a :: p', b :: s' => (a =? b) && startswith p' s'
  | _ :: _, [] => false
  end.

(** The rest of [s] after the prefix [p], when [s] starts with [p]. *)
Fixpoint strip_prefix (p s : pystr) : option pystr :=
  match p, s with
  | [], _ => Some s
  | a :: p', b :: s' => if a =? b then strip_prefix p' s' else None
  | _ :: _, [] => None
  end.

(** [sep.join(parts)] *)
Fixpoint join (sep : pystr) (parts : list pystr) : pystr :=
  match parts with
  | [] => []
  | [p] => p
  | p :: ps => p ++ sep ++ join sep ps
  end.

(** [s.split("/")[-1]]: the text after the last slash. *)
Fixpoint basename_acc (cur s : pystr) : pystr :=
  match s with
  | [] => cur
  | c :: s' => if c =? SLASH then basename_acc [] s' else basename_acc (cur ++ [c]) s'
  end.
Definition basename (s : pystr) : pystr := basename_acc [] s.

(** [c in s] for a single character. *)
Definition contains_char (c : N) (s : pystr) : bool := existsb (N.eqb c) s.

(** [needle in hay] *)
Fixpoint contains (needle hay : pystr) : bool :=
  startswith needle hay ||
  match hay with
  | [] => false
  | _ :: hay' => contains needle hay'
  end.

(** [str(n)] for an integer. *)
Definition str_of_Z (z : Z) : pystr := py (NilZero.string_of_int (Z.to_int z)).
Definition str_of_nat (n : nat) : pystr := str_of_Z (Z.of_nat n).

End Py.
Import Py.

(** ** [fnmatch]: shell-style matching (Python standard library)

    [fnmatch.fnmatch(name, pat)] on a POSIX host: no case folding, the whole
    name must match; [*] matches any run of characters and [?] any single
    one.  The matcher below covers patterns without bracket expressions,
    which is all the built-in ignore rules use.  Definitions and theorems
    that range over arbitrary user patterns take the matcher as a section
    variable instead. *)

Module Fnmatch.

Definition STAR : N := 42.
Definition QMARK : N := 63.

Fixpoint glob_match (pat name : pystr) : bool :=
  match pat with
  | [] => match name with [] => true | _ => false end
  | p :: pat' =>
      if p =? STAR then
        (fix star (n : pystr) : bool :=
           glob_match pat' n ||
           match n with
           | [] => false
           | _ :: n' => star n'
           end) name
      else
        match name with
        | [] => false
        | c :: name' => ((p =? QMARK) || (p =? c)) && glob_match pat' name'
        end
  end.

Definition fnmatch (name pat : pystr) : bool := glob_match pat name.

End Fnmatch.

(** ** [app/utils/codeguardignore.py] and the diff segmenter *)

Module Codeguardignore.

Definition DEFAULT_IGNORE_PATTERNS : list pystr :=
  [ py "*.lock"; py "*.min.js"; py "*.min.css"; py "package-lock.json";
    py "yarn.lock"; py "pnpm-lock.yaml"; py "*.generated.*"; py "*.pb.go";
    py "*.pb.py" ].

(** [str.splitlines]: the line boundaries of Python, a carriage return
    followed by a line feed counting as one. *)
Definition is_linebreak (c : N) : bool :=
  ((10 <=? c) && (c <=? 13)) || ((28 <=? c) && (c <=? 30))
  || (c =? 133) || (c =? 8232) || (c =? 8233).

Fixpoint splitlines_acc (cur s : pystr) : list pystr :=
  match s with
  | [] => match cur with [] => [] | _ :: _ => [cur] end
  | c :: s' =>
      if is_linebreak c then
        cur :: match s' with
               | d :: s'' =>
                   if (c =? 13) && (d =? 10) then splitlines_acc [] s''
                   else splitlines_acc [] s'
               | [] => []
               end
      else splitlines_acc (cur ++ [c]) s'
  end.
Definition splitlines (s : pystr) : list pystr := splitlines_acc [] s.

(** [parse_ignore_file] *)
Definition parse_ignore_file (content : pystr) : list pystr :=
  fold_left
    (fun patterns line =>
       let line := strip line in
       match line with
       | [] => patterns
       | c :: _ => if c =? 35 then patterns else patterns ++ [line]
       end)
    (splitlines content) [].

(** The text ["diff --git "] that starts a section and ["diff --git a/"],
    [" b/"] around the captured path. *)
Definition DIFF_GIT : pystr := Eval cbv in py "diff --git ".
Definition DIFF_GIT_A : pystr := Eval cbv in py "diff --git a/".
Definition SPACE_B : pystr := Eval cbv in py " b/".

(** The lazy group [(.+?)] followed by [" b/"], after its first character:
    the shortest run of non-newline characters that is followed by [" b/"]. *)
Fixpoint lazy_path (s : pystr) : option pystr :=
  match s with
  | [] => None
  | c :: s' =>
      if startswith SPACE_B s then Some []
      else if c =? NL then None
      else option_map (cons c) (lazy_path s')
  end.

(** [re.match(r"^diff --git a/(.+?) b/", s)]: [group(1)] when [s] starts
    with a well-formed header. *)
Definition header_path (s : pystr) : option pystr :=
  match strip_prefix DIFF_GIT_A s with
  | Some (c :: s') =>
      if c =? NL then None else option_map (cons c) (lazy_path s')
  | _ => None
  end.

(** [re.split(r"(?=^diff --git )", diff, flags=re.MULTILINE)]: the text is
    cut (zero-width) before every line that starts with ["diff --git "].
    [bol] tells whether the current position is the start of a line.  The
    result is the piece before the first cut and the pieces after it; a cut
    at position 0 leaves an empty first piece, as Python does. *)
Fixpoint re_split (bol : bool) (s : pystr) : pystr * list pystr :=
  match s with
  | [] => ([], [])
  | c :: s' =>
      let '(cur, rest) := re_split (c =? NL) s' in
      if bol && startswith DIFF_GIT s
      then ([], (c :: cur) :: rest)
      else (c :: cur, rest)
  end.

Definition file_sections (diff : pystr) : list pystr :=
  let '(pre, secs) := re_split true diff in pre :: secs.

(** The text before the first section header: the first piece of the split. *)
Definition preamble (diff : pystr) : pystr := fst (re_split true diff).

(** Whether some line of the text starts with ["diff --git "]. *)
Fixpoint has_header_line (bol : bool) (s : pystr) : bool :=
  match s with
  | [] => false
  | c :: s' => (bol && startswith DIFF_GIT s) || has_header_line (c =? NL) s'
  end.

Section WithMatcher.

(** [fnmatch.fnmatch(name, pat)] *)
Variable fnmatch : pystr -> pystr -> bool.

Fixpoint should_ignore_file (file_path : pystr) (patterns : list pystr) : bool :=
  match patterns with
  | [] => false
  | pattern :: patterns' =>
      if fnmatch file_path pattern then true
      else if fnmatch (basename file_path) pattern then true
      else if contains_char SLASH pattern && fnmatch file_path pattern then true
      else should_ignore_file file_path patterns'
  end.

(** The loop of [filter_diff] over the sections, with its three
    accumulators. *)
Fixpoint filter_sections (all_patterns : list pystr) (sections : list pystr)
    (kept_sections kept_files ignored_files : list pystr)
    : list pystr * list pystr * list pystr :=
  match sections with
  | [] => (kept_sections, kept_files, ignored_files)
  | section :: sections' =>
      if is_blank section then
        filter_sections all_patterns sections' kept_sections kept_files ignored_files
      else
        match header_path section with
        | None =>
            filter_sections all_patterns sections'
              (kept_sections ++ [section]) kept_files ignored_files
        | Some file_path =>
            if should_ignore_file file_path all_patterns then
              filter_sections all_patterns sections'
                kept_sections kept_files (ignored_files ++ [file_path])
            else
              filter_sections all_patterns sections'
                (kept_sections ++ [section]) (kept_files ++ [file_path]) ignored_files
        end
  end.

Definition filter_diff (diff : pystr) (patterns : list pystr)
    : pystr * list pystr * list pystr :=
  let all_patterns := DEFAULT_IGNORE_PATTERNS ++ patterns in
  let '(kept_sections, kept_files, ignored_files) :=
    filter_sections all_patterns (file_sections diff) [] [] [] in
  (concat kept_sections, kept_files, ignored_files).

(** Whether [filter_diff] keeps a section: it is not whitespace-only, and
    it has no well-formed header or its path is not ignored. *)
Definition keep_section (all_patterns : list pystr) (section : pystr) : bool :=
  negb (is_blank section)
  && match header_path section with
     | Some file_path => negb (should_ignore_file file_path all_patterns)
     | None => true
     end.

(** The reading under which every section without a well-formed header is
    kept, whitespace-only or not. *)
Definition keep_section_any (all_patterns : list pystr) (section : pystr) : bool :=
  match header_path section with
  | Some file_path => negb (should_ignore_file file_path all_patterns)
  | None => true
  end.

End WithMatcher.

End Codeguardignore.

(** ** [app/agents/schemas.py] and [app/models/finding.py] *)

Module Schemas.

(** [Literal["critical", "warning", "info"]] *)
Inductive AgentSeverity := SevCritical | SevWarning | SevInfo.

Definition severity_str (s : AgentSeverity) : pystr :=
  match s with
  | SevCritical => py "critical"
  | SevWarning => py "warning"
  | SevInfo => py "info"
  end.

(** [Literal["high", "medium", "low"]] *)
Inductive Confidence := ConfHigh | ConfMedium | ConfLow.

Definition confidence_str (c : Confidence) : pystr :=
  match c with
  | ConfHigh => py "high"
  | ConfMedium => py "medium"
  | ConfLow => py "low"
  end.

Record AgentFinding := {
  severity : AgentSeverity;
  confidence : Confidence;
  file_path : pystr;
  line_number : option Z;
  title : pystr;
  description : pystr;
  suggestion : option pystr
}.

(** [class AgentType(str, Enum)] *)
Inductive AgentType := LOGIC | SECURITY | QUALITY.

(** [class Severity(str, Enum)] *)
Inductive Severity := CRITICAL | HIGH | MEDIUM | LOW | INFO.

Definition Severity_value (s : Severity) : pystr :=
  match s with
  | CRITICAL => py "critical"
  | HIGH => py "high"
  | MEDIUM => py "medium"
  | LOW => py "low"
  | INFO => py "info"
  end.

(** [FindingCreate] ([FindingBase] plus [review_id]); [confidence] is a
    plain [str] there. *)
Record FindingCreate := {
  fc_review_id : pystr;
  fc_agent_type : AgentType;
  fc_severity : Severity;
  fc_file_path : pystr;
  fc_line_number : option Z;
  fc_title : pystr;
  fc_description : pystr;
  fc_suggestion : option pystr;
  fc_confidence : pystr;
  fc_is_false_positive : bool;
  fc_false_positive_reason : option pystr
}.

(** *** Validation of raw (JSON-decoded) data

    The values [json.loads] hands to [model_validate]. *)
Inductive pyval :=
  | PyNone
  | PyBool (b : bool)
  | PyInt (z : Z)
  | PyStr (s : pystr)
  | PyOther.

(** The outcome of validating one field: the value, or a validation error. *)
Inductive validated (A : Type) := Valid (a : A) | Invalid.
Arguments Valid {A} a.
Arguments Invalid {A}.

Definition vbind {A B : Type} (v : validated A) (k : A -> validated B) : validated B :=
  match v with
  | Valid a => k a
  | Invalid => Invalid
  end.

(** A [Literal[...]] field: the value must be one of the listed strings. *)
Fixpoint validate_literal {A : Type} (allowed : list A) (str : A -> pystr) (s : pystr)
    : validated A :=
  match allowed with
  | [] => Invalid
  | a :: allowed' =>
      if decide (str a = s) then Valid a else validate_literal allowed' str s
  end.

Definition validate_agent_severity (v : pyval) : validated AgentSeverity :=
  match v with
  | PyStr s => validate_literal [SevCritical; SevWarning; SevInfo] severity_str s
  | _ => Invalid
  end.

Definition validate_confidence (v : pyval) : validated Confidence :=
  match v with
  | PyStr s => validate_literal [ConfHigh; ConfMedium; ConfLow] confidence_str s
  | _ => Invalid
  end.

(** A [str] field. *)
Definition validate_str (v : pyval) : validated pystr :=
  match v with
  | PyStr s => Valid s
  | _ => Invalid
  end.

(** An [Optional[str]] field that is present. *)
Definition validate_optional_str (v : pyval) : validated (option pystr) :=
  match v with
  | PyNone => Valid None
  | PyStr s => Valid (Some s)
  | _ => Invalid
  end.

Section Validation.

(** Pydantic's lax conversion to [int] of a value that is neither [None]
    nor an [int] (numeric strings, booleans, ...): library behaviour, kept
    abstract. *)
Variable lax_int : pyval -> validated Z.

(** An [Optional[int]] field that is present: no bound is declared on it. *)
Definition validate_optional_int (v : pyval) : validated (option Z) :=
  match v with
  | PyNone => Valid None
  | PyInt z => Valid (Some z)
  | _ => vbind (lax_int v) (fun z => Valid (Some z))
  end.

(** A required field. *)
Definition required {A : Type} (d : gmap pystr pyval) (key : pystr)
    (validate : pyval -> validated A) : validated A :=
  match d !! key with
  | Some v => validate v
  | None => Invalid
  end.

(** A field with a default. *)
Definition with_default {A : Type} (d : gmap pystr pyval) (key : pystr)
    (validate : pyval -> validated A) (dflt : A) : validated A :=
  match d !! key with
  | Some v => validate v
  | None => Valid dflt
  end.

(** [AgentFinding.model_validate(d)] for a dict [d]. *)
Definition validate_AgentFinding (d : gmap pystr pyval) : validated AgentFinding :=
  vbind (required d (py "severity") validate_agent_severity) (fun sev =>
  vbind (with_default d (py "confidence") validate_confidence ConfMedium) (fun conf =>
  vbind (required d (py "file_path") validate_str) (fun path =>
  vbind (with_default d (py "line_number") validate_optional_int None) (fun line =>
  vbind (required d (py "title") validate_str) (fun ttl =>
  vbind (required d (py "description") validate_str) (fun descr =>
  vbind (with_default d (py "suggestion") validate_optional_str None) (fun sugg =>
  Valid {| severity := sev; confidence := conf; file_path := path;
           line_number := line; title := ttl; description := descr;
           suggestion := sugg |}))))))).

(** The fields of [FindingBase] the persisted model validates:
    [severity: Severity], [confidence: str = "medium"],
    [line_number: Optional[int] = None]. *)
Definition validate_persisted_severity (v : pyval) : validated Severity :=
  match v with
  | PyStr s => validate_literal [CRITICAL; HIGH; MEDIUM; LOW; INFO] Severity_value s
  | _ => Invalid
  end.

Definition validate_persisted_confidence (v : pyval) : validated pystr :=
  validate_str v.

Definition validate_persisted_line_number (v : pyval) : validated (option Z) :=
  validate_optional_int v.

End Validation.

End Schemas.
Import Schemas.

(** ** [app/agents/formatter.py] *)

Module Formatter.

(** [d[k]] for a key that is present; the dictionaries below are only
    subscripted with the keys of [SEVERITY_ORDER]. *)
Definition subscript {V : Type} (d : gmap pystr V) (k : pystr) (dflt : V) : V :=
  default dflt (d !! k).

Definition SEVERITY_EMOJI : gmap pystr pystr :=
  <[py "critical" := [128308]]>
  (<[py "warning" := [128993]]>
  (<[py "info" := [128309]]> ∅)).

Definition SEVERITY_ORDER : list pystr :=
  [py "critical"; py "warning"; py "info"].

Definition SEVERITY_LABEL : gmap pystr pystr :=
  <[py "critical" := py "Critical"]>
  (<[py "warning" := py "Warning"]>
  (<[py "info" := py "Info"]> ∅)).

(** [count_by_severity]: [counts[severity] = counts.get(severity, 0) + 1]
    for each finding. *)
Definition count_by_severity (findings : list AgentFinding) : gmap pystr nat :=
  fold_left
    (fun (counts : gmap pystr nat) finding =>
       let sev := severity_str (severity finding) in
       <[sev := (default 0 (counts !! sev) + 1)%nat]> counts)
    findings ∅.

(** [_format_finding] *)
Definition _format_finding (finding : AgentFinding) (agent_type : pystr) : pystr :=
  let location :=
    match line_number finding with
    | Some n => file_path finding ++ py ":" ++ str_of_Z n
    | None => file_path finding
    end in
  let lines :=
    [ py "<details>";
      py "<summary><b>" ++ title finding ++ py "</b> (" ++ location
        ++ py ") - " ++ agent_type ++ py "</summary>";
      [];
      py "**File:** `" ++ file_path finding ++ py "`" ] in
  let lines :=
    match line_number finding with
    | Some n => lines ++ [py "**Line:** " ++ str_of_Z n]
    | None => lines
    end in
  let lines := lines ++ [py "**Agent:** " ++ agent_type] in
  let lines := lines ++ [[]] in
  let lines := lines ++ [description finding] in
  let lines :=
    match suggestion finding with
    | Some (c :: s) => lines ++ [[]; py "**Suggestion:** " ++ (c :: s)]
    | _ => lines
    end in
  let lines := lines ++ [[]] in
  let lines := lines ++ [py "</details>"] in
  join [NL] lines.

(** [_format_no_issues] *)
Definition _format_no_issues : pystr :=
  py "## CodeGuard AI Review" ++ [NL; NL]
  ++ py "No issues found! Your code looks good." ++ [NL; NL]
  ++ py "---" ++ [NL]
  ++ py "*Automated review by CodeGuard AI*".

(** The summary loop of [format]. *)
Definition summary_lines (counts : gmap pystr nat) : list pystr :=
  fold_left
    (fun lines sev =>
       let count := default 0%nat (counts !! sev) in
       if (0 <? count)%nat then
         let emoji := subscript SEVERITY_EMOJI sev [] in
         let label := subscript SEVERITY_LABEL sev [] in
         let plural := if negb (count =? 1)%nat then py "issues" else py "issue" in
         lines ++ [py "- " ++ emoji ++ py " **" ++ str_of_nat count ++ py " "
                   ++ label ++ py "** " ++ plural]
       else lines)
    SEVERITY_ORDER [].

(** [findings_by_severity]: one empty list per severity, then every finding
    appended to the list of its severity. *)
Definition group_by_severity (all_findings : list (AgentFinding * pystr))
    : gmap pystr (list (AgentFinding * pystr)) :=
  fold_left
    (fun (d : gmap pystr (list (AgentFinding * pystr))) fa =>
       let sev := severity_str (severity (fst fa)) in
       <[sev := subscript d sev [] ++ [fa]]> d)
    all_findings
    (list_to_map (List.map (fun s => (s, [])) SEVERITY_ORDER)).

(** The section loop of [format]. *)
Definition section_lines (by_sev : gmap pystr (list (AgentFinding * pystr)))
    : list pystr :=
  fold_left
    (fun lines sev =>
       let findings := subscript by_sev sev [] in
       match findings with
       | [] => lines
       | _ :: _ =>
           let emoji := subscript SEVERITY_EMOJI sev [] in
           let label := subscript SEVERITY_LABEL sev [] in
           let lines := lines ++ [[]] in
           let lines := lines ++ [py "### " ++ emoji ++ py " " ++ label ++ py " Issues"] in
           let lines := lines ++ [[]] in
           fold_left
             (fun lines (fa : AgentFinding * pystr) =>
                lines ++ [_format_finding (fst fa) (snd fa)] ++ [[]])
             findings lines
       end)
    SEVERITY_ORDER [].

(** The list [lines] that [format] joins, for a non-empty finding list. *)
Definition format_lines (all_findings : list (AgentFinding * pystr)) : list pystr :=
  let combined_findings := List.map fst all_findings in
  let counts := count_by_severity combined_findings in
  let lines := [py "## CodeGuard AI Review"; []; py "### Summary"] in
  let lines := lines ++ summary_lines counts in
  let lines := lines ++ section_lines (group_by_severity all_findings) in
  let lines := lines ++ [py "---"] in
  let lines := lines ++ [py "*Automated review by CodeGuard AI*"] in
  lines.

(** [all_findings] of [format]: the buckets with their agent labels. *)
Definition label_findings
    (logic_findings security_findings quality_findings : list AgentFinding)
    : list (AgentFinding * pystr) :=
  List.map (fun f => (f, py "Logic")) logic_findings
  ++ List.map (fun f => (f, py "Security")) security_findings
  ++ List.map (fun f => (f, py "Quality")) quality_findings.

(** [CommentFormatter.format] *)
Definition format
    (logic_findings security_findings quality_findings : list AgentFinding) : pystr :=
  let all_findings := label_findings logic_findings security_findings quality_findings in
  match all_findings with
  | [] => _format_no_issues
  | _ :: _ => join [NL] (format_lines all_findings)
  end.

(** *** The report as the specification words it

    One summary line per severity with a non-zero count, in the order
    critical, warning, info, with the noun in the singular for a count of
    one; then one section per severity present, in the same order, whose
    entries are the findings of that severity in the order logic, security,
    quality and, inside a bucket, in the order of the bucket. *)

Definition SEVERITIES : list AgentSeverity := [SevCritical; SevWarning; SevInfo].

Definition severity_eqb (a b : AgentSeverity) : bool :=
  match a, b with
  | SevCritical, SevCritical | SevWarning, SevWarning | SevInfo, SevInfo => true
  | _, _ => false
  end.

Definition severity_emoji (sev : AgentSeverity) : pystr :=
  match sev with
  | SevCritical => [128308]
  | SevWarning => [128993]
  | SevInfo => [128309]
  end.

Definition severity_label (sev : AgentSeverity) : pystr :=
  match sev with
  | SevCritical => py "Critical"
  | SevWarning => py "Warning"
  | SevInfo => py "Info"
  end.

Definition count_severity (sev : AgentSeverity) (findings : list AgentFinding) : nat :=
  length (List.filter (fun f => severity_eqb sev (severity f)) findings).

Definition report_summary_line (sev : AgentSeverity) (count : nat) : pystr :=
  py "- " ++ severity_emoji sev ++ py " **" ++ str_of_nat count ++ py " "
  ++ severity_label sev ++ py "** "
  ++ (if (count =? 1)%nat then py "issue" else py "issues").

Definition report_summary (findings : list AgentFinding) : list pystr :=
  flat_map
    (fun sev =>
       match count_severity sev findings with
       | O => []
       | S n => [report_summary_line sev (S n)]
       end)
    SEVERITIES.

Definition report_sections (all_findings : list (AgentFinding * pystr)) : list pystr :=
  flat_map
    (fun sev =>
       match List.filter (fun fa => severity_eqb sev (severity (fst fa))) all_findings with
       | [] => []
       | entries =>
           [[]; py "### " ++ severity_emoji sev ++ py " " ++ severity_label sev
                ++ py " Issues"; []]
           ++ flat_map (fun fa => [_format_finding (fst fa) (snd fa); []]) entries
       end)
    SEVERITIES.

Definition report_lines
    (logic_findings security_findings quality_findings : list AgentFinding)
    : list pystr :=
  [py "## CodeGuard AI Review"; []; py "### Summary"]
  ++ report_summary (logic_findings ++ security_findings ++ quality_findings)
  ++ report_sections
       (label_findings logic_findings security_findings quality_findings)
  ++ [py "---"; py "*Automated review by CodeGuard AI*"].

End Formatter.

(** ** [app/services/llm.py] *)

Module LLM.

(** *** [_fix_json_escapes] *)

(** The characters the repair pattern takes for valid escapes: the double
    quote, the backslash, the slash and the letters b, f, n, r, t, u. *)
Definition valid_escape_char (c : N) : bool :=
  (c =? QUOTE) || (c =? BACKSLASH) || (c =? SLASH) || (c =? 98) || (c =? 102)
  || (c =? 110) || (c =? 114) || (c =? 116) || (c =? 117).

(** The [re.sub] of the repair, with its negative lookbehind: scanning
    from the left, a backslash that is not preceded by a backslash and is
    followed by a character outside the class is replaced, together with
    that character, by two backslashes and the character; the scan resumes
    after the replaced pair.  [prev] tells whether the character before the
    current position (in the original text) is a backslash. *)
Fixpoint re_sub_escapes (prev : bool) (s : pystr) : pystr :=
  match s with
  | [] => []
  | c :: s' =>
      if (c =? BACKSLASH) && negb prev then
        match s' with
        | d :: s'' =>
            if valid_escape_char d then c :: re_sub_escapes true s'
            else BACKSLASH :: BACKSLASH :: d :: re_sub_escapes (d =? BACKSLASH) s''
        | [] => [c]
        end
      else c :: re_sub_escapes (c =? BACKSLASH) s'
  end.

(** [content.replace("\\'", "'")]: every backslash-apostrophe pair, found
    from the left without overlap, becomes an apostrophe. *)
Fixpoint replace_escaped_apostrophe (s : pystr) : pystr :=
  match s with
  | [] => []
  | c :: s' =>
      match s' with
      | d :: s'' =>
          if (c =? BACKSLASH) && (d =? APOSTROPHE)
          then APOSTROPHE :: replace_escaped_apostrophe s''
          else c :: replace_escaped_apostrophe s'
      | [] => [c]
      end
  end.

Definition _fix_json_escapes (content : pystr) : pystr :=
  replace_escaped_apostrophe (re_sub_escapes false content).

(** *** The fenced-block pattern of [invoke_structured] *)

Definition FENCE : pystr := [96; 96; 96].

(** The lazy group [([\s\S]*?)] followed by the closing fence. *)
Fixpoint until_fence (s : pystr) : option pystr :=
  if startswith FENCE s then Some []
  else match s with
       | [] => None
       | c :: s' => option_map (cons c) (until_fence s')
       end.

(** The pattern [```(?:json)?\s*([\s\S]*?)```] tried at the start of [s].
    The optional [json] and the whitespace run are taken greedily; neither
    contains a backquote, so giving some of them back never turns a failed
    match into a successful one. *)
Definition match_fence_at (s : pystr) : option pystr :=
  match strip_prefix FENCE s with
  | Some r =>
      let r := match strip_prefix (py "json") r with Some r' => r' | None => r end in
      until_fence (lstrip r)
  | None => None
  end.

(** [re.search]: the leftmost position where the pattern matches. *)
Fixpoint search_fence (s : pystr) : option pystr :=
  match match_fence_at s with
  | Some g => Some g
  | None =>
      match s with
      | [] => None
      | _ :: s' => search_fence s'
      end
  end.

(** *** Responses, exceptions and one attempt *)

(** [response.content]: [None], a string, a list of strings, or a list
    holding structured data, given with its [json.dumps] text. *)
Inductive content :=
  | ContentNone
  | ContentStr (s : pystr)
  | ContentStrList (items : list pystr)
  | ContentData (dumped : pystr).

(** Exceptions: [ValueError] and its subclasses [json.JSONDecodeError] and
    pydantic's [ValidationError]; anything else. *)
Inductive exn :=
  | ValueError (msg : pystr)
  | JSONDecodeError (msg : pystr)
  | ValidationError (msg : pystr)
  | OtherError (msg : pystr).

(** [except (json.JSONDecodeError, ValueError)] *)
Definition caught (e : exn) : bool :=
  match e with
  | ValueError _ | JSONDecodeError _ | ValidationError _ => true
  | OtherError _ => false
  end.

Inductive event :=
  | Invoke (attempt : nat)
  | Sleep (seconds : Z).

Section InvokeStructured.

(** The decoded JSON document and the target schema: library code. *)
Variable json : Type.
Variable T : Type.
Variable json_loads : pystr -> exn + json.
Variable is_list : json -> bool.
(** [{"findings": data, "summary": "Analysis complete."}] *)
Variable wrap_findings : json -> json.
(** ['findings' in output_schema.model_fields] *)
Variable has_findings_field : bool.
Variable model_validate : json -> exn + T.

(** The body of the [try] block, from the response content on. *)
Definition process_content (c : content) : exn + T :=
  let content :=
    match c with
    | ContentNone => None
    | ContentStr s => Some s
    | ContentStrList items => Some (concat items)
    | ContentData dumped => Some dumped
    end in
  match content with
  | None => inl (ValueError (py "LLM returned empty response"))
  | Some content =>
      if is_blank content then inl (ValueError (py "LLM returned empty response"))
      else
        let content :=
          match search_fence content with
          | Some g => strip g
          | None => content
          end in
        let content := _fix_json_escapes content in
        let content := strip content in
        match content with
        | [] => inl (ValueError (py "LLM returned empty JSON content"))
        | _ :: _ =>
            match json_loads content with
            | inl e => inl e
            | inr data =>
                let data :=
                  if is_list data && has_findings_field
                  then wrap_findings data else data in
                model_validate data
            end
        end
  end.

(** The model: the reply to the [k]-th call of [self.llm.invoke], which may
    raise. *)
Variable llm : nat -> exn + content.

Definition attempt_result (attempt : nat) : exn + T :=
  match llm attempt with
  | inl e => inl e
  | inr c => process_content c
  end.

(** [for attempt in range(max_retries + 1)], with the trace of model calls
    and sleeps. *)
Fixpoint attempts (max_retries : Z) (range : list nat) (last_error : option exn)
    (trace : list event) : list event * (exn + T) :=
  match range with
  | [] =>
      (trace,
       inl (default (ValueError (py "Failed to get structured response")) last_error))
  | attempt :: range' =>
      let trace := trace ++ [Invoke attempt] in
      match attempt_result attempt with
      | inr v => (trace, inr v)
      | inl e =>
          if caught e then
            if (Z.of_nat attempt <? max_retries)%Z
            then attempts max_retries range' (Some e) (trace ++ [Sleep 1])
            else (trace, inl e)
          else (trace, inl e)
      end
  end.

Definition invoke_structured (max_retries : Z) : list event * (exn + T) :=
  attempts max_retries (seq 0 (Z.to_nat (max_retries + 1))) None [].

End InvokeStructured.

(** [max_retries: int = 2] *)
Definition DEFAULT_MAX_RETRIES : Z := 2.

(** The trace of [n] attempts: the model calls, with a sleep of one second
    between two consecutive calls. *)
Definition retry_trace (n : nat) : list event :=
  match n with
  | O => []
  | S m => Invoke 0 :: flat_map (fun k => [Sleep 1; Invoke k]) (seq 1 m)
  end.

(** *** JSON string literals, as [json.loads] reads them *)

Definition hex_val (c : N) : option N :=
  if (48 <=? c) && (c <=? 57) then Some (c - 48)
  else if (97 <=? c) && (c <=? 102) then Some (c - 87)
  else if (65 <=? c) && (c <=? 70) then Some (c - 55)
  else None.

Definition hex4 (a b c d : N) : option N :=
  match hex_val a, hex_val b, hex_val c, hex_val d with
  | Some x, Some y, Some z, Some w => Some (((x * 16 + y) * 16 + z) * 16 + w)
  | _, _, _, _ => None
  end.

(** The character a simple escape stands for. *)
Definition unescape_char (c : N) : option N :=
  if c =? QUOTE then Some QUOTE
  else if c =? BACKSLASH then Some BACKSLASH
  else if c =? SLASH then Some SLASH
  else if c =? 98 then Some 8
  else if c =? 102 then Some 12
  else if c =? 110 then Some 10
  else if c =? 114 then Some 13
  else if c =? 116 then Some 9
  else None.

(** The characters of a JSON string literal, given the text between its
    quotes (strict mode): [None] when the text is not a legal string body.
    A [\uXXXX] escape yields its code unit (pairing of surrogate halves is
    left out). *)
Fixpoint json_string_chars (s : pystr) : option pystr :=
  match s with
  | [] => Some []
  | c :: s' =>
      if c =? BACKSLASH then
        match s' with
        | d :: s'' =>
            if d =? 117 then
              match s'' with
              | h1 :: h2 :: h3 :: h4 :: s''' =>
                  match hex4 h1 h2 h3 h4 with
                  | Some u => option_map (cons u) (json_string_chars s''')
                  | None => None
                  end
              | _ => None
              end
            else
              match unescape_char d with
              | Some x => option_map (cons x) (json_string_chars s'')
              | None => None
              end
        | [] => None
        end
      else if (c =? QUOTE) || (c <? 32) then None
      else option_map (cons c) (json_string_chars s')
  end.

(** *** Texts with escapes, token by token

    A text in which every backslash starts an escape: ordinary characters,
    simple escapes, [\uXXXX] escapes, and invalid escapes (a backslash
    before a character that is no escape character). *)
Inductive token :=
  | Plain (c : N)
  | Escape (c : N)
  | Unicode (h1 h2 h3 h4 : N)
  | BadEscape (c : N).

Definition token_text (t : token) : pystr :=
  match t with
  | Plain c => [c]
  | Escape c => [BACKSLASH; c]
  | Unicode h1 h2 h3 h4 => [BACKSLASH; 117; h1; h2; h3; h4]
  | BadEscape c => [BACKSLASH; c]
  end.

Definition text_of (ts : list token) : pystr := flat_map token_text ts.

Definition is_hex (c : N) : bool :=
  match hex_val c with Some _ => true | None => false end.

(** Each token is what its constructor says. *)
Definition token_ok (t : token) : bool :=
  match t with
  | Plain c => negb (c =? BACKSLASH)
  | Escape c => valid_escape_char c && negb (c =? 117)
  | Unicode h1 h2 h3 h4 => is_hex h1 && is_hex h2 && is_hex h3 && is_hex h4
  | BadEscape c => negb (valid_escape_char c)
  end.

(** Whether the text of a token ends with a backslash: only the escaped
    backslash does. *)
Definition ends_with_backslash (t : token) : bool :=
  match t with
  | Escape c => c =? BACKSLASH
  | _ => false
  end.

(** The texts the repair handles: no invalid escape comes directly after
    an escaped backslash (the lookbehind would take its backslash for
    escaped), no invalid escape is a backslash-apostrophe, and no apostrophe
    comes directly after an escaped backslash (the apostrophe replacement
    would take the pair for a backslash-apostrophe).  [prev] tells whether
    the text so far ends with a backslash. *)
Fixpoint repairable (prev : bool) (ts : list token) : bool :=
  match ts with
  | [] => true
  | t :: ts' =>
      token_ok t
      && match t with
         | BadEscape c => negb prev && negb (c =? APOSTROPHE)
         | Plain c => negb (prev && (c =? APOSTROPHE))
         | _ => true
         end
      && repairable (ends_with_backslash t) ts'
  end.

(** Whether a backslash is directly followed by an apostrophe somewhere; [prev] tells
    whether the text so far ends with a backslash. *)
Fixpoint has_escaped_apostrophe (prev : bool) (s : pystr) : bool :=
  match s with
  | [] => false
  | c :: s' => (prev && (c =? APOSTROPHE)) || has_escaped_apostrophe (c =? BACKSLASH) s'
  end.

(** The repair, token by token: the backslash of an invalid escape is
    doubled, everything else is unchanged. *)
Definition repair_token (t : token) : list token :=
  match t with
  | BadEscape c => [Escape BACKSLASH; Plain c]
  | _ => [t]
  end.

(** The characters a token is meant to stand for; an invalid escape stands
    for a backslash and its character. *)
Definition intended (t : token) : pystr :=
  match t with
  | Plain c => [c]
  | Escape c => match unescape_char c with Some x => [x] | None => [] end
  | Unicode h1 h2 h3 h4 => match hex4 h1 h2 h3 h4 with Some u => [u] | None => [] end
  | BadEscape c => [BACKSLASH; c]
  end.

(** The literal characters are legal inside a JSON string: no quote and no
    control character. *)
Definition literal_ok (t : token) : bool :=
  match t with
  | Plain c | BadEscape c => negb (c =? QUOTE) && negb (c <? 32)
  | _ => true
  end.

End LLM.

(** ** [app/worker/processor.py] *)

Module Processor.

Import Codeguardignore.

#[global] Instance Severity_eq_dec : EqDecision Severity.
Proof. solve_decision. Defined.

#[global] Instance Severity_countable : Countable Severity.
Proof.
  refine (inj_countable'
    (fun s => match s with
              | CRITICAL => 0%nat | HIGH => 1%nat | MEDIUM => 2%nat
              | LOW => 3%nat | INFO => 4%nat end)
    (fun n => match n with
              | 0%nat => CRITICAL | 1%nat => HIGH | 2%nat => MEDIUM
              | 3%nat => LOW | _ => INFO end) _).
  intros []; reflexivity.
Defined.

Definition PROGRESS_STAGES : gmap pystr (Z * pystr) :=
  list_to_map
    [ (py "fetching_diff", (10%Z, py "Fetching PR diff from GitHub"));
      (py "fetching_context", (15%Z, py "Fetching file context"));
      (py "logic_agent", (25%Z, py "Running Logic Agent"));
      (py "security_agent", (40%Z, py "Running Security Agent"));
      (py "quality_agent", (55%Z, py "Running Quality Agent"));
      (py "critique_agent", (70%Z, py "Running Critique Agent"));
      (py "deduplicating", (80%Z, py "Deduplicating findings"));
      (py "formatting", (90%Z, py "Formatting comment"));
      (py "posting", (95%Z, py "Posting to GitHub"));
      (py "complete", (100%Z, py "Review complete")) ].

(** [map_agent_severity]: [mapping.get(agent_severity, Severity.INFO)] *)
Definition map_agent_severity (agent_severity : pystr) : Severity :=
  let mapping : gmap pystr Severity :=
    list_to_map
      [ (py "critical", CRITICAL); (py "warning", MEDIUM); (py "info", INFO) ] in
  default INFO (mapping !! agent_severity).

(** [map_agent_type]: [mapping.get(agent_type_str, AgentType.LOGIC)] *)
Definition map_agent_type (agent_type_str : pystr) : AgentType :=
  let mapping : gmap pystr AgentType :=
    list_to_map
      [ (py "logic", LOGIC); (py "security", SECURITY); (py "quality", QUALITY) ] in
  default LOGIC (mapping !! agent_type_str).

Definition SEVERITY_RANK : gmap Severity Z :=
  list_to_map
    [ (CRITICAL, 0%Z); (HIGH, 1%Z); (MEDIUM, 2%Z); (LOW, 3%Z); (INFO, 4%Z) ].

(** [SEVERITY_RANK.get(s, 4)] *)
Definition rank (s : Severity) : Z := default 4%Z (SEVERITY_RANK !! s).

(** [extract_files_from_diff]: [re.finditer(r"^diff --git a/(.+?) b/", diff,
    re.MULTILINE)].  The scan tries the pattern at every position; after a
    match it resumes at the end of the match, which [skip] counts down. *)
Fixpoint finditer_paths (bol : bool) (skip : nat) (s : pystr) : list pystr :=
  match s with
  | [] => []
  | c :: s' =>
      match skip with
      | S k => finditer_paths (c =? NL) k s'
      | O =>
          match (if bol then header_path s else None) with
          | Some path =>
              path :: finditer_paths (c =? NL)
                        (length DIFF_GIT_A + length path + length SPACE_B - 1)%nat s'
          | None => finditer_paths (c =? NL) 0 s'
          end
      end
  end.

Definition extract_files_from_diff (diff : pystr) : list pystr :=
  finditer_paths true 0 diff.

(** The same scan read position by position: the header pattern tried at
    every start of line.  A match holds no newline, so no position inside
    it starts a line; [finditer_paths_scan] shows that the two scans agree. *)
Fixpoint scan_paths (bol : bool) (s : pystr) : list pystr :=
  match s with
  | [] => []
  | c :: s' =>
      match (if bol then header_path s else None) with
      | Some path => path :: scan_paths (c =? NL) s'
      | None => scan_paths (c =? NL) s'
      end
  end.

(** [_map_finding] *)
Definition _map_finding (finding : AgentFinding) (review_id : pystr)
    (agent_type : pystr) : FindingCreate :=
  {| fc_review_id := review_id;
     fc_agent_type := map_agent_type agent_type;
     fc_severity := map_agent_severity (severity_str (severity finding));
     fc_file_path := file_path finding;
     fc_line_number := line_number finding;
     fc_title := title finding;
     fc_description := description finding;
     fc_suggestion := suggestion finding;
     fc_confidence := confidence_str (confidence finding);
     fc_is_false_positive := false;
     fc_false_positive_reason := None |}.

(** One of the three loops that fill [all_findings]. *)
Definition collect_bucket (review_id : pystr) (threshold_rank : Z)
    (agent_type : pystr) (findings : list AgentFinding)
    (all_findings : list FindingCreate) : list FindingCreate :=
  fold_left
    (fun all_findings finding =>
       let mapped := _map_finding finding review_id agent_type in
       if (rank (fc_severity mapped) <=? threshold_rank)%Z
       then all_findings ++ [mapped] else all_findings)
    findings all_findings.

(** Step 6 of [process_review]: the findings that go to the database. *)
Definition collect_findings (review_id : pystr) (severity_threshold : Severity)
    (logic_findings security_findings quality_findings : list AgentFinding)
    : list FindingCreate :=
  let threshold_rank := rank severity_threshold in
  let all_findings := [] in
  let all_findings :=
    collect_bucket review_id threshold_rank (py "logic") logic_findings all_findings in
  let all_findings :=
    collect_bucket review_id threshold_rank (py "security") security_findings all_findings in
  let all_findings :=
    collect_bucket review_id threshold_rank (py "quality") quality_findings all_findings in
  all_findings.

(** All reconciled findings, mapped for the database, in bucket order. *)
Definition mapped_findings (review_id : pystr)
    (logic_findings security_findings quality_findings : list AgentFinding)
    : list FindingCreate :=
  List.map (fun f => _map_finding f review_id (py "logic")) logic_findings
  ++ List.map (fun f => _map_finding f review_id (py "security")) security_findings
  ++ List.map (fun f => _map_finding f review_id (py "quality")) quality_findings.

(** *** The driver [process_review]

    The driver talks to the database, the source-control host, the rate
    limiter, the agents and the progress channel.  Their observable state is
    the [world]; what each call answers in one run is the [Env].  The model
    starts at the [try] block, once the services of the driver exist.
    [_fetch_file_contents] catches every error of its own and is a function
    of the environment; [build_agents] stands for the language detection and
    the construction of the agents and of the supervisor (step 5). *)

Inductive ReviewStatus := PENDING | PROCESSING | COMPLETED | FAILED.

(** [Settings]: [enabled], [agents_enabled], [severity_threshold]. *)
Record Settings := {
  enabled : bool;
  agents_logic : bool;
  agents_security : bool;
  agents_quality : bool;
  severity_threshold : Severity
}.

Record world := {
  w_status : ReviewStatus;
  w_comment_id : option Z;
  w_diff_content : option pystr;
  w_findings : list FindingCreate;
  w_comments : list pystr;
  w_broadcasts : list (pystr * Z * pystr);
  w_sleeps : list Z;
  w_rate_increments : nat
}.

(** The calls of the [try] block that can raise. *)
Inductive step :=
  | StatusProcessing | GetReview | GetSettings | StatusCompletedDisabled
  | FetchDiff | StoreDiff | FetchIgnoreFile
  | RedisClient | RateLimitCheck | RateLimitExceeded | BuildAgents
  | AgentRun (agent : AgentType) | Critique | RateIncrement
  | Persist | PostComment | StatusCompleted.

(** What a call answers: a value, or an exception. *)
Inductive answer (A : Type) := Ok (a : A) | Error.
Arguments Ok {A} a.
Arguments Error {A}.

Record Env := {
  update_status_processing : answer unit;
  get_by_id : answer bool;
  get_by_repository : answer (option Settings);
  update_status_completed_disabled : answer unit;
  get_pr_diff : answer pystr;
  update_diff : pystr -> answer unit;
  get_ignore_file : answer (option pystr);
  fetch_file_contents : list pystr -> option (list (pystr * pystr));
  get_redis_client : answer unit;
  can_proceed : nat -> answer bool;
  build_agents : answer unit;
  analyze : AgentType -> pystr -> list pystr -> answer (list AgentFinding);
  critique :
    list AgentFinding -> list AgentFinding -> list AgentFinding ->
    answer (list AgentFinding * list AgentFinding * list AgentFinding);
  increment : answer unit;
  create_many : list FindingCreate -> answer unit;
  post_comment : pystr -> answer (option Z);
  update_status_completed : answer unit;
  update_status_failed : answer unit
}.

(** A computation over the world that returns or raises at a step. *)
Inductive result (A : Type) := Returned (a : A) | Raised (s : step).
Arguments Returned {A} a.
Arguments Raised {A} s.

Definition M (A : Type) : Type := world -> result A * world.

Definition ret {A : Type} (a : A) : M A := fun w => (Returned a, w).

Definition bind {A B : Type} (m : M A) (k : A -> M B) : M B :=
  fun w =>
    match m w with
    | (Returned a, w') => k a w'
    | (Raised s, w') => (Raised s, w')
    end.

Definition raise {A : Type} (s : step) : M A := fun w => (Raised s, w).

Definition modify (f : world -> world) : M unit := fun w => (Returned tt, f w).

(** An external call: its answer, or an exception attributed to [s]. *)
Definition call {A : Type} (s : step) (a : answer A) : M A :=
  match a with
  | Ok v => ret v
  | Error => raise s
  end.

Notation "x <- m ;; k" := (bind m (fun x => k))
  (at level 100, m at next level, right associativity).
Notation "m ;; k" := (bind m (fun _ => k))
  (at level 100, right associativity).

Definition set_status (s : ReviewStatus) (comment_id : option Z) (w : world) : world :=
  {| w_status := s;
     w_comment_id := match comment_id with Some c => Some c | None => w_comment_id w end;
     w_diff_content := w_diff_content w;
     w_findings := w_findings w;
     w_comments := w_comments w;
     w_broadcasts := w_broadcasts w;
     w_sleeps := w_sleeps w;
     w_rate_increments := w_rate_increments w |}.

Definition set_diff (d : pystr) (w : world) : world :=
  {| w_status := w_status w;
     w_comment_id := w_comment_id w;
     w_diff_content := Some d;
     w_findings := w_findings w;
     w_comments := w_comments w;
     w_broadcasts := w_broadcasts w;
     w_sleeps := w_sleeps w;
     w_rate_increments := w_rate_increments w |}.

Definition add_findings (fs : list FindingCreate) (w : world) : world :=
  {| w_status := w_status w;
     w_comment_id := w_comment_id w;
     w_diff_content := w_diff_content w;
     w_findings := w_findings w ++ fs;
     w_comments := w_comments w;
     w_broadcasts := w_broadcasts w;
     w_sleeps := w_sleeps w;
     w_rate_increments := w_rate_increments w |}.

Definition add_comment (c : pystr) (w : world) : world :=
  {| w_status := w_status w;
     w_comment_id := w_comment_id w;
     w_diff_content := w_diff_content w;
     w_findings := w_findings w;
     w_comments := w_comments w ++ [c];
     w_broadcasts := w_broadcasts w;
     w_sleeps := w_sleeps w;
     w_rate_increments := w_rate_increments w |}.

Definition add_broadcast (b : pystr * Z * pystr) (w : world) : world :=
  {| w_status := w_status w;
     w_comment_id := w_comment_id w;
     w_diff_content := w_diff_content w;
     w_findings := w_findings w;
     w_comments := w_comments w;
     w_broadcasts := w_broadcasts w ++ [b];
     w_sleeps := w_sleeps w;
     w_rate_increments := w_rate_increments w |}.

Definition add_sleep (seconds : Z) (w : world) : world :=
  {| w_status := w_status w;
     w_comment_id := w_comment_id w;
     w_diff_content := w_diff_content w;
     w_findings := w_findings w;
     w_comments := w_comments w;
     w_broadcasts := w_broadcasts w;
     w_sleeps := w_sleeps w ++ [seconds];
     w_rate_increments := w_rate_increments w |}.

Definition add_increment (w : world) : world :=
  {| w_status := w_status w;
     w_comment_id := w_comment_id w;
     w_diff_content := w_diff_content w;
     w_findings := w_findings w;
     w_comments := w_comments w;
     w_broadcasts := w_broadcasts w;
     w_sleeps := w_sleeps w;
     w_rate_increments := S (w_rate_increments w) |}.

(** [broadcast_progress]: a stage outside [PROGRESS_STAGES] is dropped. *)
Definition broadcast_progress (stage : pystr) : M unit :=
  match PROGRESS_STAGES !! stage with
  | None => ret tt
  | Some (progress, message) => modify (add_broadcast (stage, progress, message))
  end.

Section Driver.

Variable fnmatch : pystr -> pystr -> bool.
Variable env : Env.
Variable review_id : pystr.

(** Step 4: [for attempt in range(max_retries)] with its [else] clause. *)
Fixpoint rate_limit_loop (max_retries : nat) (range : list nat) : M unit :=
  match range with
  | [] => raise RateLimitExceeded
  | attempt :: range' =>
      ok <- call RateLimitCheck (can_proceed env attempt) ;;
      if (ok : bool) then ret tt
      else
        (if (attempt <? max_retries - 1)%nat then modify (add_sleep 5) else ret tt) ;;
        rate_limit_loop max_retries range'
  end.

(** [supervisor.run]: the three agents, the critique agent, the formatter.
    A supervisor built with [None] for an agent substitutes a default agent
    ([ReviewSupervisor.__init__]), so all three agents run. *)
Definition supervisor_run (diff : pystr) (files : list pystr)
    : M (list AgentFinding * list AgentFinding * list AgentFinding * pystr) :=
  logic <- call (AgentRun LOGIC) (analyze env LOGIC diff files) ;;
  security <- call (AgentRun SECURITY) (analyze env SECURITY diff files) ;;
  quality <- call (AgentRun QUALITY) (analyze env QUALITY diff files) ;;
  cleaned <- call Critique (critique env logic security quality) ;;
  let '(logic, security, quality) := cleaned in
  ret (logic, security, quality, Formatter.format logic security quality).

(** [repo_settings.severity_threshold if repo_settings else Severity.INFO] *)
Definition threshold_of (repo_settings : option Settings) : Severity :=
  match repo_settings with
  | Some st => severity_threshold st
  | None => INFO
  end.

(** Steps 2 to 9 of [process_review]: the run of an enabled review. *)
Definition run_pipeline (repo_settings : option Settings) : M unit :=
  broadcast_progress (py "fetching_diff") ;;
  diff <- call FetchDiff (get_pr_diff env) ;;
  call StoreDiff (update_diff env diff) ;;
  modify (set_diff diff) ;;
  let files := extract_files_from_diff diff in
  ignore_content <- call FetchIgnoreFile (get_ignore_file env) ;;
  let user_patterns :=
    match ignore_content with
    | Some (c :: content) => parse_ignore_file (c :: content)
    | _ => []
    end in
  let '(diff, files, ignored_files) := filter_diff fnmatch diff user_patterns in
  broadcast_progress (py "fetching_context") ;;
  let file_contents := fetch_file_contents env files in
  call RedisClient (get_redis_client env) ;;
  rate_limit_loop 3 (seq 0 3) ;;
  call BuildAgents (build_agents env) ;;
  broadcast_progress (py "logic_agent") ;;
  res <- supervisor_run diff files ;;
  let '(logic_findings, security_findings, quality_findings, final_comment) := res in
  broadcast_progress (py "critique_agent") ;;
  call RateIncrement (increment env) ;;
  modify add_increment ;;
  broadcast_progress (py "formatting") ;;
  let all_findings :=
    collect_findings review_id (threshold_of repo_settings)
      logic_findings security_findings quality_findings in
  match all_findings with
  | [] => ret tt
  | _ :: _ =>
      call Persist (create_many env all_findings) ;;
      modify (add_findings all_findings)
  end ;;
  broadcast_progress (py "posting") ;;
  comment_id <-
    match final_comment with
    | [] => ret None
    | _ :: _ =>
        id <- call PostComment (post_comment env final_comment) ;;
        modify (add_comment final_comment) ;;
        ret id
    end ;;
  call StatusCompleted (update_status_completed env) ;;
  modify (set_status COMPLETED comment_id) ;;
  broadcast_progress (py "complete").

(** [repo_settings and not repo_settings.enabled] *)
Definition review_disabled (repo_settings : option Settings) : bool :=
  match repo_settings with
  | Some st => negb (enabled st)
  | None => false
  end.

(** The body of the [try] block of [process_review]. *)
Definition try_body : M unit :=
  call StatusProcessing (update_status_processing env) ;;
  modify (set_status PROCESSING None) ;;
  review <- call GetReview (get_by_id env) ;;
  repo_settings <-
    (if (review : bool) then call GetSettings (get_by_repository env) else ret None) ;;
  if review_disabled repo_settings then
    call StatusCompletedDisabled (update_status_completed_disabled env) ;;
    modify (set_status COMPLETED None) ;;
    broadcast_progress (py "complete")
  else
    run_pipeline repo_settings.

(** [process_review]: the [try] block and its [except] handler, which
    records the failure and swallows an error of that update. *)
Definition process_review (w : world) : world :=
  match try_body w with
  | (Returned _, w') => w'
  | (Raised _, w') =>
      match update_status_failed env with
      | Ok _ => set_status FAILED None w'
      | Error => w'
      end
  end.

End Driver.

(** *** Reasoning about driver computations

    [wp m w Q]: running [m] from the world [w] ends in a result and a world
    that satisfy [Q]. *)
Definition wp {A : Type} (m : M A) (w : world) (Q : result A -> world -> Prop) : Prop :=
  Q (fst (m w)) (snd (m w)).

(** The records two worlds agree on. *)
Definition same_records (w w1 : world) : Prop :=
  w_status w1 = w_status w /\ w_findings w1 = w_findings w
  /\ w_comments w1 = w_comments w /\ w_broadcasts w1 = w_broadcasts w.

(** The checkpoints an enabled review broadcasts when it completes. *)
Definition COMPLETED_RUN_STAGES : list (pystr * Z * pystr) :=
  [ (py "fetching_diff", 10%Z, py "Fetching PR diff from GitHub");
    (py "fetching_context", 15%Z, py "Fetching file context");
    (py "logic_agent", 25%Z, py "Running Logic Agent");
    (py "critique_agent", 70%Z, py "Running Critique Agent");
    (py "formatting", 90%Z, py "Formatting comment");
    (py "posting", 95%Z, py "Posting to GitHub");
    (py "complete", 100%Z, py "Review complete") ].

(** The checkpoint vocabulary, in the order of [PROGRESS_STAGES]. *)
Definition ALL_STAGES : list (pystr * Z * pystr) :=
  [ (py "fetching_diff", 10%Z, py "Fetching PR diff from GitHub");
    (py "fetching_context", 15%Z, py "Fetching file context");
    (py "logic_agent", 25%Z, py "Running Logic Agent");
    (py "security_agent", 40%Z, py "Running Security Agent");
    (py "quality_agent", 55%Z, py "Running Quality Agent");
    (py "critique_agent", 70%Z, py "Running Critique Agent");
    (py "deduplicating", 80%Z, py "Deduplicating findings");
    (py "formatting", 90%Z, py "Formatting comment");
    (py "posting", 95%Z, py "Posting to GitHub");
    (py "complete", 100%Z, py "Review complete") ].

(** What the run of an enabled review leaves behind, by outcome: on
    success everything is recorded; a failure of the last status update
    comes after the findings and the comment are out; a failure of the
    comment post comes after the findings are stored; any earlier failure
    leaves neither. *)
Definition pipeline_outcome (env : Env) (rid : pystr) (st : option Settings) (w : world)
    (r : result unit) (w' : world) : Prop :=
  let reconciled (P : list AgentFinding -> list AgentFinding -> list AgentFinding -> Prop) :=
    exists l0 s0 q0 l s q, critique env l0 s0 q0 = Ok (l, s, q) /\ P l s q in
  match r with
  | Returned _ =>
      reconciled (fun l s q =>
        w_status w' = COMPLETED
        /\ w_findings w' = w_findings w ++ collect_findings rid (threshold_of st) l s q
        /\ w_comments w' = w_comments w ++ [Formatter.format l s q]
        /\ w_broadcasts w' = w_broadcasts w ++ COMPLETED_RUN_STAGES)
  | Raised StatusCompleted =>
      reconciled (fun l s q =>
        w_status w' = w_status w
        /\ w_findings w' = w_findings w ++ collect_findings rid (threshold_of st) l s q
        /\ w_comments w' = w_comments w ++ [Formatter.format l s q])
  | Raised PostComment =>
      reconciled (fun l s q =>
        w_status w' = w_status w
        /\ w_findings w' = w_findings w ++ collect_findings rid (threshold_of st) l s q
        /\ w_comments w' = w_comments w)
  | Raised _ =>
      w_status w' = w_status w
      /\ w_findings w' = w_findings w
      /\ w_comments w' = w_comments w
  end.

(** The settings a run works with: those of the repository when the
    review record is found, none otherwise. *)
Definition settings_fetched (env : Env) (rs : option Settings) : Prop :=
  (get_by_id env = Ok true /\ get_by_repository env = Ok rs)
  \/ (get_by_id env = Ok false /\ rs = None).

(** What the [try] block leaves behind, by outcome. *)
Definition review_outcome (env : Env) (rid : pystr) (w : world)
    (r : result unit) (w' : world) : Prop :=
  ((r = Raised StatusProcessing \/ r = Raised GetReview \/ r = Raised GetSettings)
   /\ w_findings w' = w_findings w /\ w_comments w' = w_comments w)
  \/ exists rs, settings_fetched env rs /\
       if review_disabled rs then
         w_findings w' = w_findings w /\ w_comments w' = w_comments w
         /\ ((r = Returned tt /\ w_status w' = COMPLETED
              /\ w_broadcasts w' = w_broadcasts w
                   ++ [(py "complete", 100%Z, py "Review complete")])
             \/ r = Raised StatusCompletedDisabled)
       else pipeline_outcome env rid rs (set_status PROCESSING None w) r w'.

End Processor.

(** ** Sample data for the examples *)

Module Examples.

Import Processor.

Definition REVIEW_ID : pystr := py "550e8400-e29b-41d4-a716-446655440000".

Definition SAMPLE_DIFF : pystr :=
  py "diff --git a/app.py b/app.py" ++ NL :: py "+import os" ++ [NL].

Definition finding_info : AgentFinding :=
  {| severity := SevInfo; confidence := ConfMedium; file_path := py "app.py";
     line_number := Some 1%Z; title := py "Unused import";
     description := py "The module os is imported and never used.";
     suggestion := None |}.

Definition finding_critical : AgentFinding :=
  {| severity := SevCritical; confidence := ConfHigh; file_path := py "app.py";
     line_number := Some 7%Z; title := py "Command injection";
     description := py "User input reaches a shell command.";
     suggestion := Some (py "Pass the arguments as a list.") |}.

Definition initial_world : world :=
  {| w_status := PENDING; w_comment_id := None; w_diff_content := None;
     w_findings := []; w_comments := []; w_broadcasts := [];
     w_sleeps := []; w_rate_increments := 0 |}.

(** A run in which every collaborator answers: the agents return the given
    buckets and the critique agent keeps them. *)
Definition env_ok (settings : option Settings)
    (logic security quality : list AgentFinding) : Env :=
  {| update_status_processing := Ok tt;
     get_by_id := Ok true;
     get_by_repository := Ok settings;
     update_status_completed_disabled := Ok tt;
     get_pr_diff := Ok SAMPLE_DIFF;
     update_diff := fun _ => Ok tt;
     get_ignore_file := Ok None;
     fetch_file_contents := fun _ => None;
     get_redis_client := Ok tt;
     can_proceed := fun _ => Ok true;
     build_agents := Ok tt;
     analyze := fun agent _ _ =>
       Ok match agent with
          | LOGIC => logic
          | SECURITY => security
          | QUALITY => quality
          end;
     critique := fun l s q => Ok (l, s, q);
     increment := Ok tt;
     create_many := fun _ => Ok tt;
     post_comment := fun _ => Ok (Some 42%Z);
     update_status_completed := Ok tt;
     update_status_failed := Ok tt |}.

(** The same run, except that posting the comment raises. *)
Definition env_post_fails (settings : option Settings)
    (logic security quality : list AgentFinding) : Env :=
  let e := env_ok settings logic security quality in
  {| update_status_processing := update_status_processing e;
     get_by_id := get_by_id e;
     get_by_repository := get_by_repository e;
     update_status_completed_disabled := update_status_completed_disabled e;
     get_pr_diff := get_pr_diff e;
     update_diff := update_diff e;
     get_ignore_file := get_ignore_file e;
     fetch_file_contents := fetch_file_contents e;
     get_redis_client := get_redis_client e;
     can_proceed := can_proceed e;
     build_agents := build_agents e;
     analyze := analyze e;
     critique := critique e;
     increment := increment e;
     create_many := create_many e;
     post_comment := fun _ => Error;
     update_status_completed := update_status_completed e;
     update_status_failed := update_status_failed e |}.

Definition settings_critical_only : Settings :=
  {| enabled := true; agents_logic := true; agents_security := true;
     agents_quality := true; severity_threshold := CRITICAL |}.

End Examples.

(** ** Further definitions: ignore rules and the diff segmenter *)

Module IgnoreRulesDefs.

Import Codeguardignore.

(** The lines that give a pattern: not empty once stripped, and not a
    comment. *)
Definition is_pattern_line (line : pystr) : bool :=
  match line with
  | [] => false
  | c :: _ => negb (c =? 35)
  end.

(** A section as [re_split] cuts it: it starts with the header text and no
    later line of it does. *)
Definition sec_ok (sec : pystr) : Prop :=
  startswith DIFF_GIT sec = true /\ has_header_line false sec = false.

(** The text ends with a line feed. *)
Definition ends_nl (x : pystr) : Prop := exists y, x = y ++ [NL].

End IgnoreRulesDefs.

(** ** Further definitions: the driver *)

Module DriverDefs.

Import Processor.

(** The world after [k] more sleeps of five seconds. *)
Definition slept (k : nat) (w : world) : world :=
  {| w_status := w_status w;
     w_comment_id := w_comment_id w;
     w_diff_content := w_diff_content w;
     w_findings := w_findings w;
     w_comments := w_comments w;
     w_broadcasts := w_broadcasts w;
     w_sleeps := w_sleeps w ++ repeat 5%Z k;
     w_rate_increments := w_rate_increments w |}.

(** The steps that come after [rate_limiter.increment]. *)
Definition after_increment (s : step) : bool :=
  match s with
  | Persist | PostComment | StatusCompleted => true
  | _ => false
  end.

(** The status, the rate counter and the stored diff that the run of an
    enabled review leaves behind, by outcome. *)
Definition pipeline_records (env : Env) (w : world) (r : result unit) (w' : world)
    : Prop :=
  match r with
  | Returned _ =>
      w_status w' = COMPLETED
      /\ w_rate_increments w' = S (w_rate_increments w)
      /\ get_pr_diff env = Ok (default [] (w_diff_content w'))
      /\ w_diff_content w' <> None
  | Raised s =>
      w_status w' = w_status w
      /\ w_rate_increments w'
         = (if after_increment s then S (w_rate_increments w) else w_rate_increments w)
      /\ s <> StatusProcessing
  end.

(** The status and the rate counter that the [try] block leaves behind. *)
Definition review_records (env : Env) (w : world) (r : result unit) (w' : world)
    : Prop :=
  match r with
  | Returned _ =>
      w_status w' = COMPLETED
      /\ exists rs, settings_fetched env rs
           /\ w_rate_increments w'
              = (if review_disabled rs then w_rate_increments w
                 else S (w_rate_increments w))
           /\ (review_disabled rs = false ->
                get_pr_diff env = Ok (default [] (w_diff_content w'))
                /\ w_diff_content w' <> None)
  | Raised s =>
      w_status w' = (match s with StatusProcessing => w_status w | _ => PROCESSING end)
      /\ w_rate_increments w'
         = (if after_increment s then S (w_rate_increments w) else w_rate_increments w)
  end.

(** A run in which the rate limiter refuses the first [busy] checks. *)
Definition env_rate_limited (busy : nat) : Env :=
  let e := Examples.env_ok None [Examples.finding_info] [] [] in
  {| update_status_processing := update_status_processing e;
     get_by_id := get_by_id e;
     get_by_repository := get_by_repository e;
     update_status_completed_disabled := update_status_completed_disabled e;
     get_pr_diff := get_pr_diff e;
     update_diff := update_diff e;
     get_ignore_file := get_ignore_file e;
     fetch_file_contents := fetch_file_contents e;
     get_redis_client := get_redis_client e;
     can_proceed := fun attempt => Ok (busy <=? attempt)%nat;
     build_agents := build_agents e;
     analyze := analyze e;
     critique := critique e;
     increment := increment e;
     create_many := create_many e;
     post_comment := post_comment e;
     update_status_completed := update_status_completed e;
     update_status_failed := update_status_failed e |}.

End DriverDefs.

(** ** [_fetch_file_contents]: the file context of a review *)

Module FileContext.

Import Codeguardignore Processor.

Definition MAX_CONTEXT_FILES : nat := 5.
Definition MAX_LINES_PER_FILE : nat := 500.
Definition MAX_TOTAL_CONTEXT_BYTES : N := 50000.

(** The number of bytes of one code point in UTF-8; a surrogate has no
    encoding ([UnicodeEncodeError]). *)
Definition utf8_len (c : N) : option N :=
  if c <? 128 then Some 1
  else if c <? 2048 then Some 2
  else if (55296 <=? c) && (c <=? 57343) then None
  else if c <? 65536 then Some 3
  else Some 4.

(** [len(content.encode("utf-8"))] *)
Fixpoint encoded_length (content : pystr) : option N :=
  match content with
  | [] => Some 0
  | c :: content' =>
      match utf8_len c, encoded_length content' with
      | Some a, Some b => Some (a + b)
      | _, _ => None
      end
  end.

(** The text appended to a truncated file. *)
Definition truncation_marker (more : nat) : pystr :=
  py "... (truncated, " ++ str_of_nat more ++ py " more lines)".

(** The cap of one file at [MAX_LINES_PER_FILE] lines. *)
Definition cap_lines (content : pystr) : pystr :=
  let lines := splitlines content in
  if (MAX_LINES_PER_FILE <? length lines)%nat then
    join [NL] (take MAX_LINES_PER_FILE lines)
    ++ NL :: NL :: truncation_marker (length lines - MAX_LINES_PER_FILE)
  else content.

(** A Python [dict] of texts: the keys in insertion order;
    [d[key] = value] replaces the value of a key in place. *)
Fixpoint dict_set (d : list (pystr * pystr)) (key value : pystr)
    : list (pystr * pystr) :=
  match d with
  | [] => [(key, value)]
  | (k, v) :: d' =>
      if decide (k = key) then (key, value) :: d'
      else (k, v) :: dict_set d' key value
  end.

(** The bytes a dictionary of texts holds. *)
Definition dict_bytes (d : list (pystr * pystr)) : N :=
  foldr (fun kv total => default 0 (encoded_length kv.2) + total) 0 d.

Section Fetch.

(** [github_service.get_file_content(owner, repo, file_path, ref)]: the
    text, [None] for a missing file, or an exception. *)
Variable get_file_content : pystr -> answer (option pystr).

(** The loop of [_fetch_file_contents], with the paths it has requested:
    [continue] goes on with the next file, [break] ends the loop. *)
Fixpoint fetch_loop (files : list pystr) (file_contents : list (pystr * pystr))
    (total_bytes : N) (requested : list pystr)
    : list (pystr * pystr) * list pystr :=
  match files with
  | [] => (file_contents, requested)
  | file_path :: files' =>
      let requested := requested ++ [file_path] in
      match get_file_content file_path with
      | Error => fetch_loop files' file_contents total_bytes requested
      | Ok None => fetch_loop files' file_contents total_bytes requested
      | Ok (Some content) =>
          let content := cap_lines content in
          match encoded_length content with
          | None => fetch_loop files' file_contents total_bytes requested
          | Some content_bytes =>
              if MAX_TOTAL_CONTEXT_BYTES <? total_bytes + content_bytes
              then (file_contents, requested)
              else fetch_loop files' (dict_set file_contents file_path content)
                     (total_bytes + content_bytes) requested
          end
      end
  end.

(** [_fetch_file_contents]: the dictionary, [None] when it is empty, and
    the paths requested from the host. *)
Definition _fetch_file_contents (files : list pystr)
    : option (list (pystr * pystr)) * list pystr :=
  let '(file_contents, requested) :=
    fetch_loop (take MAX_CONTEXT_FILES files) [] 0 [] in
  (match file_contents with [] => None | _ :: _ => Some file_contents end,
   requested).

(** What the loop keeps true of the dictionary it fills: each path once,
    the byte budget, and every text the capped text of a requested file. *)
Definition context_ok (d : list (pystr * pystr)) (requested : list pystr) : Prop :=
  List.NoDup (List.map fst d)
  /\ dict_bytes d <= MAX_TOTAL_CONTEXT_BYTES
  /\ forall file_path content, In (file_path, content) d ->
       In file_path requested
       /\ encoded_length content <> None
       /\ exists raw, get_file_content file_path = Ok (Some raw)
                      /\ content = cap_lines raw.

End Fetch.

(** A host with two files: a small one, and one that cannot be read. *)
Definition sample_host (file_path : pystr) : answer (option pystr) :=
  if decide (file_path = py "app.py") then Ok (Some (py "import os"))
  else if decide (file_path = py "secret.bin") then Error
  else Ok None.

End FileContext.

(** ** [RateLimiter]: the request counter kept in Redis *)

Module Queue.

(** A Redis key that holds an integer: its value and the seconds it has
    left to live, when an expiry is set. *)
Record entry := { e_value : Z; e_ttl : option Z }.

Abbreviation redis := (gmap pystr entry).

(** [GET key] *)
Definition redis_get (r : redis) (key : pystr) : option Z :=
  e_value <$> r !! key.

(** [INCR key]: a missing key counts as 0; the expiry is kept. *)
Definition redis_incr (r : redis) (key : pystr) : Z * redis :=
  match r !! key with
  | Some e =>
      ((e_value e + 1)%Z,
       <[key := {| e_value := (e_value e + 1)%Z; e_ttl := e_ttl e |}]> r)
  | None => (1%Z, <[key := {| e_value := 1%Z; e_ttl := None |}]> r)
  end.

(** [EXPIRE key seconds]: nothing happens to a missing key. *)
Definition redis_expire (r : redis) (key : pystr) (seconds : Z) : redis :=
  match r !! key with
  | Some e => <[key := {| e_value := e_value e; e_ttl := Some seconds |}]> r
  | None => r
  end.

(** [seconds] of time pass: the keys whose time is up are gone. *)
Definition elapse (seconds : Z) (r : redis) : redis :=
  omap (fun e =>
          match e_ttl e with
          | Some ttl =>
              if (ttl <=? seconds)%Z then None
              else Some {| e_value := e_value e; e_ttl := Some (ttl - seconds)%Z |}
          | None => Some e
          end) r.

Record RateLimiter := { max_requests : Z; window_seconds : Z }.

(** [RateLimiter(redis)]: 15 requests in 60 seconds. *)
Definition default_limiter : RateLimiter :=
  {| max_requests := 15; window_seconds := 60 |}.

(** [f"rate_limit:{key}"] *)
Definition rate_key (key : pystr) : pystr := py "rate_limit:" ++ key.

Definition can_proceed (self : RateLimiter) (r : redis) (key : pystr) : bool :=
  let current := redis_get r (rate_key key) in
  match current with
  | Some current => if (max_requests self <=? current)%Z then false else true
  | None => true
  end.

Definition increment (self : RateLimiter) (r : redis) (key : pystr) : Z * redis :=
  let '(count, r) := redis_incr r (rate_key key) in
  let r :=
    if (count =? 1)%Z then redis_expire r (rate_key key) (window_seconds self)
    else r in
  (count, r).

Definition get_remaining (self : RateLimiter) (r : redis) (key : pystr) : Z :=
  let current := redis_get r (rate_key key) in
  match current with
  | None => max_requests self
  | Some current => Z.max 0 (max_requests self - current)
  end.

(** The store after [n] calls of [increment]. *)
Fixpoint increments (self : RateLimiter) (key : pystr) (n : nat) (r : redis) : redis :=
  match n with
  | O => r
  | S n => snd (increment self (increments self key n r) key)
  end.

(** *** [QueueService] *)

(** The job that [enqueue_review] stores. *)
Record review_job (D : Type) := {
  job_id : pystr;
  data : D;
  priority : Z;
  created_at : pystr
}.
Arguments job_id {D} _.
Arguments data {D} _.
Arguments priority {D} _.
Arguments created_at {D} _.

Section QueueService.

Variable D : Type.
(** [json.dumps] and [json.loads] on a job. *)
Variable json_dumps : review_job D -> pystr.
Variable json_loads : pystr -> review_job D.

(** The Redis list under [QUEUE_KEY], its head first. *)
Definition queue := list pystr.

(** [enqueue_review]: [LPUSH] puts the job at the head. *)
Definition enqueue_review (q : queue) (job : review_job D) : queue :=
  json_dumps job :: q.

(** [dequeue_review]: [RPOP] takes the job at the tail. *)
Definition dequeue_review (q : queue) : option (review_job D) * queue :=
  match last q with
  | None => (None, q)
  | Some job_data => (Some (json_loads job_data), removelast q)
  end.

(** [queue_length] *)
Definition queue_length (q : queue) : nat := length q.

(** The queue after the jobs are enqueued one after the other. *)
Definition enqueue_all (q : queue) (jobs : list (review_job D)) : queue :=
  fold_left enqueue_review jobs q.

(** The answers of [n] calls of [dequeue_review] and the queue they leave. *)
Fixpoint dequeue_n (n : nat) (q : queue) : list (option (review_job D)) * queue :=
  match n with
  | O => ([], q)
  | S n =>
      let '(job, q) := dequeue_review q in
      let '(jobs, q) := dequeue_n n q in
      (job :: jobs, q)
  end.

End QueueService.

End Queue.

(** ** Paginated listings *)

Module Pagination.

(** [PaginatedResponse] *)
Record PaginatedResponse (T : Type) := {
  items : list T;
  total : Z;
  page : Z;
  per_page : Z;
  pages : Z
}.
Arguments items {T} _.
Arguments total {T} _.
Arguments page {T} _.
Arguments per_page {T} _.
Arguments pages {T} _.

Definition has_next {T : Type} (self : PaginatedResponse T) : bool :=
  (page self <? pages self)%Z.

Definition has_prev {T : Type} (self : PaginatedResponse T) : bool :=
  (1 <? page self)%Z.

(** [PaginationParams.offset] *)
Definition offset (page per_page : Z) : Z := ((page - 1) * per_page)%Z.

(** [.range(from, to)] on the ordered table: the rows at the positions
    [from] to [to], both included. *)
Definition range {T : Type} (table : list T) (from to : Z) : list T :=
  take (Z.to_nat (to - from + 1)) (drop (Z.to_nat from) table).

(** [get_all_paginated]: the rows of the page and the count of the table. *)
Definition get_all_paginated {T : Type} (table : list T) (offset limit : Z)
    : list T * Z :=
  (range table offset (offset + limit - 1), Z.of_nat (length table)).

(** [list_reviews], after the bounds of its query parameters are checked. *)
Definition list_reviews {T : Type} (table : list T) (page per_page : Z)
    : PaginatedResponse T :=
  let offset := ((page - 1) * per_page)%Z in
  let '(reviews, total) := get_all_paginated table offset per_page in
  let pages :=
    if (0 <? total)%Z then ((total + per_page - 1) / per_page)%Z else 0%Z in
  {| items := reviews; total := total; page := page; per_page := per_page;
     pages := pages |}.

End Pagination.

(** ** [ConnectionManager]: the progress subscribers of a review *)

Module Websocket.

(** A WebSocket object, by its identity. *)
Abbreviation websocket := nat.

(** [active_connections] *)
Abbreviation connections := (gmap pystr (list websocket)).

(** [list.remove]: the first occurrence goes. *)
Fixpoint list_remove (ws : websocket) (l : list websocket) : list websocket :=
  match l with
  | [] => []
  | x :: l' => if decide (x = ws) then l' else x :: list_remove ws l'
  end.

(** [connect], once the socket is accepted. *)
Definition connect (active_connections : connections) (review_id : pystr)
    (ws : websocket) : connections :=
  let active_connections :=
    match active_connections !! review_id with
    | None => <[review_id := []]> active_connections
    | Some _ => active_connections
    end in
  <[review_id := default [] (active_connections !! review_id) ++ [ws]]>
    active_connections.

(** [disconnect] *)
Definition disconnect (active_connections : connections) (review_id : pystr)
    (ws : websocket) : connections :=
  match active_connections !! review_id with
  | Some l =>
      let l := if decide (ws ∈ l) then list_remove ws l else l in
      match l with
      | [] => delete review_id active_connections
      | _ :: _ => <[review_id := l]> active_connections
      end
  | None => active_connections
  end.

(** [broadcast]: [send_json ws] tells whether sending to [ws] succeeds; the
    sockets whose send raised are disconnected after the loop. *)
Definition broadcast (active_connections : connections) (review_id : pystr)
    (send_json : websocket -> bool) : connections :=
  match active_connections !! review_id with
  | None => active_connections
  | Some l =>
      let disconnected := List.filter (fun ws => negb (send_json ws)) l in
      fold_left (fun conns ws => disconnect conns review_id ws)
        disconnected active_connections
  end.

(** The calls made on the manager. *)
Inductive call :=
  | Connect (review_id : pystr) (ws : websocket)
  | Disconnect (review_id : pystr) (ws : websocket)
  | Broadcast (review_id : pystr) (send_json : websocket -> bool).

Definition apply_call (active_connections : connections) (c : call) : connections :=
  match c with
  | Connect review_id ws => connect active_connections review_id ws
  | Disconnect review_id ws => disconnect active_connections review_id ws
  | Broadcast review_id send_json => broadcast active_connections review_id send_json
  end.

(** The manager after a sequence of calls, from the empty store. *)
Definition after_calls (calls : list call) : connections :=
  fold_left apply_call calls ∅.

(** The store holds no empty list. *)
Definition no_empty_list (active_connections : connections) : Prop :=
  forall review_id l, active_connections !! review_id = Some l -> l <> [].

(** The store in which the list of [review_id] is [l], the key being
    dropped when the list is empty. *)
Definition with_list (active_connections : connections) (review_id : pystr)
    (l : list websocket) : connections :=
  match l with
  | [] => delete review_id active_connections
  | _ :: _ => <[review_id := l]> active_connections
  end.

End Websocket.

(** ** [detect_language]: the language of a change *)

Module Prompts.

Definition _EXTENSION_MAP : gmap pystr pystr :=
  list_to_map
    [ (py ".py", py "python"); (py ".pyi", py "python");
      (py ".js", py "javascript"); (py ".jsx", py "javascript");
      (py ".ts", py "typescript"); (py ".tsx", py "typescript");
      (py ".mjs", py "javascript"); (py ".cjs", py "javascript");
      (py ".go", py "go"); (py ".rs", py "rust"); (py ".java", py "java");
      (py ".kt", py "kotlin"); (py ".rb", py "ruby"); (py ".php", py "php");
      (py ".cs", py "csharp"); (py ".cpp", py "cpp"); (py ".c", py "c");
      (py ".h", py "c"); (py ".hpp", py "cpp"); (py ".swift", py "swift") ].

(** [f[f.rfind("."):]]: the text from the last dot on, when there is a dot. *)
Fixpoint extension (f : pystr) : option pystr :=
  match f with
  | [] => None
  | c :: f' =>
      match extension f' with
      | Some ext => Some ext
      | None => if c =? 46 then Some (c :: f') else None
      end
  end.

(** A [Counter] of texts: the keys in insertion order. [counts[key] += 1]
    adds to the count of a key in place and puts a new key last. *)
Fixpoint counter_add (counts : list (pystr * nat)) (key : pystr)
    : list (pystr * nat) :=
  match counts with
  | [] => [(key, 1%nat)]
  | (k, n) :: counts' =>
      if decide (k = key) then (k, S n) :: counts'
      else (k, n) :: counter_add counts' key
  end.

(** [counts.most_common(1)]: the first entry, in insertion order, whose
    count no other entry exceeds. *)
Definition most_common_1 (counts : list (pystr * nat)) : option (pystr * nat) :=
  fold_left
    (fun best kv =>
       match best with
       | None => Some kv
       | Some b => if (snd b <? snd kv)%nat then Some kv else Some b
       end)
    counts None.

Section Detect.

(** [str.lower] *)
Variable lower : pystr -> pystr.

(** The language a file counts for, if any. *)
Definition file_language (f : pystr) : option pystr :=
  match extension f with
  | None => None
  | Some ext =>
      match _EXTENSION_MAP !! lower ext with
      | Some (c :: lang) => Some (c :: lang)
      | _ => None
      end
  end.

Definition detect_language (files : list pystr) : pystr :=
  let lang_counts :=
    fold_left
      (fun lang_counts f =>
         match file_language f with
         | Some lang => counter_add lang_counts lang
         | None => lang_counts
         end)
      files [] in
  match most_common_1 lang_counts with
  | None => py "generic"
  | Some (lang, _) => lang
  end.

End Detect.

(** The number of files that count for a language. *)
Definition votes (lang : pystr) (langs : list pystr) : nat :=
  length (List.filter (fun l => bool_decide (l = lang)) langs).

(** The languages of a list, each once, in the order of first appearance. *)
Fixpoint first_seen (langs : list pystr) : list pystr :=
  match langs with
  | [] => []
  | l :: langs' =>
      l :: List.filter (fun l' => negb (bool_decide (l' = l))) (first_seen langs')
  end.

(** [str.lower] on the letters A to Z, for the examples. *)
Definition ascii_lower (s : pystr) : pystr :=
  List.map (fun c => if (65 <=? c) && (c <=? 90) then c + 32 else c) s.

End Prompts.

(** ** The agents of a review: step 5 of [process_review] and the supervisor *)

Module Supervisor.

Import Processor Prompts.

(** The prompt templates of [prompts.py], by name; each is a non-empty
    text. *)
Inductive prompt :=
  | PYTHON_LOGIC_PROMPT | PYTHON_SECURITY_PROMPT | PYTHON_QUALITY_PROMPT
  | JS_LOGIC_PROMPT | JS_SECURITY_PROMPT | JS_QUALITY_PROMPT
  | GENERIC_LOGIC_PROMPT | GENERIC_SECURITY_PROMPT | GENERIC_QUALITY_PROMPT.

Definition LOGIC_AGENT_PROMPT : prompt := PYTHON_LOGIC_PROMPT.
Definition SECURITY_AGENT_PROMPT : prompt := PYTHON_SECURITY_PROMPT.
Definition QUALITY_AGENT_PROMPT : prompt := PYTHON_QUALITY_PROMPT.

Definition _LANGUAGE_PROMPTS : gmap pystr (prompt * prompt * prompt) :=
  list_to_map
    [ (py "python", (PYTHON_LOGIC_PROMPT, PYTHON_SECURITY_PROMPT, PYTHON_QUALITY_PROMPT));
      (py "javascript", (JS_LOGIC_PROMPT, JS_SECURITY_PROMPT, JS_QUALITY_PROMPT));
      (py "typescript", (JS_LOGIC_PROMPT, JS_SECURITY_PROMPT, JS_QUALITY_PROMPT)) ].

Definition _GENERIC_PROMPTS : prompt * prompt * prompt :=
  (GENERIC_LOGIC_PROMPT, GENERIC_SECURITY_PROMPT, GENERIC_QUALITY_PROMPT).

(** [get_prompts_for_language] *)
Definition get_prompts_for_language (language : pystr) : prompt * prompt * prompt :=
  default _GENERIC_PROMPTS (_LANGUAGE_PROMPTS !! language).

(** [BaseAgent]: the kind of the agent and its prompt template. *)
Record Agent := { agent_type : AgentType; prompt_template : prompt }.

(** [LogicAgent(prompt_template=...)]: [prompt_template or LOGIC_AGENT_PROMPT] *)
Definition LogicAgent (template : option prompt) : Agent :=
  {| agent_type := LOGIC; prompt_template := default LOGIC_AGENT_PROMPT template |}.
Definition SecurityAgent (template : option prompt) : Agent :=
  {| agent_type := SECURITY; prompt_template := default SECURITY_AGENT_PROMPT template |}.
Definition QualityAgent (template : option prompt) : Agent :=
  {| agent_type := QUALITY; prompt_template := default QUALITY_AGENT_PROMPT template |}.

(** [ReviewSupervisor.__init__]: the three agents the graph is built with. *)
Definition ReviewSupervisor (logic_agent security_agent quality_agent : option Agent)
    : option Agent * option Agent * option Agent :=
  let self_logic_agent :=
    match logic_agent with Some a => a | None => LogicAgent None end in
  let self_security_agent :=
    match security_agent with Some a => a | None => SecurityAgent None end in
  let self_quality_agent :=
    match quality_agent with Some a => a | None => QualityAgent None end in
  (Some self_logic_agent, Some self_security_agent, Some self_quality_agent).

(** A node of the graph ([run_logic], [run_security], [run_quality]): an
    agent that is [None] is skipped with no finding. *)
Definition run_node (agent : option Agent) (analyze : Agent -> list AgentFinding)
    : list AgentFinding :=
  match agent with
  | None => []
  | Some a => analyze a
  end.

Section Build.

Variable lower : pystr -> pystr.

(** Step 5 of [process_review]: the supervisor built for a review. *)
Definition build_supervisor (repo_settings : option Settings) (files : list pystr)
    : option Agent * option Agent * option Agent :=
  let agents_config := repo_settings in
  let detected_lang := detect_language lower files in
  let '(logic_prompt, security_prompt, quality_prompt) :=
    get_prompts_for_language detected_lang in
  let enabled (flag : Settings -> bool) :=
    match agents_config with None => true | Some c => flag c end in
  let logic :=
    if enabled agents_logic then Some (LogicAgent (Some logic_prompt)) else None in
  let security :=
    if enabled agents_security then Some (SecurityAgent (Some security_prompt))
    else None in
  let quality :=
    if enabled agents_quality then Some (QualityAgent (Some quality_prompt))
    else None in
  ReviewSupervisor logic security quality.

End Build.

End Supervisor.

(** ** The webhook endpoint *)

Module Webhooks.

(** [WebhookPayload], with the fields the handler reads: [action],
    [number], [pull_request.title], [pull_request.head.sha],
    [repository.id], [repository.full_name]. *)
Record WebhookPayload := {
  action : pystr;
  number : Z;
  pull_request_title : pystr;
  pull_request_head_sha : pystr;
  repository_id : Z;
  repository_full_name : pystr
}.

(** [ReviewCreate] *)
Record ReviewCreate := {
  rc_repository_id : nat;
  rc_pr_number : Z;
  rc_pr_title : pystr;
  rc_commit_sha : pystr
}.

(** [job_data] *)
Record job := {
  job_review_id : nat;
  job_owner : pystr;
  job_repo : pystr;
  job_pr_number : Z;
  job_commit_sha : pystr
}.

(** The tables the handler writes and the tasks it schedules.  A row is
    known by its position: the id of a repository or of a review is its
    index in the table. *)
Record store := {
  repositories : list (Z * pystr);
  reviews : list ReviewCreate;
  tasks : list job
}.

Inductive response :=
  | Ignored (reason : pystr)
  | Processing (review_id : nat).

Inductive error :=
  | HTTP401          (* HTTPException(status_code=401) *)
  | TypeError        (* compare_digest on a text that is not ASCII *)
  | ValidationError  (* model_validate_json *)
  | IndexError.      (* full_name.split("/")[1] *)

Definition is_ascii (s : pystr) : bool := forallb (fun c => c <? 128) s.

(** [hmac.compare_digest] on two texts: they must be ASCII. *)
Definition compare_digest (a b : pystr) : error + bool :=
  if is_ascii a && is_ascii b then inr (bool_decide (a = b)) else inl TypeError.

(** [s.split("/")] *)
Fixpoint split_slash (cur s : pystr) : list pystr :=
  match s with
  | [] => [cur]
  | c :: s' => if c =? SLASH then cur :: split_slash [] s' else split_slash (cur ++ [c]) s'
  end.

(** [repo_repo.get_by_github_id]: the first row with that id. *)
Fixpoint get_by_github_id (rows : list (Z * pystr)) (github_id : Z) (index : nat)
    : option nat :=
  match rows with
  | [] => None
  | (id, _) :: rows' =>
      if (id =? github_id)%Z then Some index
      else get_by_github_id rows' github_id (S index)
  end.

Section Handler.

(** [hmac.new(secret.encode("utf-8"), payload, hashlib.sha256).hexdigest()] *)
Variable hmac_sha256_hexdigest : pystr -> list N -> pystr.
(** [settings.github_webhook_secret] *)
Variable github_webhook_secret : pystr.
(** [WebhookPayload.model_validate_json]: [None] when it raises. *)
Variable model_validate_json : list N -> option WebhookPayload.

Definition verify_signature (payload : list N) (signature secret : pystr)
    : error + bool :=
  if negb (startswith (py "sha256=") signature) then inr false
  else
    let expected_signature := py "sha256=" ++ hmac_sha256_hexdigest secret payload in
    compare_digest signature expected_signature.

(** The signature block of the handler: the check is made when a secret
    is configured and a signature is given, both non-empty. *)
Definition check_signature (body : list N) (x_hub_signature_256 : option pystr)
    : error + unit :=
  match github_webhook_secret, x_hub_signature_256 with
  | _ :: _, Some (c :: signature) =>
      match verify_signature body (c :: signature) github_webhook_secret with
      | inl e => inl e
      | inr true => inr tt
      | inr false => inl HTTP401
      end
  | _, _ => inr tt
  end.

(** The handler from the parsing of the payload on, with the database
    answering every call. *)
Definition accept_payload (st : store) (body : list N) : (error + response) * store :=
  match model_validate_json body with
  | None => (inl ValidationError, st)
  | Some payload =>
      if negb (bool_decide (action payload = py "opened")
               || bool_decide (action payload = py "synchronize"))
      then (inr (Ignored (py "action: " ++ action payload)), st)
      else
        let '(repo_id, repos) :=
          match get_by_github_id (repositories st) (repository_id payload) 0 with
          | Some id => (id, repositories st)
          | None =>
              (length (repositories st),
               repositories st
               ++ [(repository_id payload, repository_full_name payload)])
          end in
        let review_id := length (reviews st) in
        let reviews :=
          reviews st
          ++ [{| rc_repository_id := repo_id;
                 rc_pr_number := number payload;
                 rc_pr_title := pull_request_title payload;
                 rc_commit_sha := pull_request_head_sha payload |}] in
        match split_slash [] (repository_full_name payload) with
        | owner :: repo :: _ =>
            (inr (Processing review_id),
             {| repositories := repos; reviews := reviews;
                tasks := tasks st
                         ++ [{| job_review_id := review_id;
                                job_owner := owner; job_repo := repo;
                                job_pr_number := number payload;
                                job_commit_sha := pull_request_head_sha payload |}] |})
        | _ =>
            (inl IndexError,
             {| repositories := repos; reviews := reviews; tasks := tasks st |})
        end
  end.

(** [handle_github_webhook] *)
Definition handle_github_webhook (st : store) (body : list N)
    (x_github_event : pystr) (x_hub_signature_256 : option pystr)
    : (error + response) * store :=
  if negb (bool_decide (x_github_event = py "pull_request")) then
    (inr (Ignored (py "event type: " ++ x_github_event)), st)
  else
    match check_signature body x_hub_signature_256 with
    | inl e => (inl e, st)
    | inr _ => accept_payload st body
    end.

End Handler.

(** A pull request event for the examples. *)
Definition sample_payload : WebhookPayload :=
  {| action := py "opened"; number := 7; pull_request_title := py "Add parser";
     pull_request_head_sha := py "abc123"; repository_id := 42;
     repository_full_name := py "octo/parser" |}.

Definition empty_store : store :=
  {| repositories := []; reviews := []; tasks := [] |}.

End Webhooks.

(** * Properties *)

(** ** Strings *)

Section StringFacts.

Lemma strip_prefix_Some (p s r : pystr) :
  strip_prefix p s = Some r <-> s = p ++ r.
Proof.
  revert s; induction p as [|a p IH]; intros s; simpl.
  - split; congruence.
  - destruct s as [|b s]; [split; discriminate|].
    destruct (N.eqb_spec a b) as [->|Hne].
    + rewrite IH. split; congruence.
    + split; [discriminate | intros [= ? ?]; congruence].
Qed.

Lemma startswith_true (p s : pystr) :
  startswith p s = true <-> exists r, s = p ++ r.
Proof.
  revert s; induction p as [|a p IH]; intros s; simpl.
  - split; eauto.
  - destruct s as [|b s]; [split; [discriminate | intros [r [=]]]|].
    rewrite andb_true_iff, N.eqb_eq, IH. split.
    + intros [-> [r ->]]. eauto.
    + intros [r [= -> ->]]. eauto.
Qed.

Lemma startswith_app_l (p s t : pystr) :
  startswith p s = true -> startswith p (s ++ t) = true.
Proof.
  rewrite !startswith_true. intros [r ->]. exists (r ++ t). by rewrite app_assoc.
Qed.

Lemma is_blank_app (s t : pystr) :
  is_blank (s ++ t) = is_blank s && is_blank t.
Proof. apply forallb_app. Qed.

Lemma filter_none {A : Type} (f : A -> bool) (l : list A) :
  (forall x, In x l -> f x = false) -> List.filter f l = [].
Proof.
  induction l as [|a l IH]; intros Hf; [done|]. cbn [List.filter].
  rewrite Hf by (by left). apply IH. intros x Hx. apply Hf. by right.
Qed.

End StringFacts.

(** ** The diff segmenter *)

Section Segmenter.

Import Codeguardignore Processor.

Lemma lazy_path_inv (s p : pystr) :
  lazy_path s = Some p ->
  exists t, s = p ++ SPACE_B ++ t /\ Forall (fun c => c <> NL) p.
Proof.
  revert p; induction s as [|c s IH]; intros p; [discriminate|].
  cbn [lazy_path].
  destruct (startswith SPACE_B (c :: s)) eqn:Hs.
  - intros [= <-]. apply startswith_true in Hs as [t Ht]. exists t. by split.
  - destruct (N.eqb_spec c NL) as [|Hc]; [discriminate|].
    destruct (lazy_path s) as [q|] eqn:Hq; [|discriminate].
    intros [= <-]. destruct (IH q eq_refl) as (t & -> & Hall).
    exists t. split; [done|]. by constructor.
Qed.

Lemma header_path_inv (s p : pystr) :
  header_path s = Some p ->
  exists t, s = DIFF_GIT_A ++ p ++ SPACE_B ++ t
            /\ Forall (fun c => c <> NL) p /\ p <> [].
Proof.
  unfold header_path.
  destruct (strip_prefix DIFF_GIT_A s) as [[|c r]|] eqn:Hpre; try discriminate.
  apply strip_prefix_Some in Hpre.
  destruct (N.eqb_spec c NL) as [|Hc]; [discriminate|].
  destruct (lazy_path r) as [q|] eqn:Hq; [|discriminate].
  intros [= <-]. apply lazy_path_inv in Hq as (t & -> & Hall).
  exists t. repeat split; [done | by constructor | done].
Qed.

Lemma header_path_starts (s p : pystr) :
  header_path s = Some p -> startswith DIFF_GIT s = true.
Proof.
  intros (t & -> & _)%header_path_inv. apply startswith_true.
  by exists ([97; 47] ++ p ++ SPACE_B ++ t).
Qed.

Lemma header_path_blank (s : pystr) :
  is_blank s = true -> header_path s = None.
Proof.
  intros Hb. destruct (header_path s) as [p|] eqn:Hp; [|done].
  apply header_path_starts, startswith_true in Hp as [r ->]. discriminate.
Qed.

Lemma startswith_nl (p x y : pystr) :
  Forall (fun c => c <> NL) p ->
  startswith p (x ++ NL :: y) = startswith p (x ++ [NL]).
Proof.
  intros Hp; revert x; induction Hp as [|a p Ha Hp IH]; intros x; [done|].
  destruct x as [|b x]; simpl.
  - destruct (N.eqb_spec a NL); [done|]. done.
  - by rewrite IH.
Qed.

Lemma lazy_path_nl (x y : pystr) :
  lazy_path (x ++ NL :: y) = lazy_path (x ++ [NL]).
Proof.
  induction x as [|c x IH]; [done|].
  change ((c :: x) ++ NL :: y) with (c :: (x ++ NL :: y)).
  change ((c :: x) ++ [NL]) with (c :: (x ++ [NL])).
  cbn [lazy_path]. rewrite IH.
  change (c :: (x ++ NL :: y)) with ((c :: x) ++ NL :: y).
  change (c :: (x ++ [NL])) with ((c :: x) ++ [NL]).
  rewrite (startswith_nl SPACE_B); [done|].
  by repeat constructor.
Qed.

Lemma strip_prefix_nl (p x y : pystr) :
  Forall (fun c => c <> NL) p ->
  strip_prefix p (x ++ NL :: y)
  = match strip_prefix p x with
    | Some r => Some (r ++ NL :: y)
    | None => None
    end.
Proof.
  intros Hp; revert x; induction Hp as [|a p Ha Hp IH]; intros x; [done|].
  destruct x as [|b x]; simpl.
  - by destruct (N.eqb_spec a NL).
  - destruct (a =? b); [apply IH | done].
Qed.

(** The header pattern never looks past the end of the line. *)
Lemma header_path_nl (x y : pystr) :
  header_path (x ++ NL :: y) = header_path (x ++ [NL]).
Proof.
  unfold header_path.
  assert (Hp : Forall (fun c => c <> NL) DIFF_GIT_A) by (by repeat constructor).
  rewrite !(strip_prefix_nl _ _ _ Hp).
  destruct (strip_prefix DIFF_GIT_A x) as [[|c r]|]; try done.
  change ((c :: r) ++ NL :: y) with (c :: (r ++ NL :: y)).
  change ((c :: r) ++ [NL]) with (c :: (r ++ [NL])).
  cbv beta iota. by rewrite lazy_path_nl.
Qed.

(** *** [re_split] *)

Lemma re_split_concat (bol : bool) (s pre : pystr) (secs : list pystr) :
  re_split bol s = (pre, secs) -> pre ++ concat secs = s.
Proof.
  revert bol pre secs; induction s as [|c s IH]; intros bol pre secs.
  - by intros [= <- <-].
  - cbn [re_split]. destruct (re_split (c =? NL) s) as [cur rest] eqn:Hs.
    specialize (IH _ _ _ Hs).
    destruct (bol && startswith DIFF_GIT (c :: s)); intros [= <- <-]; simpl;
      by rewrite <- IH.
Qed.

Lemma re_split_shape (bol : bool) (s cur sec : pystr) (rest : list pystr) :
  re_split bol s = (cur, sec :: rest) ->
  (cur = [] /\ bol = true) \/ (exists x, cur = x ++ [NL]).
Proof.
  revert bol cur sec rest; induction s as [|c s IH]; intros bol cur sec rest.
  - discriminate.
  - cbn [re_split]. destruct (re_split (c =? NL) s) as [cur' rest'] eqn:Hs.
    destruct bol; cbn [andb].
    + destruct (startswith DIFF_GIT (c :: s)); intros Heq; simplify_eq;
        [left; by split|].
      right. destruct (IH _ _ _ _ Hs) as [[-> Hc]|[x ->]].
      * apply N.eqb_eq in Hc as ->. by exists [].
      * by exists (c :: x).
    + intros Heq; simplify_eq. right.
      destruct (IH _ _ _ _ Hs) as [[-> Hc]|[x ->]].
      * apply N.eqb_eq in Hc as ->. by exists [].
      * by exists (c :: x).
Qed.

Lemma re_split_no_header (bol : bool) (s : pystr) :
  has_header_line bol s = false -> re_split bol s = (s, []).
Proof.
  revert bol; induction s as [|c s IH]; intros bol; [done|].
  cbn [has_header_line re_split]. intros [H1 H2]%orb_false_iff.
  by rewrite (IH _ H2), H1.
Qed.

Lemma re_split_pre_header (s pre : pystr) (secs : list pystr) :
  re_split true s = (pre, secs) -> header_path pre = None.
Proof.
  destruct s as [|c s]; [by intros [= <- <-]|].
  cbn [re_split]. destruct (re_split (c =? NL) s) as [cur rest] eqn:Hs.
  apply re_split_concat in Hs. cbn [andb].
  destruct (startswith DIFF_GIT (c :: s)) eqn:Hd; intros [= <- <-]; [done|].
  destruct (header_path (c :: cur)) as [p|] eqn:Hp; [|done].
  apply header_path_starts in Hp.
  apply (startswith_app_l _ _ (concat rest)) in Hp.
  change ((c :: cur) ++ concat rest) with (c :: (cur ++ concat rest)) in Hp.
  rewrite Hs in Hp. congruence.
Qed.

(** The paths found by scanning are the paths of the section headers. *)
Lemma scan_paths_sections (bol : bool) (s pre : pystr) (secs : list pystr) :
  re_split bol s = (pre, secs) -> scan_paths bol s = omap header_path secs.
Proof.
  revert bol pre secs; induction s as [|c s IH]; intros bol pre secs.
  - by intros [= <- <-].
  - cbn [re_split scan_paths].
    destruct (re_split (c =? NL) s) as [cur rest] eqn:Hs.
    pose proof (IH _ _ _ Hs) as IHs.
    destruct bol; cbn [andb].
    + destruct (startswith DIFF_GIT (c :: s)) eqn:Hd; intros [= <- <-].
      * assert (Hsec : header_path (c :: s) = header_path (c :: cur)).
        { pose proof (re_split_concat _ _ _ _ Hs) as Hcat.
          destruct rest as [|sec rest].
          - simpl in Hcat. rewrite app_nil_r in Hcat. by subst.
          - destruct (re_split_shape _ _ _ _ _ Hs) as [[-> Hc]|[x ->]].
            + apply N.eqb_eq in Hc as ->. rewrite <- Hcat.
              apply (header_path_nl []).
            + rewrite <- Hcat, <- app_assoc.
              apply (header_path_nl (c :: x)). }
        cbn [omap list_omap]. rewrite <- Hsec, <- IHs.
        by destruct (header_path (c :: s)).
      * destruct (header_path (c :: s)) as [p|] eqn:Hp; [|done].
        apply header_path_starts in Hp. congruence.
    + by intros [= <- <-].
Qed.

(** *** [finditer_paths] *)

Lemma finditer_paths_skip (u t : pystr) :
  Forall (fun c => c <> NL) u ->
  finditer_paths false (length u) (u ++ t) = finditer_paths false 0 t.
Proof.
  induction 1 as [|c u Hc Hu IH]; [done|].
  cbn [length app finditer_paths].
  destruct (N.eqb_spec c NL); [done|]. apply IH.
Qed.

Lemma scan_paths_skip (u t : pystr) :
  Forall (fun c => c <> NL) u ->
  scan_paths false (u ++ t) = scan_paths false t.
Proof.
  induction 1 as [|c u Hc Hu IH]; [done|].
  cbn [app scan_paths].
  destruct (N.eqb_spec c NL); [done|]. apply IH.
Qed.

Lemma header_path_tail (c : N) (s path : pystr) :
  header_path (c :: s) = Some path ->
  c <> NL /\
  exists u t, s = u ++ t /\ Forall (fun c => c <> NL) u
    /\ length u = (length DIFF_GIT_A + length path + length SPACE_B - 1)%nat.
Proof.
  intros (t & Hs & Hnl & _)%header_path_inv.
  injection Hs as -> ->. split; [done|].
  exists ([105; 102; 102; 32; 45; 45; 103; 105; 116; 32; 97; 47] ++ path ++ SPACE_B), t.
  split; [by rewrite <- !app_assoc|]. split.
  - rewrite !Forall_app. split; [by repeat constructor|].
    split; [done | by repeat constructor].
  - rewrite !length_app. simpl. lia.
Qed.

Lemma finditer_paths_scan_le (n : nat) (s : pystr) (bol : bool) :
  (length s <= n)%nat -> finditer_paths bol 0 s = scan_paths bol s.
Proof.
  revert s bol; induction n as [|n IH]; intros s bol Hlen.
  - destruct s; [done | simpl in Hlen; lia].
  - destruct s as [|c s]; [done|].
    cbn [finditer_paths scan_paths].
    destruct (if bol then header_path (c :: s) else None) as [path|] eqn:Hm.
    + assert (Hp : header_path (c :: s) = Some path)
        by (destruct bol; [done | discriminate]).
      apply header_path_tail in Hp as (Hc & u & t & -> & Hu & <-).
      destruct (N.eqb_spec c NL); [done|].
      rewrite finditer_paths_skip, scan_paths_skip by done.
      f_equal. apply IH.
      simpl in Hlen. rewrite length_app in Hlen. lia.
    + apply IH. simpl in Hlen. lia.
Qed.

Lemma finditer_paths_scan (s : pystr) (bol : bool) :
  finditer_paths bol 0 s = scan_paths bol s.
Proof. by apply (finditer_paths_scan_le (length s)). Qed.

(** The changed files are the paths of the section headers. *)
Lemma extract_files_sections (diff : pystr) :
  extract_files_from_diff diff = omap header_path (file_sections diff).
Proof.
  unfold extract_files_from_diff, file_sections.
  rewrite finditer_paths_scan.
  destruct (re_split true diff) as [pre secs] eqn:Hs.
  rewrite (scan_paths_sections _ _ _ _ Hs).
  cbn [omap list_omap]. by rewrite (re_split_pre_header _ _ _ Hs).
Qed.

(** *** [filter_sections] *)

Section Filter.

Variable fnmatch : pystr -> pystr -> bool.

Lemma filter_sections_spec (pats secs ks kf ig : list pystr) :
  filter_sections fnmatch pats secs ks kf ig
  = (ks ++ List.filter (keep_section fnmatch pats) secs,
     kf ++ List.filter (fun p => negb (should_ignore_file fnmatch p pats))
             (omap header_path secs),
     ig ++ List.filter (fun p => should_ignore_file fnmatch p pats)
             (omap header_path secs)).
Proof.
  revert ks kf ig; induction secs as [|sec secs IH]; intros ks kf ig.
  - cbn. by rewrite !app_nil_r.
  - cbn [filter_sections List.filter omap list_omap]. unfold keep_section at 1.
    destruct (is_blank sec) eqn:Hb.
    + rewrite (header_path_blank _ Hb). cbn. apply IH.
    + destruct (header_path sec) as [p|]; cbn.
      * destruct (should_ignore_file fnmatch p pats); cbn;
          rewrite IH, <- ?app_assoc; done.
      * rewrite IH, <- ?app_assoc. done.
Qed.

Lemma filter_diff_spec (diff : pystr) (patterns : list pystr) :
  let pats := DEFAULT_IGNORE_PATTERNS ++ patterns in
  filter_diff fnmatch diff patterns
  = (concat (List.filter (keep_section fnmatch pats) (file_sections diff)),
     List.filter (fun p => negb (should_ignore_file fnmatch p pats))
       (extract_files_from_diff diff),
     List.filter (fun p => should_ignore_file fnmatch p pats)
       (extract_files_from_diff diff)).
Proof.
  intros pats. unfold filter_diff. fold pats.
  rewrite filter_sections_spec, extract_files_sections. done.
Qed.

End Filter.

Lemma re_split_secs_nonblank (bol : bool) (s pre : pystr) (secs : list pystr) :
  re_split bol s = (pre, secs) -> Forall (fun sec => is_blank sec = false) secs.
Proof.
  revert bol pre secs; induction s as [|c s IH]; intros bol pre secs.
  - intros [= <- <-]. constructor.
  - cbn [re_split]. destruct (re_split (c =? NL) s) as [cur rest] eqn:Hs.
    specialize (IH _ _ _ Hs).
    destruct (bol && startswith DIFF_GIT (c :: s)) eqn:Hcut; intros [= <- <-];
      [|done].
    constructor; [|done].
    apply andb_true_iff in Hcut as [_ Hd].
    apply startswith_true in Hd as [r Hr]. injection Hr as -> _. done.
Qed.

Section Claims.

Variable fnmatch : pystr -> pystr -> bool.

(** C10 (amended).  For every diff and every pattern list, the paths parsed
    from the well-formed headers of the diff are split between [kept_files]
    and [ignored_files]: the kept ones are the parsed paths that no rule
    ignores, the ignored ones those that some rule ignores, each list in
    header order; every parsed path is in exactly one of the two lists, and
    the lists hold nothing else.  The filtered diff is the concatenation of
    the sections that are not whitespace-only and that either have no
    well-formed header or have a kept path: a whitespace-only preamble is
    dropped. *)
Theorem filter_diff_partition (diff : pystr) (patterns : list pystr) :
  let pats := DEFAULT_IGNORE_PATTERNS ++ patterns in
  let paths := extract_files_from_diff diff in
  let ignores p := should_ignore_file fnmatch p pats in
  let '(filtered, kept_files, ignored_files) := filter_diff fnmatch diff patterns in
  kept_files = List.filter (fun p => negb (ignores p)) paths /\
  ignored_files = List.filter ignores paths /\
  (forall p, In p paths ->
     (In p kept_files /\ ~ In p ignored_files)
     \/ (In p ignored_files /\ ~ In p kept_files)) /\
  (forall p, In p kept_files \/ In p ignored_files -> In p paths) /\
  filtered = concat (List.filter (keep_section fnmatch pats) (file_sections diff)).
Proof.
  intros pats paths ignores. rewrite filter_diff_spec. fold pats paths.
  split; [done|]. split; [done|]. split; [|split; [|done]].
  - intros p Hp.
    destruct (should_ignore_file fnmatch p pats) eqn:Hi.
    + right. split.
      * apply List.filter_In. by split.
      * intros [_ Hn]%List.filter_In. by rewrite Hi in Hn.
    + left. split.
      * apply List.filter_In. split; [done|]. by rewrite Hi.
      * intros [_ Hn]%List.filter_In. congruence.
  - intros p [Hp|Hp]; apply List.filter_In in Hp; tauto.
Qed.

(** C5 (amended).  For every diff with no line that starts with
    [diff --git ], [extract_files_from_diff] returns the empty list and
    [filter_diff], for every rule list, returns empty kept and ignored
    lists; the filtered diff is the diff unchanged when it holds a
    character that is not whitespace, and the empty string when the diff is
    whitespace-only. *)
Theorem filter_diff_no_header (diff : pystr) (patterns : list pystr) :
  has_header_line true diff = false ->
  extract_files_from_diff diff = []
  /\ filter_diff fnmatch diff patterns
     = (if is_blank diff then [] else diff, [], []).
Proof.
  intros Hno. pose proof (re_split_no_header _ _ Hno) as Hs.
  assert (Hfiles : extract_files_from_diff diff = []).
  { rewrite extract_files_sections. unfold file_sections. rewrite Hs.
    cbn [omap list_omap]. by rewrite (re_split_pre_header _ _ _ Hs). }
  split; [done|].
  rewrite filter_diff_spec, Hfiles. unfold file_sections. rewrite Hs.
  cbn [List.filter]. unfold keep_section.
  rewrite (re_split_pre_header _ _ _ Hs), andb_true_r.
  destruct (is_blank diff); cbn; by rewrite ?app_nil_r.
Qed.

(** C3 (amended).  For every diff in which no parsed path matches a
    built-in default rule, and whose preamble is empty or holds a character
    that is not whitespace, [filter_diff] with an empty user rule set
    returns the diff unchanged, the full list of changed files as
    [kept_files] and an empty [ignored_files]. *)
Theorem filter_diff_empty_rules (diff : pystr) :
  (forall p, In p (extract_files_from_diff diff) ->
     should_ignore_file fnmatch p DEFAULT_IGNORE_PATTERNS = false) ->
  preamble diff = [] \/ is_blank (preamble diff) = false ->
  filter_diff fnmatch diff []
  = (diff, extract_files_from_diff diff, []).
Proof.
  intros Hdef Hpre. rewrite filter_diff_spec, app_nil_r.
  set (paths := extract_files_from_diff diff) in *.
  assert (Hkept :
    List.filter (fun p => negb (should_ignore_file fnmatch p DEFAULT_IGNORE_PATTERNS))
      paths = paths).
  { apply forallb_filter_id, forallb_forall. intros p Hp. by rewrite Hdef. }
  assert (Hign :
    List.filter (fun p => should_ignore_file fnmatch p DEFAULT_IGNORE_PATTERNS)
      paths = []).
  { by apply filter_none. }
  rewrite Hkept, Hign. f_equal. f_equal.
  unfold preamble in Hpre. unfold file_sections.
  destruct (re_split true diff) as [pre secs] eqn:Hs. cbn [fst] in Hpre.
  assert (Hsecs :
    List.filter (keep_section fnmatch DEFAULT_IGNORE_PATTERNS) secs = secs).
  { apply forallb_filter_id, forallb_forall. intros sec Hsec.
    pose proof (re_split_secs_nonblank _ _ _ _ Hs) as Hnb.
    rewrite Forall_forall in Hnb. unfold keep_section.
    rewrite (Hnb sec) by (by apply list_elem_of_In). cbn [negb andb].
    destruct (header_path sec) as [p|] eqn:Hp; [|done].
    rewrite Hdef; [done|]. unfold paths.
    rewrite extract_files_sections. unfold file_sections. rewrite Hs.
    apply list_elem_of_In, list_elem_of_omap. exists sec. split; [|done].
    apply list_elem_of_In. by right. }
  cbn [List.filter]. rewrite Hsecs. unfold keep_section.
  rewrite (re_split_pre_header _ _ _ Hs), andb_true_r.
  pose proof (re_split_concat _ _ _ _ Hs) as Hcat.
  destruct Hpre as [->|Hnb].
  - by destruct (negb (is_blank [])).
  - by rewrite Hnb.
Qed.

End Claims.

End Segmenter.

Section SegmenterExamples.

Import Codeguardignore Processor.

(** C10, the claim as stated fails: with a whitespace-only preamble the
    filtered diff is not the concatenation of all non-file sections and kept
    sections. *)
Lemma filter_diff_drops_blank_preamble :
  let diff := NL :: py "diff --git a/x b/x" ++ [NL] in
  fst (fst (filter_diff Fnmatch.fnmatch diff []))
  <> concat (List.filter
               (keep_section_any Fnmatch.fnmatch (DEFAULT_IGNORE_PATTERNS ++ []))
               (file_sections diff)).
Proof. vm_compute. discriminate. Qed.

(** C5, the claim as stated fails: a whitespace-only diff has no header
    line, and the filtered diff is empty, not the diff. *)
Lemma filter_diff_no_header_blank :
  has_header_line true [NL] = false
  /\ filter_diff Fnmatch.fnmatch [NL] [] <> ([NL], [], []).
Proof. split; [reflexivity | vm_compute; discriminate]. Qed.

Lemma filter_diff_no_header_witness :
  has_header_line true (py "+x = 1") = false
  /\ extract_files_from_diff (py "+x = 1") = []
  /\ filter_diff Fnmatch.fnmatch (py "+x = 1") [py "*.py"]
     = (py "+x = 1", [], []).
Proof.
  split; [reflexivity|].
  apply (filter_diff_no_header Fnmatch.fnmatch (py "+x = 1") [py "*.py"]).
  reflexivity.
Defined.

(** C3, the claim as stated fails: the built-in rules apply with an empty
    user rule set, and a lock file is removed. *)
Lemma filter_diff_empty_rules_lockfile :
  let diff := py "diff --git a/yarn.lock b/yarn.lock" ++ [NL] in
  filter_diff Fnmatch.fnmatch diff [] = ([], [], [py "yarn.lock"])
  /\ filter_diff Fnmatch.fnmatch diff []
     <> (diff, extract_files_from_diff diff, []).
Proof. split; [vm_compute; reflexivity | vm_compute; discriminate]. Qed.

Lemma filter_diff_empty_rules_witness :
  let diff := py "diff --git a/src/a.py b/src/a.py" ++ NL :: py "+x" ++ [NL] in
  filter_diff Fnmatch.fnmatch diff [] = (diff, [py "src/a.py"], []).
Proof.
  intros diff.
  apply (filter_diff_empty_rules Fnmatch.fnmatch diff).
  - intros p Hp. vm_compute in Hp. destruct Hp as [<-|[]]. vm_compute. reflexivity.
  - left. vm_compute. reflexivity.
Defined.

End SegmenterExamples.

(** ** The pipeline driver *)

Section DriverFacts.

Import Codeguardignore Processor.

Lemma collect_bucket_spec (rid : pystr) (tr : Z) (agent : pystr)
    (fs : list AgentFinding) (acc : list FindingCreate) :
  collect_bucket rid tr agent fs acc
  = acc ++ List.filter (fun m => (rank (fc_severity m) <=? tr)%Z)
             (List.map (fun f => _map_finding f rid agent) fs).
Proof.
  unfold collect_bucket. revert acc; induction fs as [|f fs IH]; intros acc.
  - cbn. by rewrite app_nil_r.
  - cbn [fold_left List.map List.filter]. rewrite IH.
    destruct (rank (fc_severity (_map_finding f rid agent)) <=? tr)%Z;
      [by rewrite <- app_assoc | done].
Qed.

Lemma collect_findings_spec (rid : pystr) (t : Severity)
    (l s q : list AgentFinding) :
  collect_findings rid t l s q
  = List.filter (fun m => (rank (fc_severity m) <=? rank t)%Z)
      (mapped_findings rid l s q).
Proof.
  unfold collect_findings, mapped_findings.
  rewrite !collect_bucket_spec, !List.filter_app. cbn [app].
  by rewrite <- app_assoc.
Qed.

Lemma rank_bounds (s : Severity) : (0 <= rank s <= 4)%Z.
Proof. destruct s; vm_compute; split; discriminate. Qed.

Lemma progress_complete (w : world) :
  broadcast_progress (py "complete") w
  = (Returned tt, add_broadcast (py "complete", 100%Z, py "Review complete") w).
Proof. reflexivity. Qed.

Lemma format_nonempty (l s q : list AgentFinding) : Formatter.format l s q <> [].
Proof.
  unfold Formatter.format.
  destruct (Formatter.label_findings l s q); [by vm_compute|].
  unfold Formatter.format_lines. cbn [app Py.join].
  destruct (Formatter.summary_lines _ ++ _); by vm_compute.
Qed.

(** *** Rules for [wp] *)

Lemma wp_run {A : Type} (m : M A) (w : world) (Q : result A -> world -> Prop)
    (r : result A) (w' : world) :
  wp m w Q -> m w = (r, w') -> Q r w'.
Proof. unfold wp. intros HQ Hm. by rewrite Hm in HQ. Qed.

Lemma wp_bind {A B : Type} (m : M A) (k : A -> M B) (w : world)
    (Q : result B -> world -> Prop) :
  wp m w (fun r w1 =>
            match r with
            | Returned a => wp (k a) w1 Q
            | Raised s => Q (Raised s) w1
            end) ->
  wp (bind m k) w Q.
Proof. unfold wp, bind. by destruct (m w) as [[a|s] w1]. Qed.

Lemma wp_ret {A : Type} (a : A) (w : world) (Q : result A -> world -> Prop) :
  Q (Returned a) w -> wp (ret a) w Q.
Proof. done. Qed.

Lemma wp_raise {A : Type} (s : step) (w : world) (Q : result A -> world -> Prop) :
  Q (Raised s) w -> wp (raise s) w Q.
Proof. done. Qed.

Lemma wp_modify (f : world -> world) (w : world) (Q : result unit -> world -> Prop) :
  Q (Returned tt) (f w) -> wp (modify f) w Q.
Proof. done. Qed.

Lemma wp_call {A : Type} (s : step) (a : answer A) (w : world)
    (Q : result A -> world -> Prop) :
  (forall v, a = Ok v -> Q (Returned v) w) ->
  (a = Error -> Q (Raised s) w) ->
  wp (call s a) w Q.
Proof. destruct a; unfold wp; cbn; auto. Qed.

Lemma same_records_refl (w : world) : same_records w w.
Proof. done. Qed.

(** The rate-limit loop returns, or raises at a check or on exhaustion; it
    only sleeps. *)
Lemma wp_rate_limit_loop (env : Env) (n : nat) (range : list nat) (w : world)
    (Q : result unit -> world -> Prop) :
  (forall w1, same_records w w1 -> Q (Returned tt) w1) ->
  (forall w1, same_records w w1 -> Q (Raised RateLimitCheck) w1) ->
  (forall w1, same_records w w1 -> Q (Raised RateLimitExceeded) w1) ->
  wp (rate_limit_loop env n range) w Q.
Proof.
  revert w; induction range as [|a range IH]; intros w Hret Hchk Hexc.
  - by apply wp_raise, Hexc.
  - cbn [rate_limit_loop]. apply wp_bind, wp_call.
    + intros [] _.
      * by apply wp_ret, Hret.
      * apply wp_bind. destruct (a <? n - 1)%nat.
        -- apply wp_modify, IH; intros w1 Hs; [apply Hret | apply Hchk | apply Hexc];
             apply Hs.
        -- apply wp_ret, IH; intros w1 Hs; [apply Hret | apply Hchk | apply Hexc];
             apply Hs.
    + intros _. by apply Hchk.
Qed.

End DriverFacts.

Ltac wp_step :=
  lazymatch goal with
  | |- Processor.wp (Processor.bind _ _) _ _ => apply wp_bind
  | |- Processor.wp (Processor.call _ _) _ _ => apply wp_call; [intros ? ? | intros ?]
  | |- Processor.wp (Processor.ret _) _ _ => apply wp_ret
  | |- Processor.wp (Processor.raise _) _ _ => apply wp_raise
  | |- Processor.wp (Processor.modify _) _ _ => apply wp_modify
  | |- Processor.wp (Processor.broadcast_progress _) _ _ => apply wp_modify
  | |- Processor.wp (Processor.rate_limit_loop _ _ _) _ _ =>
      apply wp_rate_limit_loop; intros ? ?
  | |- Processor.wp (if ?b then _ else _) _ _ => destruct b eqn:?
  | |- Processor.wp (match ?x with _ => _ end) _ _ => destruct x eqn:?
  end; cbv beta iota.

Ltac world_simpl :=
  cbn [Processor.w_status Processor.w_comment_id Processor.w_diff_content
       Processor.w_findings Processor.w_comments Processor.w_broadcasts
       Processor.w_sleeps Processor.w_rate_increments
       Processor.set_status Processor.set_diff Processor.add_findings
       Processor.add_comment Processor.add_broadcast Processor.add_sleep
       Processor.add_increment] in *.

Section DriverOutcome.

Import Codeguardignore Processor.

Variable fnmatch : pystr -> pystr -> bool.
Variable env : Env.
Variable rid : pystr.

Lemma run_pipeline_outcome (st : option Settings) (w : world) :
  wp (run_pipeline fnmatch env rid st) w (pipeline_outcome env rid st w).
Proof.
  unfold run_pipeline, supervisor_run.
  repeat wp_step;
    try (exfalso; eapply format_nonempty; eassumption);
    unfold pipeline_outcome, same_records in *; world_simpl;
    repeat match goal with H : _ /\ _ |- _ => destruct H end;
    try (do 6 eexists; split; [eassumption|]);
    repeat match goal with
           | H : collect_findings _ _ _ _ _ = _ |- _ => rewrite H
           | H : Formatter.format _ _ _ = _ |- _ => rewrite H
           | H : w_broadcasts _ = _ |- _ => rewrite H
           | H : w_findings _ = _ |- _ => rewrite H
           | H : w_comments _ = _ |- _ => rewrite H
           end;
    rewrite ?app_nil_r; unfold COMPLETED_RUN_STAGES;
    repeat split; rewrite <- ?app_assoc; try done.
Qed.

End DriverOutcome.

Section DriverOutcome.

Import Codeguardignore Processor.

Variable fnmatch : pystr -> pystr -> bool.
Variable env : Env.
Variable rid : pystr.

Lemma wp_mono {A : Type} (m : M A) (w : world) (P Q : result A -> world -> Prop) :
  wp m w P -> (forall r w', P r w' -> Q r w') -> wp m w Q.
Proof. unfold wp. auto. Qed.

Lemma try_body_outcome (w : world) :
  wp (try_body fnmatch env rid) w (review_outcome env rid w).
Proof.
  assert (Htail : forall rs, settings_fetched env rs ->
    wp (if review_disabled rs
        then call StatusCompletedDisabled (update_status_completed_disabled env) ;;
             modify (set_status COMPLETED None) ;;
             broadcast_progress (py "complete")
        else run_pipeline fnmatch env rid rs)
       (set_status PROCESSING None w) (review_outcome env rid w)).
  { intros rs Hrs. destruct (review_disabled rs) eqn:Hd.
    - repeat wp_step; right; exists rs; (split; [done|]); rewrite Hd;
        world_simpl; (split; [done|]); (split; [done|]);
        [left; by repeat split | by right].
    - eapply wp_mono; [apply run_pipeline_outcome|].
      intros r w' Hout. right. exists rs. split; [done|]. by rewrite Hd. }
  unfold try_body.
  wp_step. wp_step; [|left; by auto].
  wp_step. wp_step. wp_step. wp_step; [|left; by auto].
  wp_step. destruct v0.
  - wp_step; [|left; by auto].
    apply Htail. left. by subst.
  - wp_step. apply Htail. right. by subst.
Qed.

Lemma settings_fetched_unique (rs rs' : option Settings) :
  settings_fetched env rs -> settings_fetched env rs' -> rs = rs'.
Proof. intros [[? ?]|[? ?]] [[? ?]|[? ?]]; congruence. Qed.

Lemma try_body_run (w : world) (r : result unit) (w' : world) :
  try_body fnmatch env rid w = (r, w') -> review_outcome env rid w r w'.
Proof. apply wp_run, try_body_outcome. Qed.

(** C4 (amended).  Every successfully completing run of an enabled review
    broadcasts exactly the stages fetching_diff(10), fetching_context(15),
    logic_agent(25), critique_agent(70), formatting(90), posting(95),
    complete(100), in that order: a subsequence of the checkpoint vocabulary
    with strictly increasing percentages; security_agent, quality_agent and
    deduplicating are never broadcast.  A run cut short because reviews are
    disabled for the repository broadcasts complete(100) only. *)
Theorem progress_checkpoints (w w' : world) :
  try_body fnmatch env rid w = (Returned tt, w') ->
  (exists rs, settings_fetched env rs /\
     w_broadcasts w'
     = w_broadcasts w
       ++ (if review_disabled rs
           then [(py "complete", 100%Z, py "Review complete")]
           else COMPLETED_RUN_STAGES))
  /\ sublist COMPLETED_RUN_STAGES ALL_STAGES
  /\ StronglySorted Z.lt (List.map (fun e => snd (fst e)) COMPLETED_RUN_STAGES)
  /\ PROGRESS_STAGES
     = list_to_map (List.map (fun e => (fst (fst e), (snd (fst e), snd e))) ALL_STAGES).
Proof.
  intros Hrun. split; [|split; [|split]].
  - apply try_body_run in Hrun as [[[?|[?|?]] _]|(rs & Hrs & Hout)]; try done.
    exists rs. split; [done|]. destruct (review_disabled rs).
    + by destruct Hout as (_ & _ & [(_ & _ & ?)|?]).
    + destruct Hout as (? & ? & ? & ? & ? & ? & _ & _ & _ & _ & Hb).
      revert Hb. by world_simpl.
  - repeat first [apply sublist_skip | apply sublist_cons | apply sublist_nil].
  - repeat constructor.
  - reflexivity.
Qed.

(** C2 (amended).  For every review run in which a step raises, the Review
    record ends in failed status, provided the status update of the failure
    handler succeeds.  When the raising step is the diff fetch, an agent
    run, the reconciliation, the persistence call or any other step before
    the comment is posted, no findings have been persisted and no comment
    has been posted.  When the raising step is the comment post, no comment
    has been posted, and the findings that passed the severity threshold
    stay persisted.  When the raising step is the final status update, both
    the findings and the comment are out. *)
Theorem failed_run (w : world) (s : step) (w1 : world) :
  try_body fnmatch env rid w = (Raised s, w1) ->
  let w' := process_review fnmatch env rid w in
  (update_status_failed env = Ok tt -> w_status w' = FAILED)
  /\ match s with
     | PostComment =>
         exists rs l0 s0 q0 l sc q,
           settings_fetched env rs /\ critique env l0 s0 q0 = Ok (l, sc, q)
           /\ w_findings w'
              = w_findings w ++ collect_findings rid (threshold_of rs) l sc q
           /\ w_comments w' = w_comments w
     | StatusCompleted =>
         exists rs l0 s0 q0 l sc q,
           settings_fetched env rs /\ critique env l0 s0 q0 = Ok (l, sc, q)
           /\ w_findings w'
              = w_findings w ++ collect_findings rid (threshold_of rs) l sc q
           /\ w_comments w' = w_comments w ++ [Formatter.format l sc q]
     | _ => w_findings w' = w_findings w /\ w_comments w' = w_comments w
     end.
Proof.
  intros Hrun w'. subst w'. unfold process_review. rewrite Hrun.
  assert (Hf : w_findings (match update_status_failed env with
                           | Ok _ => set_status FAILED None w1
                           | Error => w1
                           end) = w_findings w1)
    by (by destruct (update_status_failed env)).
  assert (Hc : w_comments (match update_status_failed env with
                           | Ok _ => set_status FAILED None w1
                           | Error => w1
                           end) = w_comments w1)
    by (by destruct (update_status_failed env)).
  rewrite Hf, Hc. split; [by intros ->|].
  apply try_body_run in Hrun as [[[?|[?|?]] [? ?]]|(rs & Hrs & Hout)].
  1-3: by simplify_eq.
  destruct (review_disabled rs).
  - destruct Hout as (? & ? & [[? _]|?]); by simplify_eq.
  - unfold pipeline_outcome in Hout. revert Hout. world_simpl.
    destruct s; try (by intros (_ & ? & ?));
      intros (l0 & s0 & q0 & l & sc & q & ? & ? & ? & ?);
      by exists rs, l0, s0, q0, l, sc, q.
Qed.

(** C1 (amended).  In every completed run of an enabled review with
    configured threshold t (info when the repository has no settings), the
    findings persisted are the reconciled findings, mapped as
    critical->critical, warning->medium, info->info, whose rank is
    numerically <= the rank of t, with ranks critical=0, high=1, medium=2,
    low=3, info=4: a reconciled finding is persisted if and only if its rank
    is <= the rank of t; threshold info persists every finding and threshold
    critical only the critical ones.  The comment posted is the report the
    supervisor rendered from all reconciled findings: the threshold does not
    apply to it. *)
Theorem threshold_filtering (rs : option Settings) (w w' : world) :
  settings_fetched env rs ->
  review_disabled rs = false ->
  try_body fnmatch env rid w = (Returned tt, w') ->
  let t := threshold_of rs in
  exists l0 s0 q0 l s q,
    critique env l0 s0 q0 = Ok (l, s, q)
    /\ w_findings w' = w_findings w ++ collect_findings rid t l s q
    /\ collect_findings rid t l s q
       = List.filter (fun m => (rank (fc_severity m) <=? rank t)%Z)
           (mapped_findings rid l s q)
    /\ (forall m, In m (mapped_findings rid l s q) ->
          (In m (collect_findings rid t l s q)
           <-> (rank (fc_severity m) <= rank t)%Z))
    /\ (forall f agent,
          fc_severity (_map_finding f rid agent)
          = match severity f with
            | SevCritical => CRITICAL
            | SevWarning => MEDIUM
            | SevInfo => INFO
            end)
    /\ List.map rank [CRITICAL; HIGH; MEDIUM; LOW; INFO] = [0; 1; 2; 3; 4]%Z
    /\ (t = INFO -> collect_findings rid t l s q = mapped_findings rid l s q)
    /\ (t = CRITICAL ->
          forall m, In m (collect_findings rid t l s q)
                    <-> In m (mapped_findings rid l s q) /\ fc_severity m = CRITICAL)
    /\ (rs = None -> t = INFO)
    /\ w_comments w' = w_comments w ++ [Formatter.format l s q].
Proof.
  intros Hrs Hen Hrun t.
  apply try_body_run in Hrun as [[[?|[?|?]] _]|(rs' & Hrs' & Hout)]; try done.
  rewrite <- (settings_fetched_unique _ _ Hrs Hrs'), Hen in Hout.
  destruct Hout as (l0 & s0 & q0 & l & s & q & Hcr & _ & Hfind & Hcom & _).
  revert Hfind Hcom. world_simpl. intros Hfind Hcom.
  exists l0, s0, q0, l, s, q. fold t in Hfind.
  pose proof (collect_findings_spec rid t l s q) as Hspec.
  split; [done|]. split; [done|]. split; [done|].
  split.
  { intros m Hm. rewrite Hspec. split.
    - intros [_ ?]%List.filter_In. by apply Z.leb_le.
    - intros ?. apply List.filter_In. split; [done|]. by apply Z.leb_le. }
  split.
  { intros f agent. cbn [_map_finding fc_severity].
    destruct (severity f); vm_compute; reflexivity. }
  split; [reflexivity|].
  split.
  { intros Ht. rewrite Hspec, Ht. apply forallb_filter_id, forallb_forall.
    intros m _. apply Z.leb_le. apply (rank_bounds (fc_severity m)). }
  split.
  { intros Ht m. rewrite Hspec, Ht. split.
    - intros [Hm Hr]%List.filter_In. split; [done|].
      destruct (fc_severity m); [done|..]; by vm_compute in Hr.
    - intros [Hm Hsev]. apply List.filter_In. split; [done|]. by rewrite Hsev. }
  split; [by intros ->|].
  done.
Qed.

End DriverOutcome.

Section DriverExamples.

Import Codeguardignore Processor Examples.

(** C4, the claim as stated fails: a run in which every step succeeds
    broadcasts seven checkpoints, not the ten of the vocabulary. *)
Lemma progress_checkpoints_not_all :
  let env := env_ok None [] [finding_critical] [] in
  let run := try_body Fnmatch.fnmatch env REVIEW_ID initial_world in
  fst run = Returned tt
  /\ w_status (snd run) = COMPLETED
  /\ w_broadcasts (snd run) = COMPLETED_RUN_STAGES
  /\ w_broadcasts (snd run) <> ALL_STAGES.
Proof.
  vm_compute. repeat split; discriminate.
Qed.

Lemma progress_checkpoints_witness :
  let env := env_ok None [] [finding_critical] [] in
  let run := try_body Fnmatch.fnmatch env REVIEW_ID initial_world in
  exists rs, settings_fetched env rs /\
    w_broadcasts (snd run)
    = w_broadcasts initial_world
      ++ (if review_disabled rs
          then [(py "complete", 100%Z, py "Review complete")]
          else COMPLETED_RUN_STAGES).
Proof.
  intros env run.
  apply (progress_checkpoints Fnmatch.fnmatch env REVIEW_ID initial_world (snd run)).
  vm_compute. reflexivity.
Defined.

(** C2, the claim as stated fails: when posting the comment raises, the
    review ends failed with no comment posted, but the findings are already
    persisted. *)
Lemma failed_run_keeps_findings :
  let env := env_post_fails None [] [finding_critical] [] in
  let w' := process_review Fnmatch.fnmatch env REVIEW_ID initial_world in
  fst (try_body Fnmatch.fnmatch env REVIEW_ID initial_world) = Raised PostComment
  /\ w_status w' = FAILED
  /\ w_comments w' = []
  /\ w_findings w' = [_map_finding finding_critical REVIEW_ID (py "security")]
  /\ w_findings w' <> [].
Proof.
  vm_compute. repeat split; discriminate.
Qed.

Lemma failed_run_witness :
  let env := env_post_fails None [] [finding_critical] [] in
  let w' := process_review Fnmatch.fnmatch env REVIEW_ID initial_world in
  (update_status_failed env = Ok tt -> w_status w' = FAILED)
  /\ exists rs l0 s0 q0 l sc q,
       settings_fetched env rs /\ critique env l0 s0 q0 = Ok (l, sc, q)
       /\ w_findings w'
          = w_findings initial_world
            ++ collect_findings REVIEW_ID (threshold_of rs) l sc q
       /\ w_comments w' = w_comments initial_world.
Proof.
  intros env w'.
  apply (failed_run Fnmatch.fnmatch env REVIEW_ID initial_world PostComment
           (snd (try_body Fnmatch.fnmatch env REVIEW_ID initial_world))).
  vm_compute. reflexivity.
Defined.

(** C1, the claim as stated fails for posting: with threshold critical an
    info finding is not persisted, yet the posted comment lists it. *)
Lemma threshold_not_applied_to_comment :
  let env := env_ok (Some settings_critical_only) [finding_info] [] [] in
  let w' := process_review Fnmatch.fnmatch env REVIEW_ID initial_world in
  (rank (fc_severity (_map_finding finding_info REVIEW_ID (py "logic")))
   > rank CRITICAL)%Z
  /\ w_status w' = COMPLETED
  /\ w_findings w' = []
  /\ w_comments w' = [Formatter.format [finding_info] [] []]
  /\ contains (Formatter._format_finding finding_info (py "Logic"))
       (Formatter.format [finding_info] [] []) = true.
Proof.
  vm_compute. repeat split; reflexivity.
Qed.

Lemma threshold_filtering_witness :
  let env := env_ok (Some settings_critical_only)
               [finding_info] [finding_critical] [] in
  let w' := snd (try_body Fnmatch.fnmatch env REVIEW_ID initial_world) in
  w_findings w' = [_map_finding finding_critical REVIEW_ID (py "security")]
  /\ exists l0 s0 q0 l s q,
       critique env l0 s0 q0 = Ok (l, s, q)
       /\ w_findings w'
          = w_findings initial_world ++ collect_findings REVIEW_ID CRITICAL l s q
       /\ w_comments w' = w_comments initial_world ++ [Formatter.format l s q].
Proof.
  intros env w'. split; [vm_compute; reflexivity|].
  destruct (threshold_filtering Fnmatch.fnmatch env REVIEW_ID
              (Some settings_critical_only) initial_world w')
    as (l0 & s0 & q0 & l & s & q & Hcr & Hf & _ & _ & _ & _ & _ & _ & _ & Hc).
  - left. split; reflexivity.
  - reflexivity.
  - vm_compute. reflexivity.
  - by exists l0, s0, q0, l, s, q.
Defined.

End DriverExamples.

(** ** The report renderer *)

Section FormatterFacts.

Import Formatter.

Lemma severity_str_eq (a b : AgentSeverity) :
  bool_decide (severity_str a = severity_str b) = severity_eqb b a.
Proof. by destruct a, b. Qed.

Lemma emoji_subscript (sev : AgentSeverity) :
  subscript SEVERITY_EMOJI (severity_str sev) [] = severity_emoji sev.
Proof. by destruct sev. Qed.

Lemma label_subscript (sev : AgentSeverity) :
  subscript SEVERITY_LABEL (severity_str sev) [] = severity_label sev.
Proof. by destruct sev. Qed.

Lemma count_by_severity_fold (fs : list AgentFinding) (m : gmap pystr nat)
    (sev : AgentSeverity) :
  default 0%nat
    (fold_left
       (fun (counts : gmap pystr nat) finding =>
          let k := severity_str (severity finding) in
          <[k := (default 0 (counts !! k) + 1)%nat]> counts)
       fs m !! severity_str sev)
  = (default 0%nat (m !! severity_str sev) + count_severity sev fs)%nat.
Proof.
  unfold count_severity. revert m; induction fs as [|f fs IH]; intros m.
  - cbn. lia.
  - cbn [fold_left List.filter]. rewrite IH.
    rewrite <- severity_str_eq.
    destruct (decide (severity_str (severity f) = severity_str sev)) as [He|Hne].
    + rewrite bool_decide_true by done. rewrite He, lookup_insert_eq.
      cbn [default from_option id length]. lia.
    + rewrite bool_decide_false by done. by rewrite lookup_insert_ne.
Qed.

Lemma count_by_severity_lookup (fs : list AgentFinding) (sev : AgentSeverity) :
  default 0%nat (count_by_severity fs !! severity_str sev) = count_severity sev fs.
Proof.
  unfold count_by_severity. rewrite count_by_severity_fold.
  by rewrite lookup_empty.
Qed.

Lemma group_by_severity_fold (fs : list (AgentFinding * pystr))
    (d : gmap pystr (list (AgentFinding * pystr))) (sev : AgentSeverity) :
  subscript
    (fold_left
       (fun (d : gmap pystr (list (AgentFinding * pystr))) fa =>
          let k := severity_str (severity (fst fa)) in
          <[k := subscript d k [] ++ [fa]]> d)
       fs d) (severity_str sev) []
  = subscript d (severity_str sev) []
    ++ List.filter (fun fa => severity_eqb sev (severity (fst fa))) fs.
Proof.
  revert d; induction fs as [|fa fs IH]; intros d.
  - cbn. by rewrite app_nil_r.
  - cbn [fold_left List.filter]. rewrite IH.
    rewrite <- severity_str_eq. unfold subscript at 1.
    destruct (decide (severity_str (severity (fst fa)) = severity_str sev))
      as [He|Hne].
    + rewrite bool_decide_true by done. rewrite He, lookup_insert_eq.
      cbn [default from_option id]. by rewrite <- app_assoc.
    + rewrite bool_decide_false by done. by rewrite lookup_insert_ne.
Qed.

Lemma group_by_severity_lookup (all : list (AgentFinding * pystr))
    (sev : AgentSeverity) :
  subscript (group_by_severity all) (severity_str sev) []
  = List.filter (fun fa => severity_eqb sev (severity (fst fa))) all.
Proof.
  unfold group_by_severity. rewrite group_by_severity_fold.
  by destruct sev.
Qed.

Lemma entries_fold (entries : list (AgentFinding * pystr)) (lines : list pystr) :
  fold_left
    (fun lines (fa : AgentFinding * pystr) =>
       lines ++ [_format_finding (fst fa) (snd fa)] ++ [[]])
    entries lines
  = lines ++ flat_map (fun fa => [_format_finding (fst fa) (snd fa); []]) entries.
Proof.
  revert lines; induction entries as [|fa entries IH]; intros lines.
  - cbn. by rewrite app_nil_r.
  - cbn [fold_left flat_map]. rewrite IH. by rewrite <- !app_assoc.
Qed.

Lemma summary_lines_spec (fs : list AgentFinding) :
  summary_lines (count_by_severity fs) = report_summary fs.
Proof.
  unfold summary_lines, report_summary, SEVERITY_ORDER, SEVERITIES.
  cbn [fold_left flat_map].
  change (py "critical") with (severity_str SevCritical).
  change (py "warning") with (severity_str SevWarning).
  change (py "info") with (severity_str SevInfo).
  rewrite !count_by_severity_lookup, !emoji_subscript, !label_subscript.
  unfold report_summary_line.
  destruct (count_severity SevCritical fs) as [|[|n1]];
    destruct (count_severity SevWarning fs) as [|[|n2]];
    destruct (count_severity SevInfo fs) as [|[|n3]];
    reflexivity.
Qed.

Lemma section_lines_spec (all : list (AgentFinding * pystr)) :
  section_lines (group_by_severity all) = report_sections all.
Proof.
  unfold section_lines, report_sections, SEVERITY_ORDER, SEVERITIES.
  cbn [fold_left flat_map].
  change (py "critical") with (severity_str SevCritical).
  change (py "warning") with (severity_str SevWarning).
  change (py "info") with (severity_str SevInfo).
  rewrite !group_by_severity_lookup, !emoji_subscript, !label_subscript.
  destruct (List.filter (fun fa => severity_eqb SevCritical (severity (fst fa))) all)
    as [|c cs];
    destruct (List.filter (fun fa => severity_eqb SevWarning (severity (fst fa))) all)
      as [|w ws];
    destruct (List.filter (fun fa => severity_eqb SevInfo (severity (fst fa))) all)
      as [|i0 is0];
    rewrite ?entries_fold, ?app_nil_r, <- ?app_assoc; reflexivity.
Qed.

Lemma label_findings_fst (l s q : list AgentFinding) :
  List.map fst (label_findings l s q) = l ++ s ++ q.
Proof.
  unfold label_findings. rewrite !List.map_app, !List.map_map. cbn [fst].
  by rewrite !List.map_id.
Qed.

(** C6.  For every triple of buckets that is not empty, the report is the
    join of: the header; one summary line per severity with a non-zero
    count, in the order critical, warning, info, the noun in the singular
    exactly for a count of one; one section per severity present, in that
    order, whose entries are the findings of that severity in the order
    logic, security, quality and in bucket order inside a bucket; the
    footer. *)
Theorem format_report (l s q : list AgentFinding) :
  l ++ s ++ q <> [] ->
  format l s q = join [NL] (report_lines l s q).
Proof.
  intros Hne. unfold format.
  destruct (label_findings l s q) as [|fa all] eqn:Hall.
  - exfalso. apply Hne. by rewrite <- label_findings_fst, Hall.
  - rewrite <- Hall. unfold format_lines, report_lines.
    rewrite summary_lines_spec, section_lines_spec, label_findings_fst.
    by rewrite <- !app_assoc.
Qed.

End FormatterFacts.

Section FormatterExamples.

Import Formatter Examples.

Lemma format_report_witness :
  let warning := {| severity := SevWarning; confidence := ConfMedium;
                    file_path := py "app.py"; line_number := None;
                    title := py "Broad except"; description := py "Catches everything.";
                    suggestion := None |} in
  let l := [finding_critical; finding_critical; warning] in
  let s := [warning] in
  let q := [warning; finding_info] in
  List.map severity (l ++ s ++ q)
  = [SevCritical; SevCritical; SevWarning; SevWarning; SevWarning; SevInfo]
  /\ format l s q = join [NL] (report_lines l s q)
  /\ report_summary (l ++ s ++ q)
     = [ py "- " ++ [128308] ++ py " **2 Critical** issues";
         py "- " ++ [128993] ++ py " **3 Warning** issues";
         py "- " ++ [128309] ++ py " **1 Info** issue" ]
  /\ List.map (fun fa => (severity (fst fa), snd fa))
       (List.filter (fun fa => severity_eqb SevWarning (severity (fst fa)))
          (label_findings l s q))
     = [(SevWarning, py "Logic"); (SevWarning, py "Security");
        (SevWarning, py "Quality")].
Proof.
  intros warning l s q. split; [reflexivity|]. split.
  - apply (format_report l s q). discriminate.
  - split; vm_compute; reflexivity.
Defined.

End FormatterExamples.

(** ** Structured output: retries *)

Section RetryFacts.

Import LLM.

Variable json : Type.
Variable T : Type.
Variable json_loads : pystr -> exn + json.
Variable is_list : json -> bool.
Variable wrap_findings : json -> json.
Variable has_findings_field : bool.
Variable model_validate : json -> exn + T.
Variable llm : nat -> exn + content.

Let attempt_result :=
  attempt_result json T json_loads is_list wrap_findings has_findings_field
    model_validate llm.
Let attempts :=
  attempts json T json_loads is_list wrap_findings has_findings_field
    model_validate llm.

Lemma attempts_spec (max_retries : Z) (m a : nat) (last : option exn)
    (trace0 : list event) :
  (1 <= m)%nat -> Z.of_nat (a + m) = (max_retries + 1)%Z ->
  exists n,
    (1 <= n <= m)%nat
    /\ fst (attempts max_retries (seq a m) last trace0)
       = trace0 ++ Invoke a
                   :: flat_map (fun k => [Sleep 1; Invoke k]) (seq (S a) (n - 1))
    /\ (forall k, (a <= k < a + n - 1)%nat ->
          exists e, attempt_result k = inl e /\ caught e = true)
    /\ snd (attempts max_retries (seq a m) last trace0)
       = attempt_result (a + n - 1)
    /\ (forall e, attempt_result (a + n - 1) = inl e -> caught e = true -> n = m).
Proof.
  revert a last trace0; induction m as [|m IH]; intros a last trace0 Hm Ham; [lia|].
  cbn [seq]. unfold attempts. cbn [LLM.attempts]. fold attempts. fold attempt_result.
  destruct (attempt_result a) as [e|v] eqn:Ha.
  - destruct (caught e) eqn:Hc.
    + destruct (Z.of_nat a <? max_retries)%Z eqn:Hlt.
      * apply Z.ltb_lt in Hlt.
        destruct (IH (S a) (Some e) ((trace0 ++ [Invoke a]) ++ [Sleep 1]))
          as (n & Hn & Htr & Hfail & Hres & Hlast); [lia | lia |].
        exists (S n). split; [lia|]. split.
        { rewrite Htr. replace (S n - 1)%nat with (S (n - 1)) by lia.
          cbn [seq flat_map]. by rewrite <- !app_assoc. }
        split.
        { intros k Hk. destruct (decide (k = a)) as [->|Hne]; [by exists e|].
          apply Hfail. lia. }
        replace (a + S n - 1)%nat with (S a + n - 1)%nat by lia.
        split; [done|].
        intros e' He' Hc'. f_equal. by apply (Hlast e').
      * apply Z.ltb_ge in Hlt. exists 1%nat.
        replace (a + 1 - 1)%nat with a by lia. cbn [fst snd seq flat_map].
        split; [lia|]. split; [done|]. split; [intros k Hk; lia|].
        split; [done|]. intros _ _ _. lia.
    + exists 1%nat. replace (a + 1 - 1)%nat with a by lia. cbn [fst snd seq flat_map].
      split; [lia|]. split; [done|]. split; [intros k Hk; lia|].
      split; [done|]. intros e' He' Hc'. congruence.
  - exists 1%nat. replace (a + 1 - 1)%nat with a by lia. cbn [fst snd seq flat_map].
    split; [lia|]. split; [done|]. split; [intros k Hk; lia|].
    split; [done|]. intros e' He' Hc'. congruence.
Qed.

(** C7.  With [max_retries >= 0], [invoke_structured] makes [n] attempts
    with [1 <= n <= max_retries + 1], sleeping one second between two
    consecutive attempts; every attempt before the last failed with an
    error the handler catches; the outcome is that of the last attempt, so
    a failing call raises the error of its last attempt, and a caught error
    is only raised once all [max_retries + 1] attempts are used.  An empty
    or whitespace-only response is a [ValueError], which the handler
    catches and retries like a parse or validation failure. *)
Theorem retry_policy (max_retries : Z) :
  (0 <= max_retries)%Z ->
  let run :=
    invoke_structured json T json_loads is_list wrap_findings has_findings_field
      model_validate llm max_retries in
  (exists n,
     (1 <= n <= Z.to_nat (max_retries + 1))%nat
     /\ fst run = retry_trace n
     /\ (forall k, (k < n - 1)%nat ->
           exists e, attempt_result k = inl e /\ caught e = true)
     /\ snd run = attempt_result (n - 1)
     /\ (forall e, snd run = inl e -> caught e = true ->
           n = Z.to_nat (max_retries + 1)))
  /\ (forall s, is_blank s = true ->
        exists msg,
          process_content json T json_loads is_list wrap_findings
            has_findings_field model_validate (ContentStr s)
          = inl (ValueError msg)
          /\ caught (ValueError msg) = true).
Proof.
  intros Hmax run. split.
  - destruct (attempts_spec max_retries (Z.to_nat (max_retries + 1)) 0 None [])
      as (n & Hn & Htr & Hfail & Hres & Hlast); [lia | lia |].
    exists n. unfold run, invoke_structured. fold attempts.
    split; [done|]. split.
    { rewrite Htr. unfold retry_trace. destruct n; [lia|].
      by replace (S n - 1)%nat with n by lia. }
    split; [intros k Hk; apply Hfail; lia|].
    cbn [Nat.add] in Hres, Hlast. split; [done|].
    intros e He. apply Hlast. by rewrite <- Hres.
  - intros s Hs. unfold process_content. rewrite Hs. by eexists.
Qed.

(** With a negative [max_retries] the loop body never runs and the call
    raises its fallback error without calling the model. *)
Lemma invoke_structured_negative (max_retries : Z) :
  (max_retries < 0)%Z ->
  invoke_structured json T json_loads is_list wrap_findings has_findings_field
    model_validate llm max_retries
  = ([], inl (ValueError (py "Failed to get structured response"))).
Proof.
  intros Hneg. unfold invoke_structured.
  by replace (Z.to_nat (max_retries + 1)) with 0%nat by lia.
Qed.

End RetryFacts.

Section RetryExamples.

Import LLM.

(** Three whitespace-only replies with the default of two retries: three
    calls, two sleeps, and the error of the third attempt. *)
Lemma retry_policy_witness :
  let llm := fun _ : nat => inr (ContentStr (py "  ")) : exn + content in
  let run :=
    invoke_structured unit unit (fun _ => inr tt) (fun _ => false) (fun j => j)
      false (fun _ => inr tt) llm DEFAULT_MAX_RETRIES in
  fst run = [Invoke 0; Sleep 1; Invoke 1; Sleep 1; Invoke 2]
  /\ snd run = inl (ValueError (py "LLM returned empty response"))
  /\ exists n, (1 <= n <= 3)%nat /\ fst run = retry_trace n.
Proof.
  intros llm run. split; [reflexivity|]. split; [reflexivity|].
  destruct (retry_policy unit unit (fun _ => inr tt) (fun _ => false) (fun j => j)
              false (fun _ => inr tt) llm DEFAULT_MAX_RETRIES)
    as [(n & Hn & Htr & _) _].
  - unfold DEFAULT_MAX_RETRIES. lia.
  - exists n. split; [exact Hn | exact Htr].
Defined.

End RetryExamples.

(** ** Structured output: escape repair *)

Section EscapeFacts.

Import LLM.

Lemma re_sub_escapes_tokens (ts : list token) (prev : bool) :
  repairable prev ts = true ->
  re_sub_escapes prev (text_of ts) = text_of (flat_map repair_token ts).
Proof.
  revert prev; induction ts as [|t ts IH]; intros prev; [done|].
  cbn [repairable]. intros [[Hok Hadj]%andb_true_iff Hrest]%andb_true_iff.
  specialize (IH _ Hrest). unfold text_of in *. cbn [flat_map].
  rewrite flat_map_app.
  destruct t as [c|c|h1 h2 h3 h4|c]; cbn [token_ok ends_with_backslash] in *;
    cbn [token_text repair_token flat_map app re_sub_escapes].
  - apply negb_true_iff in Hok. rewrite Hok. cbn [andb]. by rewrite IH.
  - apply andb_true_iff in Hok as [Hv _].
    change (BACKSLASH =? BACKSLASH) with true. rewrite Hv.
    destruct prev; cbn [negb andb];
      replace ((c =? BACKSLASH) && false) with false by (by destruct (c =? BACKSLASH));
      by rewrite IH.
  - change (BACKSLASH =? BACKSLASH) with true.
    change (valid_escape_char 117) with true.
    change (117 =? BACKSLASH) with false.
    apply andb_true_iff in Hok as [[[H1 H2]%andb_true_iff H3]%andb_true_iff H4].
    assert (Hhex : forall h, is_hex h = true -> (h =? BACKSLASH) = false).
    { intros h. unfold is_hex, hex_val.
      destruct (N.eqb_spec h BACKSLASH) as [->|]; [by vm_compute | done]. }
    rewrite (Hhex _ H1), (Hhex _ H2), (Hhex _ H3), (Hhex _ H4).
    destruct prev; cbn [negb andb]; by rewrite IH.
  - apply andb_true_iff in Hadj as [Hprev _]. apply negb_true_iff in Hprev.
    apply negb_true_iff in Hok. subst prev.
    change (BACKSLASH =? BACKSLASH) with true. cbn [negb andb]. rewrite Hok.
    assert (Hc : (c =? BACKSLASH) = false).
    { destruct (N.eqb_spec c BACKSLASH) as [->|]; [by vm_compute in Hok | done]. }
    rewrite Hc. by rewrite IH.
Qed.

Lemma replace_escaped_apostrophe_id (s : pystr) :
  has_escaped_apostrophe false s = false -> replace_escaped_apostrophe s = s.
Proof.
  induction s as [|c s IH]; [done|].
  cbn [has_escaped_apostrophe andb orb]. destruct s as [|d s]; [done|].
  intros Hs. cbn [replace_escaped_apostrophe].
  cbn [has_escaped_apostrophe] in Hs. apply orb_false_iff in Hs as [Hcd Hs].
  rewrite Hcd. f_equal. apply IH. by cbn [has_escaped_apostrophe andb orb].
Qed.

Lemma repaired_no_escaped_apostrophe (ts : list token) (prev : bool) :
  repairable prev ts = true ->
  has_escaped_apostrophe prev (text_of (flat_map repair_token ts)) = false.
Proof.
  revert prev; induction ts as [|t ts IH]; intros prev; [done|].
  cbn [repairable]. intros [[Hok Hadj]%andb_true_iff Hrest]%andb_true_iff.
  specialize (IH _ Hrest). unfold text_of in *. cbn [flat_map].
  rewrite flat_map_app.
  assert (Hval : forall c, valid_escape_char c = true -> (c =? APOSTROPHE) = false).
  { intros c Hc. destruct (N.eqb_spec c APOSTROPHE) as [->|]; [by vm_compute in Hc | done]. }
  destruct t as [c|c|h1 h2 h3 h4|c]; cbn [token_ok ends_with_backslash] in *;
    cbn [token_text repair_token flat_map app has_escaped_apostrophe].
  - apply negb_true_iff in Hok. apply negb_true_iff in Hadj.
    by rewrite Hadj, Hok.
  - apply andb_true_iff in Hok as [Hv _].
    change (BACKSLASH =? APOSTROPHE) with false.
    change (BACKSLASH =? BACKSLASH) with true.
    rewrite (Hval _ Hv), andb_false_r. by cbn [andb orb].
  - change (BACKSLASH =? APOSTROPHE) with false.
    change (BACKSLASH =? BACKSLASH) with true.
    change (117 =? APOSTROPHE) with false.
    change (117 =? BACKSLASH) with false.
    apply andb_true_iff in Hok as [[[H1 H2]%andb_true_iff H3]%andb_true_iff H4].
    assert (Hhex : forall h, is_hex h = true -> (h =? BACKSLASH) = false).
    { intros h. unfold is_hex, hex_val.
      destruct (N.eqb_spec h BACKSLASH) as [->|]; [by vm_compute | done]. }
    rewrite (Hhex _ H1), (Hhex _ H2), (Hhex _ H3), (Hhex _ H4).
    rewrite andb_false_r. by cbn [andb orb].
  - apply andb_true_iff in Hadj as [_ Hapo]. apply negb_true_iff in Hapo.
    apply negb_true_iff in Hok.
    change (BACKSLASH =? APOSTROPHE) with false.
    change (BACKSLASH =? BACKSLASH) with true.
    assert (Hc : (c =? BACKSLASH) = false).
    { destruct (N.eqb_spec c BACKSLASH) as [->|]; [by vm_compute in Hok | done]. }
    rewrite Hapo, Hc, andb_false_r. by cbn [andb orb].
Qed.

Lemma unescape_valid (c : N) :
  valid_escape_char c = true -> (c =? 117) = false ->
  exists x, unescape_char c = Some x.
Proof.
  unfold valid_escape_char, unescape_char. intros Hv Hu.
  repeat match goal with
         | |- context [if ?b then _ else _] => destruct b eqn:?; [by eexists|]
         end.
  rewrite Hu in Hv. cbn in Hv. discriminate.
Qed.

Lemma decode_repaired (ts : list token) :
  forallb token_ok ts = true -> forallb literal_ok ts = true ->
  json_string_chars (text_of (flat_map repair_token ts))
  = Some (flat_map intended ts).
Proof.
  induction ts as [|t ts IH]; [done|].
  cbn [forallb]. intros [Hok Hoks]%andb_true_iff [Hlit Hlits]%andb_true_iff.
  specialize (IH Hoks Hlits). unfold text_of in *. cbn [flat_map].
  rewrite flat_map_app.
  destruct t as [c|c|h1 h2 h3 h4|c]; cbn [token_ok literal_ok] in *;
    cbn [token_text repair_token flat_map app intended json_string_chars].
  - apply negb_true_iff in Hok.
    apply andb_true_iff in Hlit as [Hq%negb_true_iff Hc%negb_true_iff].
    by rewrite Hok, Hq, Hc, IH.
  - apply andb_true_iff in Hok as [Hv Hu%negb_true_iff].
    change (BACKSLASH =? BACKSLASH) with true. cbv iota. rewrite Hu.
    destruct (unescape_valid _ Hv Hu) as [x ->]. by rewrite IH.
  - change (BACKSLASH =? BACKSLASH) with true.
    change (117 =? 117) with true. cbv iota.
    apply andb_true_iff in Hok as [[[H1 H2]%andb_true_iff H3]%andb_true_iff H4].
    unfold is_hex in *. unfold hex4.
    destruct (hex_val h1), (hex_val h2), (hex_val h3), (hex_val h4); try done.
    by rewrite IH.
  - apply negb_true_iff in Hok.
    apply andb_true_iff in Hlit as [Hq%negb_true_iff Hc%negb_true_iff].
    change (BACKSLASH =? BACKSLASH) with true.
    change (BACKSLASH =? 117) with false.
    change (unescape_char BACKSLASH) with (Some BACKSLASH). cbv iota.
    assert (Hb : (c =? BACKSLASH) = false).
    { destruct (N.eqb_spec c BACKSLASH) as [->|]; [by vm_compute in Hok | done]. }
    by rewrite Hb, Hq, Hc, IH.
Qed.

Lemma repairable_tokens_ok (ts : list token) (prev : bool) :
  repairable prev ts = true -> forallb token_ok ts = true.
Proof.
  revert prev; induction ts as [|t ts IH]; intros prev; [done|].
  cbn [repairable forallb].
  intros [[Hok _]%andb_true_iff Hrest]%andb_true_iff.
  rewrite Hok. by apply (IH _ Hrest).
Qed.

(** Where the repair does what its docstring says.  For every text made of
    ordinary characters, valid escapes ([\uXXXX] with four hexadecimal
    digits) and invalid escapes, in which no invalid escape directly follows
    an escaped backslash, no invalid escape is a backslash-apostrophe, and
    no apostrophe directly follows an escaped backslash: the repair doubles
    the backslash of every invalid escape and leaves every valid escape and
    every other character unchanged; when moreover the literal characters
    are legal inside a JSON string, the repaired text reads as a JSON string
    whose characters are the intended ones, an invalid escape standing for
    a backslash and its character.  The texts left out are those of
    [escape_repair_code_bug]. *)
Lemma escape_repair (ts : list token) :
  repairable false ts = true ->
  _fix_json_escapes (text_of ts) = text_of (flat_map repair_token ts)
  /\ (forallb literal_ok ts = true ->
      json_string_chars (_fix_json_escapes (text_of ts))
      = Some (flat_map intended ts)).
Proof.
  intros Hrep.
  assert (Hfix : _fix_json_escapes (text_of ts) = text_of (flat_map repair_token ts)).
  { unfold _fix_json_escapes. rewrite re_sub_escapes_tokens by done.
    apply replace_escaped_apostrophe_id. by apply repaired_no_escaped_apostrophe. }
  split; [done|]. intros Hlit. rewrite Hfix.
  apply decode_repaired; [|done]. by apply (repairable_tokens_ok _ false).
Qed.

End EscapeFacts.

Section EscapeExamples.

Import LLM.

(** An invalid escape that follows an escaped backslash is left as it is,
    and the text is no legal JSON string body. *)
Lemma escape_repair_misses_after_backslash :
  let s := text_of [Escape BACKSLASH; BadEscape 115] in
  s = py "\\\s"
  /\ _fix_json_escapes s = s
  /\ json_string_chars (_fix_json_escapes s) = None.
Proof. vm_compute. repeat split. Qed.

(** The regular expression [\s+\n]: the invalid escape is doubled, the
    valid one is kept, and the decoded string holds backslash, s, plus and
    a line feed. *)
Lemma escape_repair_witness :
  let ts := [BadEscape 115; Plain 43; Escape 110] in
  text_of ts = py "\s+\n"
  /\ _fix_json_escapes (text_of ts) = py "\\s+\n"
  /\ json_string_chars (_fix_json_escapes (text_of ts)) = Some [92; 115; 43; 10].
Proof.
  intros ts. split; [reflexivity|].
  destruct (escape_repair ts) as [Hfix Hdec]; [reflexivity|].
  split; [exact Hfix | apply Hdec; reflexivity].
Defined.

(** The apostrophe handling: a backslash-apostrophe comes out unchanged. *)
Lemma fix_json_escapes_apostrophe :
  _fix_json_escapes (py "it\'s") = py "it\'s".
Proof. reflexivity. Qed.

(** C8.  The repair does not return a text with valid escape sequences on
    every text with an invalid one, as the claim and the docstring of
    [_fix_json_escapes] say it does.  Three texts with an invalid escape
    come back as they were and are no legal JSON string body:
    a backslash-apostrophe, which the comment of the code says becomes a
    plain apostrophe (the pattern first doubles its backslash and the
    replacement then takes one away); a backslash-u that is not followed
    by four hexadecimal digits, which the pattern takes for a valid escape;
    and an invalid escape directly after an escaped backslash, whose
    backslash the lookbehind takes for escaped.  In each case the text with
    the offending backslash doubled, which is what the claim asks for, is a
    legal JSON string body that reads as the intended characters. *)
Theorem escape_repair_code_bug :
  (_fix_json_escapes (py "it\'s") = py "it\'s"
   /\ json_string_chars (_fix_json_escapes (py "it\'s")) = None
   /\ json_string_chars (py "it\\'s") = Some (py "it\'s")
   /\ json_string_chars (py "it's") = Some (py "it's"))
  /\ (_fix_json_escapes (py "C:\users") = py "C:\users"
      /\ json_string_chars (_fix_json_escapes (py "C:\users")) = None
      /\ json_string_chars (py "C:\\users") = Some (py "C:\users"))
  /\ (_fix_json_escapes (py "\\\s") = py "\\\s"
      /\ json_string_chars (_fix_json_escapes (py "\\\s")) = None
      /\ json_string_chars (py "\\\\s") = Some (py "\\s")).
Proof. vm_compute. repeat split. Qed.

End EscapeExamples.

(** ** Finding validation *)

Section ValidationFacts.

Variable lax_int : pyval -> validated Z.

Lemma validate_literal_Valid {A : Type} (allowed : list A) (str : A -> pystr)
    (s : pystr) (a : A) :
  validate_literal allowed str s = Valid a -> str a = s /\ In a allowed.
Proof.
  induction allowed as [|b allowed IH]; [done|].
  cbn [validate_literal]. destruct (decide (str b = s)) as [Hb|Hb].
  - intros [= <-]. split; [done | by left].
  - intros [? ?]%IH. split; [done | by right].
Qed.

Lemma required_Valid {A : Type} (d : gmap pystr pyval) (key : pystr)
    (validate : pyval -> validated A) (a : A) :
  required d key validate = Valid a ->
  exists v, d !! key = Some v /\ validate v = Valid a.
Proof. unfold required. destruct (d !! key) as [v|]; [by exists v | done]. Qed.

Lemma with_default_Valid {A : Type} (d : gmap pystr pyval) (key : pystr)
    (validate : pyval -> validated A) (dflt a : A) :
  with_default d key validate dflt = Valid a ->
  match d !! key with
  | Some v => validate v = Valid a
  | None => a = dflt
  end.
Proof. unfold with_default. destruct (d !! key); [done | by intros [= ->]]. Qed.


End ValidationFacts.

Section ValidationExamples.


End ValidationExamples.

(** * Further properties *)

(** ** Ignore rules *)

Section IgnoreRules.

Import Codeguardignore IgnoreRulesDefs.

Lemma lstrip_split (s : pystr) :
  exists pre, s = pre ++ lstrip s /\ is_blank pre = true.
Proof.
  induction s as [|c s IH]; [by exists []|].
  cbn [lstrip]. destruct (is_space c) eqn:Hc.
  - destruct IH as (pre & Hs & Hb). exists (c :: pre). split.
    + cbn. by rewrite <- Hs.
    + cbn. by rewrite Hc.
  - by exists [].
Qed.

Lemma lstrip_head (s : pystr) (c : N) (t : pystr) :
  lstrip s = c :: t -> is_space c = false.
Proof.
  induction s as [|d s IH]; [done|].
  cbn [lstrip]. destruct (is_space d) eqn:Hd; [done|]. by intros [= <- <-].
Qed.

(** The ends of a stripped text are not whitespace. *)
Lemma strip_ends (s : pystr) :
  match strip s with
  | [] => True
  | c :: _ => is_space c = false
  end
  /\ match last (strip s) with
     | None => True
     | Some c => is_space c = false
     end.
Proof.
  unfold strip.
  destruct (lstrip_split (rev (lstrip s))) as (pre & Hrev & _).
  destruct (lstrip (rev (lstrip s))) as [|c t] eqn:Hb; [done|].
  pose proof (lstrip_head _ _ _ Hb) as Hc.
  split.
  - (* the head of the result is the head of [lstrip s] *)
    destruct (lstrip s) as [|a u] eqn:Ha; [by destruct pre|].
    pose proof (lstrip_head _ _ _ Ha) as Hsa.
    assert (Hr : rev (c :: t) ++ rev pre = a :: u).
    { rewrite <- rev_app_distr, <- Hrev. by rewrite rev_involutive. }
    destruct (rev (c :: t)) as [|x r] eqn:Hx.
    + apply (f_equal (@length N)) in Hx. rewrite length_rev in Hx. done.
    + cbn in Hr. by injection Hr as -> _.
  - cbn [rev]. by rewrite last_snoc.
Qed.

Lemma parse_ignore_fold (lines acc : list pystr) :
  fold_left
    (fun patterns line =>
       let line := strip line in
       match line with
       | [] => patterns
       | c :: _ => if c =? 35 then patterns else patterns ++ [line]
       end)
    lines acc
  = acc ++ List.filter is_pattern_line (List.map strip lines).
Proof.
  revert acc; induction lines as [|l lines IH]; intros acc.
  - cbn. by rewrite app_nil_r.
  - cbn [fold_left List.map List.filter]. rewrite IH. unfold is_pattern_line at 2.
    destruct (strip l) as [|c t]; [done|].
    destruct (c =? 35); cbn [negb]; [done | by rewrite <- app_assoc].
Qed.

(** X1.  [parse_ignore_file] returns the stripped lines of the file, in
    order, leaving out the blank lines and the lines that start with [#]
    once stripped; no pattern it returns is empty, starts with [#], or
    starts or ends with whitespace. *)
Theorem parse_ignore_file_patterns (content : pystr) :
  parse_ignore_file content
  = List.filter is_pattern_line (List.map strip (splitlines content))
  /\ Forall
       (fun p =>
          match p with
          | [] => False
          | c :: _ => c <> 35 /\ is_space c = false
          end
          /\ match last p with
             | None => False
             | Some c => is_space c = false
             end)
       (parse_ignore_file content).
Proof.
  assert (Heq : parse_ignore_file content
                = List.filter is_pattern_line (List.map strip (splitlines content))).
  { unfold parse_ignore_file. by rewrite parse_ignore_fold. }
  split; [done|]. rewrite Heq. apply Forall_forall. intros p Hp.
  apply list_elem_of_In, List.filter_In in Hp as [Hin Hpat].
  apply List.in_map_iff in Hin as (l & <- & _).
  destruct (strip_ends l) as [Hhd Hlast].
  destruct (strip l) as [|c t] eqn:Hs; [done|].
  split.
  - split; [|done]. cbn in Hpat. apply negb_true_iff in Hpat.
    by apply N.eqb_neq.
  - destruct (last (c :: t)) eqn:Hl; [done|].
    by apply last_None in Hl.
Qed.

Section Matcher.

Variable fnmatch : pystr -> pystr -> bool.

Lemma should_ignore_file_existsb (file_path : pystr) (patterns : list pystr) :
  should_ignore_file fnmatch file_path patterns
  = existsb (fun pattern =>
               fnmatch file_path pattern || fnmatch (basename file_path) pattern)
      patterns.
Proof.
  induction patterns as [|pat pats IH]; [done|].
  cbn [should_ignore_file existsb]. rewrite IH.
  destruct (fnmatch file_path pat); [done|].
  destruct (fnmatch (basename file_path) pat); [done|].
  by rewrite andb_false_r.
Qed.

Lemma should_ignore_file_app (file_path : pystr) (patterns more : list pystr) :
  should_ignore_file fnmatch file_path (patterns ++ more)
  = should_ignore_file fnmatch file_path patterns
    || should_ignore_file fnmatch file_path more.
Proof. by rewrite !should_ignore_file_existsb, existsb_app. Qed.

(** X2.  A path is ignored exactly when some pattern matches its full path
    or its basename: the third test of the loop adds nothing, and the
    result for two rule lists put together is the disjunction of the
    results for each. *)
Theorem should_ignore_file_any (file_path : pystr) (patterns more : list pystr) :
  should_ignore_file fnmatch file_path patterns
  = existsb (fun pattern =>
               fnmatch file_path pattern || fnmatch (basename file_path) pattern)
      patterns
  /\ should_ignore_file fnmatch file_path (patterns ++ more)
     = should_ignore_file fnmatch file_path patterns
       || should_ignore_file fnmatch file_path more.
Proof.
  split; [apply should_ignore_file_existsb | apply should_ignore_file_app].
Qed.

(** X3.  User rules cannot bring back what the built-in rules exclude, and
    more rules only exclude more: a changed file that a built-in rule
    matches is among the ignored files whatever the user rules are, and
    the files kept under the rules [patterns ++ more] are the files kept
    under [patterns] that no rule of [more] matches. *)
Theorem filter_diff_more_rules (diff : pystr) (patterns more : list pystr) :
  let kept rules := snd (fst (filter_diff fnmatch diff rules)) in
  let ignored rules := snd (filter_diff fnmatch diff rules) in
  (forall p, In p (Processor.extract_files_from_diff diff) ->
     should_ignore_file fnmatch p DEFAULT_IGNORE_PATTERNS = true ->
     In p (ignored patterns) /\ ~ In p (kept patterns))
  /\ kept (patterns ++ more)
     = List.filter (fun p => negb (should_ignore_file fnmatch p more)) (kept patterns).
Proof.
  intros kept ignored. unfold kept, ignored. rewrite !filter_diff_spec.
  cbn [fst snd]. split.
  - intros p Hp Hdef.
    assert (Hign : should_ignore_file fnmatch p (DEFAULT_IGNORE_PATTERNS ++ patterns)
                   = true).
    { by rewrite should_ignore_file_app, Hdef. }
    split.
    + apply List.filter_In. by split.
    + intros [_ Hn]%List.filter_In. by rewrite Hign in Hn.
  - induction (Processor.extract_files_from_diff diff) as [|p ps IH]; [done|].
    cbn [List.filter]. rewrite IH.
    pose proof (should_ignore_file_app p (DEFAULT_IGNORE_PATTERNS ++ patterns) more)
      as Happ.
    rewrite <- app_assoc in Happ. rewrite Happ.
    destruct (should_ignore_file fnmatch p (DEFAULT_IGNORE_PATTERNS ++ patterns));
      cbn [negb orb List.filter]; [done|].
    by destruct (should_ignore_file fnmatch p more).
Qed.

End Matcher.

End IgnoreRules.

(** ** The diff segmenter: filtering again *)

Section Refilter.

Import Codeguardignore Processor IgnoreRulesDefs.

Lemma re_split_app_line (bol : bool) (x y : pystr) :
  has_header_line bol (x ++ [NL]) = false ->
  re_split bol ((x ++ [NL]) ++ y)
  = (let '(p, s) := re_split true y in ((x ++ [NL]) ++ p, s)).
Proof.
  assert (Hd : Forall (fun c => c <> NL) DIFF_GIT) by (by repeat constructor).
  revert bol; induction x as [|c x IH]; intros bol.
  - intros _. cbn [app re_split]. change (NL =? NL) with true.
    destruct (re_split true y) as [p s].
    replace (bol && startswith DIFF_GIT (NL :: y)) with false; [done|].
    by destruct bol.
  - change ((c :: x) ++ [NL]) with (c :: (x ++ [NL])).
    cbn [has_header_line]. intros [Hcut Hrest]%orb_false_iff.
    change ((c :: (x ++ [NL])) ++ y) with (c :: ((x ++ [NL]) ++ y)).
    cbn [re_split]. rewrite (IH _ Hrest).
    destruct (re_split true y) as [p s].
    replace (bol && startswith DIFF_GIT (c :: ((x ++ [NL]) ++ y))) with false; [done|].
    symmetry. rewrite <- Hcut. f_equal.
    rewrite <- app_assoc.
    change (c :: (x ++ [NL] ++ y)) with ((c :: x) ++ NL :: y).
    change (c :: (x ++ [NL])) with ((c :: x) ++ [NL]).
    by apply startswith_nl.
Qed.

Lemma sec_ok_cons (sec : pystr) :
  sec_ok sec -> exists t, sec = 100 :: t /\ has_header_line false t = false.
Proof.
  intros [Hs Hh]. apply startswith_true in Hs as [r ->].
  eexists. split; [reflexivity|]. exact Hh.
Qed.

Lemma re_split_sections (pieces : list pystr) :
  Forall sec_ok pieces -> Forall ends_nl (removelast pieces) ->
  re_split true (concat pieces) = ([], pieces).
Proof.
  induction pieces as [|sec rest IH]; [done|].
  intros Hok Hnl. apply Forall_cons in Hok as [Hsec Hok].
  destruct (sec_ok_cons _ Hsec) as (t & -> & Ht).
  destruct Hsec as [Hstart _].
  destruct rest as [|sec2 rest].
  - cbn [concat]. rewrite app_nil_r. cbn [re_split].
    change (100 =? NL) with false.
    rewrite (re_split_no_header _ _ Ht). cbn [andb]. by rewrite Hstart.
  - cbn [removelast] in Hnl. apply Forall_cons in Hnl as [[y Hy] Hnl].
    specialize (IH Hok Hnl).
    change (concat ((100 :: t) :: sec2 :: rest))
      with (100 :: (t ++ concat (sec2 :: rest))).
    cbn [re_split]. cbn [andb].
    pose proof (startswith_app_l _ (100 :: t) (concat (sec2 :: rest)) Hstart) as Hs2.
    change ((100 :: t) ++ concat (sec2 :: rest))
      with (100 :: (t ++ concat (sec2 :: rest))) in Hs2.
    rewrite Hs2.
    destruct y as [|c y]; [done|]. injection Hy as <- ->.
    change (100 =? NL) with false in *.
    rewrite (re_split_app_line _ _ _ Ht), IH. by rewrite app_nil_r.
Qed.

Lemma re_split_preamble (pre : pystr) (pieces : list pystr) :
  has_header_line true pre = false ->
  pieces = [] \/ ends_nl pre ->
  Forall sec_ok pieces -> Forall ends_nl (removelast pieces) ->
  re_split true (pre ++ concat pieces) = (pre, pieces).
Proof.
  intros Hpre [->|[y ->]] Hok Hnl.
  - cbn [concat]. rewrite app_nil_r. by apply re_split_no_header.
  - rewrite (re_split_app_line _ _ _ Hpre), (re_split_sections _ Hok Hnl).
    by rewrite app_nil_r.
Qed.

(** What [re_split] returns is cut that way. *)
Lemma re_split_pieces (bol : bool) (s pre : pystr) (secs : list pystr) :
  re_split bol s = (pre, secs) ->
  has_header_line bol pre = false
  /\ Forall sec_ok secs /\ Forall ends_nl (removelast secs).
Proof.
  assert (Hd : Forall (fun c => c <> NL) DIFF_GIT) by (by repeat constructor).
  revert bol pre secs; induction s as [|c s IH]; intros bol pre secs.
  - intros [= <- <-]. by repeat split.
  - cbn [re_split]. destruct (re_split (c =? NL) s) as [cur rest] eqn:Hs.
    destruct (IH _ _ _ Hs) as (Hcur & Hok & Hnl).
    pose proof (re_split_concat _ _ _ _ Hs) as Hcat.
    destruct (bol && startswith DIFF_GIT (c :: s)) eqn:Hcut; intros [= <- <-].
    + apply andb_true_iff in Hcut as [-> Hstart].
      split; [done|].
      assert (Hshape : rest = [] \/ ends_nl (c :: cur)).
      { destruct rest as [|sec2 rest]; [by left|]. right.
        destruct (re_split_shape _ _ _ _ _ Hs) as [[-> Hc]|[x ->]].
        - apply N.eqb_eq in Hc as ->. by exists [].
        - by exists (c :: x). }
      split; [apply Forall_cons; split; [split|done]|].
      * destruct Hshape as [->|[y Hy]].
        -- cbn [concat] in Hcat. rewrite app_nil_r in Hcat. by subst.
        -- rewrite <- Hcat in Hstart.
           change (c :: (cur ++ concat rest)) with ((c :: cur) ++ concat rest) in Hstart.
           rewrite Hy in Hstart |- *. rewrite <- app_assoc in Hstart.
           change ([NL] ++ concat rest) with (NL :: concat rest) in Hstart.
           by rewrite (startswith_nl _ _ _ Hd) in Hstart.
      * by cbn [has_header_line andb orb].
      * destruct rest as [|sec2 rest]; [done|].
        cbn [removelast]. apply Forall_cons. split; [|done].
        by destruct Hshape.
    + split; [|done]. cbn [has_header_line]. rewrite Hcur, orb_false_r.
      destruct bol; [|done]. cbn [andb] in *.
      destruct (startswith DIFF_GIT (c :: cur)) eqn:Hc; [|done].
      apply (startswith_app_l _ _ (concat rest)) in Hc.
      change ((c :: cur) ++ concat rest) with (c :: (cur ++ concat rest)) in Hc.
      rewrite Hcat in Hc. congruence.
Qed.

Lemma removelast_filter {A : Type} (P : A -> Prop) (f : A -> bool) (l : list A) :
  Forall P (removelast l) -> Forall P (removelast (List.filter f l)).
Proof.
  induction l as [|x l IH]; [done|]. intros Hl.
  assert (Hl' : Forall P (removelast l)).
  { destruct l; [done|]. cbn [removelast] in Hl. by apply Forall_cons in Hl as [_ ?]. }
  specialize (IH Hl'). cbn [List.filter]. destruct (f x); [|done].
  destruct (List.filter f l) as [|y l2] eqn:Hfl; [done|].
  cbn [removelast]. apply Forall_cons. split; [|done].
  destruct l; [done|]. cbn [removelast] in Hl. by apply Forall_cons in Hl as [? _].
Qed.

Lemma filter_filter_andb {A : Type} (f g : A -> bool) (l : list A) :
  List.filter f (List.filter g l) = List.filter (fun x => g x && f x) l.
Proof.
  induction l as [|x l IH]; [done|]. cbn [List.filter].
  destruct (g x); cbn [andb List.filter]; by rewrite IH.
Qed.

Section WithMatcher.

Variable fnmatch : pystr -> pystr -> bool.

Lemma omap_filter_keep (pats : list pystr) (l : list pystr) :
  omap header_path (List.filter (keep_section fnmatch pats) l)
  = List.filter (fun p => negb (should_ignore_file fnmatch p pats))
      (omap header_path l).
Proof.
  induction l as [|sec l IH]; [done|].
  cbn [List.filter omap list_omap]. unfold keep_section at 1.
  destruct (is_blank sec) eqn:Hb.
  - rewrite (header_path_blank _ Hb). cbn [negb andb]. apply IH.
  - cbn [negb andb]. destruct (header_path sec) as [p|] eqn:Hp.
    + cbn [List.filter].
      destruct (should_ignore_file fnmatch p pats); cbn [negb]; [apply IH|].
      cbn [omap list_omap]. rewrite Hp. by rewrite <- IH.
    + cbn [omap list_omap]. rewrite Hp. apply IH.
Qed.

(** Splitting the kept sections again gives them back, up to an empty
    first piece. *)
Lemma kept_sections_resplit (diff : pystr) (pats : list pystr) :
  let ks := List.filter (keep_section fnmatch pats) (file_sections diff) in
  file_sections (concat ks) = ks \/ file_sections (concat ks) = [] :: ks.
Proof.
  intros ks. unfold ks, file_sections.
  destruct (re_split true diff) as [pre secs] eqn:Hs.
  destruct (re_split_pieces _ _ _ _ Hs) as (Hpre & Hok & Hnl).
  set (ks' := List.filter (keep_section fnmatch pats) secs).
  assert (Hok' : Forall sec_ok ks').
  { apply Forall_forall. intros x Hx%list_elem_of_In%List.filter_In.
    rewrite Forall_forall in Hok. apply Hok, list_elem_of_In, Hx. }
  assert (Hnl' : Forall ends_nl (removelast ks')) by (by apply removelast_filter).
  cbn [List.filter]. fold ks'.
  destruct (keep_section fnmatch pats pre) eqn:Hk.
  - left. cbn [concat]. rewrite re_split_preamble; try done.
    destruct secs as [|sec secs]; [by left|]. right.
    destruct (re_split_shape _ _ _ _ _ Hs) as [[-> _]|Hx]; [|done].
    by cbn in Hk.
  - right. by rewrite re_split_sections.
Qed.

Lemma refilter (diff : pystr) (a b : list pystr) :
  let pa := DEFAULT_IGNORE_PATTERNS ++ a in
  let pb := DEFAULT_IGNORE_PATTERNS ++ b in
  let ks := List.filter (keep_section fnmatch pa) (file_sections diff) in
  let kept := List.filter (fun p => negb (should_ignore_file fnmatch p pa))
                (extract_files_from_diff diff) in
  extract_files_from_diff (concat ks) = kept
  /\ filter_diff fnmatch (concat ks) b
     = (concat (List.filter (keep_section fnmatch pb) ks),
        List.filter (fun p => negb (should_ignore_file fnmatch p pb)) kept,
        List.filter (fun p => should_ignore_file fnmatch p pb) kept).
Proof.
  intros pa pb ks kept.
  pose proof (kept_sections_resplit diff pa) as Hk. cbv zeta in Hk. fold ks in Hk.
  assert (Hfiles : extract_files_from_diff (concat ks) = kept).
  { unfold kept. rewrite !extract_files_sections, <- omap_filter_keep. fold ks.
    by destruct Hk as [->| ->]. }
  split; [done|]. rewrite filter_diff_spec, Hfiles. fold pb.
  f_equal. f_equal. f_equal.
  by destruct Hk as [->| ->].
Qed.

(** X4.  The filtered diff is consistent with the kept files and filtering
    is idempotent: the changed files of the filtered diff are exactly
    [kept_files], and filtering the filtered diff again with the same rules
    returns it unchanged, with the same kept files and nothing ignored. *)
Theorem filter_diff_idempotent (diff : pystr) (patterns : list pystr) :
  let '(filtered, kept_files, _) := filter_diff fnmatch diff patterns in
  extract_files_from_diff filtered = kept_files
  /\ filter_diff fnmatch filtered patterns = (filtered, kept_files, []).
Proof.
  rewrite (filter_diff_spec fnmatch diff patterns).
  destruct (refilter diff patterns patterns) as [Hfiles Hagain].
  cbv zeta in Hfiles, Hagain. cbv beta iota zeta.
  split; [done|]. rewrite Hagain. f_equal; [f_equal|].
  - f_equal. rewrite filter_filter_andb.
    apply List.filter_ext. intros x. by destruct (keep_section _ _ x).
  - rewrite filter_filter_andb.
    apply List.filter_ext. intros x. by destruct (should_ignore_file _ x _).
  - rewrite filter_filter_andb. apply filter_none.
    intros x _. by destruct (should_ignore_file _ x _).
Qed.

(** X5.  Two passes are one pass: filtering with the rules [a] and then
    filtering the result with the rules [b] gives the filtered diff and the
    kept files of one pass with the rules [a ++ b]; the second pass reports
    as ignored the files the first pass kept and a rule of [b] matches. *)
Theorem filter_diff_two_passes (diff : pystr) (a b : list pystr) :
  let '(filtered_a, kept_a, _) := filter_diff fnmatch diff a in
  let '(filtered_ab, kept_ab, _) := filter_diff fnmatch diff (a ++ b) in
  filter_diff fnmatch filtered_a b
  = (filtered_ab, kept_ab,
     List.filter (fun p => should_ignore_file fnmatch p b) kept_a).
Proof.
  rewrite (filter_diff_spec fnmatch diff a), (filter_diff_spec fnmatch diff (a ++ b)).
  destruct (refilter diff a b) as [_ Hagain]. cbv zeta in Hagain.
  cbv beta iota zeta. rewrite Hagain.
  set (D := DEFAULT_IGNORE_PATTERNS).
  assert (Hign : forall p,
    should_ignore_file fnmatch p (D ++ a ++ b)
    = should_ignore_file fnmatch p (D ++ a) || should_ignore_file fnmatch p (D ++ b)).
  { intros p. rewrite (app_assoc D a b).
    rewrite (should_ignore_file_app fnmatch p (D ++ a) b).
    rewrite (should_ignore_file_app fnmatch p D a).
    rewrite (should_ignore_file_app fnmatch p D b).
    destruct (should_ignore_file fnmatch p D), (should_ignore_file fnmatch p a),
      (should_ignore_file fnmatch p b); done. }
  f_equal; [f_equal|].
  - f_equal. rewrite filter_filter_andb. apply List.filter_ext. intros sec.
    unfold keep_section. destruct (is_blank sec); [done|]. cbn [negb andb].
    destruct (header_path sec) as [p|]; [|done]. rewrite Hign.
    by destruct (should_ignore_file fnmatch p (D ++ a)),
         (should_ignore_file fnmatch p (D ++ b)).
  - rewrite filter_filter_andb. apply List.filter_ext. intros p. rewrite Hign.
    by destruct (should_ignore_file fnmatch p (D ++ a)),
         (should_ignore_file fnmatch p (D ++ b)).
  - rewrite !filter_filter_andb. apply List.filter_ext. intros p.
    rewrite (should_ignore_file_app fnmatch p D a).
    rewrite (should_ignore_file_app fnmatch p D b).
    by destruct (should_ignore_file fnmatch p D), (should_ignore_file fnmatch p a),
         (should_ignore_file fnmatch p b).
Qed.

End WithMatcher.

End Refilter.

(** ** The built-in rules under the bracket-free matcher *)

Section DefaultRules.

Import Codeguardignore Processor Fnmatch.

Lemma glob_match_star_cons (pat : pystr) (c : N) (name : pystr) :
  glob_match (STAR :: pat) (c :: name)
  = glob_match pat (c :: name) || glob_match (STAR :: pat) name.
Proof. reflexivity. Qed.

Lemma glob_match_star_nil (pat : pystr) :
  glob_match (STAR :: pat) [] = glob_match pat [].
Proof. cbn. by rewrite orb_false_r. Qed.

(** A pattern without wildcards matches itself. *)
Lemma glob_match_literal (lit : pystr) :
  Forall (fun c => c <> STAR) lit -> glob_match lit lit = true.
Proof.
  induction 1 as [|c lit Hc Hlit IH]; [done|].
  cbn [glob_match]. destruct (N.eqb_spec c STAR) as [|_]; [done|].
  by rewrite N.eqb_refl, orb_true_r, IH.
Qed.

(** A star before a literal matches every name that ends with it. *)
Lemma glob_match_suffix (lit stem : pystr) :
  Forall (fun c => c <> STAR) lit ->
  glob_match (STAR :: lit) (stem ++ lit) = true.
Proof.
  intros Hlit. induction stem as [|c stem IH].
  - destruct lit as [|c lit]; [done|].
    cbn [app]. by rewrite glob_match_star_cons, glob_match_literal.
  - cbn [app]. by rewrite glob_match_star_cons, IH, orb_true_r.
Qed.

(** X6.  Lock files, minified assets and generated protobuf code never
    reach the agents: a file whose basename ends with [.lock], [.min.js],
    [.min.css], [.pb.go] or [.pb.py] is ignored under every user rule list,
    and no diff filtering keeps it. *)
Theorem default_rules_ignore (path stem suffix : pystr) (diff : pystr)
    (patterns : list pystr) :
  In suffix [py ".lock"; py ".min.js"; py ".min.css"; py ".pb.go"; py ".pb.py"] ->
  basename path = stem ++ suffix ->
  should_ignore_file fnmatch path (DEFAULT_IGNORE_PATTERNS ++ patterns) = true
  /\ ~ In path (snd (fst (filter_diff fnmatch diff patterns))).
Proof.
  intros Hsuf Hbase.
  assert (Hign : should_ignore_file fnmatch path (DEFAULT_IGNORE_PATTERNS ++ patterns)
                 = true).
  { rewrite should_ignore_file_app, should_ignore_file_existsb.
    apply orb_true_iff. left. apply existsb_exists.
    exists (STAR :: suffix). split.
    - cbn [In] in Hsuf.
      destruct Hsuf as [<-|[<-|[<-|[<-|[<-|[]]]]]]; cbn; tauto.
    - apply orb_true_iff. right. rewrite Hbase. unfold fnmatch.
      apply glob_match_suffix.
      cbn [In] in Hsuf.
      destruct Hsuf as [<-|[<-|[<-|[<-|[<-|[]]]]]]; by repeat constructor. }
  split; [done|].
  rewrite filter_diff_spec. cbn [fst snd].
  intros [_ Hn]%List.filter_In. by rewrite Hign in Hn.
Qed.

End DefaultRules.

Section DefaultRulesExamples.

Import Codeguardignore Processor.

Lemma default_rules_ignore_witness :
  should_ignore_file Fnmatch.fnmatch (py "vendor/Gemfile.lock")
    (DEFAULT_IGNORE_PATTERNS ++ [py "docs/*"]) = true
  /\ ~ In (py "vendor/Gemfile.lock")
         (snd (fst (filter_diff Fnmatch.fnmatch Examples.SAMPLE_DIFF [py "docs/*"]))).
Proof.
  apply (default_rules_ignore (py "vendor/Gemfile.lock") (py "Gemfile") (py ".lock")).
  - cbn. tauto.
  - reflexivity.
Defined.

End DefaultRulesExamples.

(** ** The driver: thresholds, the rate-limit loop, the final status *)

Section Thresholds.

Import Processor.

Lemma map_agent_severity_cases (agent_severity : pystr) :
  map_agent_severity agent_severity = CRITICAL
  \/ map_agent_severity agent_severity = MEDIUM
  \/ map_agent_severity agent_severity = INFO.
Proof.
  unfold map_agent_severity.
  destruct (_ !! agent_severity) as [sev|] eqn:Hl; [|by auto].
  apply elem_of_list_to_map_2 in Hl. cbn [default from_option id].
  repeat (apply elem_of_cons in Hl as [Hl|Hl]; [simplify_eq; by auto|]).
  by apply elem_of_nil in Hl.
Qed.

Lemma mapped_findings_severity (rid : pystr) (l s q : list AgentFinding)
    (m : FindingCreate) :
  In m (mapped_findings rid l s q) ->
  fc_severity m = CRITICAL \/ fc_severity m = MEDIUM \/ fc_severity m = INFO.
Proof.
  unfold mapped_findings. rewrite !in_app_iff, !in_map_iff.
  intros [H|[H|H]]; destruct H as (f & <- & _);
    apply map_agent_severity_cases.
Qed.

Lemma filter_sublist_impl {A : Type} (f g : A -> bool) (l : list A) :
  (forall x, In x l -> f x = true -> g x = true) ->
  sublist (List.filter f l) (List.filter g l).
Proof.
  induction l as [|x l IH]; intros Himp; [constructor|].
  cbn [List.filter].
  assert (IH' : sublist (List.filter f l) (List.filter g l)).
  { apply IH. intros y Hy. apply Himp. by right. }
  destruct (f x) eqn:Hf.
  - rewrite (Himp x (or_introl eq_refl) Hf). by apply sublist_skip.
  - destruct (g x); [by apply sublist_cons | done].
Qed.

(** X7.  The five threshold levels give three behaviours: no agent text
    maps to the levels high or low, so the threshold high persists exactly
    what the threshold critical persists, and the threshold low exactly what
    the threshold medium persists. *)
Theorem threshold_collapse (rid : pystr) (l s q : list AgentFinding) :
  (forall agent_severity,
     map_agent_severity agent_severity <> HIGH
     /\ map_agent_severity agent_severity <> LOW)
  /\ collect_findings rid HIGH l s q = collect_findings rid CRITICAL l s q
  /\ collect_findings rid LOW l s q = collect_findings rid MEDIUM l s q.
Proof.
  split; [|split].
  - intros a. destruct (map_agent_severity_cases a) as [-> | [-> | ->]]; by split.
  - rewrite !collect_findings_spec. apply filter_ext_in. intros m Hm.
    by destruct (mapped_findings_severity _ _ _ _ _ Hm) as [-> | [-> | ->]].
  - rewrite !collect_findings_spec. apply filter_ext_in. intros m Hm.
    by destruct (mapped_findings_severity _ _ _ _ _ Hm) as [-> | [-> | ->]].
Qed.

(** X8.  A laxer threshold only adds findings: when the rank of [t1] is at
    most the rank of [t2], the findings persisted under [t1] are, in the
    same order, among those persisted under [t2], and both are taken in
    order from the mapped findings. *)
Theorem threshold_monotone (rid : pystr) (t1 t2 : Severity)
    (l s q : list AgentFinding) :
  (rank t1 <= rank t2)%Z ->
  sublist (collect_findings rid t1 l s q) (collect_findings rid t2 l s q)
  /\ sublist (collect_findings rid t2 l s q) (mapped_findings rid l s q).
Proof.
  intros Hle. rewrite !collect_findings_spec. split.
  - apply filter_sublist_impl. intros m _ Hm.
    apply Z.leb_le. apply Z.leb_le in Hm. lia.
  - induction (mapped_findings rid l s q) as [|m ms IH]; [constructor|].
    cbn [List.filter]. destruct (rank (fc_severity m) <=? rank t2)%Z;
      [by apply sublist_skip | by apply sublist_cons].
Qed.

End Thresholds.

Section ThresholdExamples.

Import Processor Examples.

Lemma threshold_monotone_witness :
  sublist
    (collect_findings REVIEW_ID CRITICAL [finding_info] [finding_critical] [])
    (collect_findings REVIEW_ID MEDIUM [finding_info] [finding_critical] [])
  /\ sublist
       (collect_findings REVIEW_ID MEDIUM [finding_info] [finding_critical] [])
       (mapped_findings REVIEW_ID [finding_info] [finding_critical] []).
Proof.
  apply (threshold_monotone REVIEW_ID CRITICAL MEDIUM). by vm_compute.
Defined.

End ThresholdExamples.

Section RateLimitLoop.

Import Processor DriverDefs.

Variable env : Env.

Lemma slept_0 (w : world) : slept 0 w = w.
Proof. destruct w. unfold slept. cbn. by rewrite app_nil_r. Qed.

Lemma slept_add_sleep (k : nat) (w : world) :
  slept k (add_sleep 5 w) = slept (S k) w.
Proof. unfold slept, add_sleep. cbn. by rewrite <- app_assoc. Qed.

Lemma rate_limit_loop_seq (n a m k : nat) (w : world) :
  (a + m = n)%nat -> (k <= m)%nat ->
  (forall i, (i < k)%nat -> can_proceed env (a + i) = Ok false) ->
  ((k < m)%nat -> can_proceed env (a + k) = Ok true) ->
  rate_limit_loop env n (seq a m) w
  = (if (k <? m)%nat then Returned tt else Raised RateLimitExceeded,
     slept (Nat.min k (m - 1)) w).
Proof.
  revert a k w. induction m as [|m IH]; intros a k w Hn Hk Hbusy Hfree.
  - assert (k = 0)%nat as -> by lia. cbn. by rewrite slept_0.
  - cbn [seq rate_limit_loop]. unfold bind at 1.
    destruct k as [|k].
    + rewrite Nat.add_0_r in Hfree. rewrite Hfree by lia.
      cbn. by rewrite slept_0.
    + pose proof (Hbusy 0%nat ltac:(lia)) as H0. rewrite Nat.add_0_r in H0.
      rewrite H0. cbn [call ret]. unfold bind at 1.
      assert (Htail : forall w1,
        rate_limit_loop env n (seq (S a) m) w1
        = (if (k <? m)%nat then Returned tt else Raised RateLimitExceeded,
           slept (Nat.min k (m - 1)) w1)).
      { intros w1. apply IH; [lia | lia | |].
        - intros i Hi. replace (S a + i)%nat with (a + S i)%nat by lia.
          apply Hbusy. lia.
        - intros Hlt. replace (S a + k)%nat with (a + S k)%nat by lia.
          apply Hfree. lia. }
      destruct (a <? n - 1)%nat eqn:Hlast.
      * apply Nat.ltb_lt in Hlast. cbn [modify]. rewrite Htail, slept_add_sleep.
        replace (S k <? S m)%nat with (k <? m)%nat
          by (destruct (Nat.ltb_spec k m), (Nat.ltb_spec (S k) (S m)); done || lia).
        do 2 f_equal. lia.
      * apply Nat.ltb_ge in Hlast. cbn [ret]. rewrite Htail.
        assert (m = 0)%nat as -> by lia. assert (k = 0)%nat as -> by lia.
        reflexivity.
Qed.

(** X9.  The rate-limit loop with [n] attempts: when the limiter refuses the
    first [k] checks and admits the next one ([k < n]), the loop ends after
    exactly [k] sleeps of five seconds; when it refuses all [n] checks, the
    loop raises after exactly [n - 1] sleeps, none after the last check.
    Nothing but the sleeps changes. *)
Theorem rate_limit_loop_outcome (n k : nat) (w : world) :
  (k <= n)%nat ->
  (forall i, (i < k)%nat -> can_proceed env i = Ok false) ->
  ((k < n)%nat -> can_proceed env k = Ok true) ->
  rate_limit_loop env n (seq 0 n) w
  = (if (k <? n)%nat then Returned tt else Raised RateLimitExceeded,
     slept (Nat.min k (n - 1)) w).
Proof.
  intros Hk Hbusy Hfree. by apply rate_limit_loop_seq.
Qed.

End RateLimitLoop.

Section RateLimitExamples.

Import Processor DriverDefs Examples.

Lemma rate_limit_loop_outcome_witness :
  rate_limit_loop (env_rate_limited 2) 3 (seq 0 3) initial_world
  = (Returned tt, slept 2 initial_world)
  /\ rate_limit_loop (env_rate_limited 3) 3 (seq 0 3) initial_world
     = (Raised RateLimitExceeded, slept 2 initial_world).
Proof.
  split.
  - apply (rate_limit_loop_outcome (env_rate_limited 2) 3 2 initial_world).
    + lia.
    + intros i Hi. cbn. destruct i as [|[|i]]; [reflexivity | reflexivity | lia].
    + reflexivity.
  - apply (rate_limit_loop_outcome (env_rate_limited 3) 3 3 initial_world).
    + lia.
    + intros i Hi. cbn. destruct i as [|[|[|i]]]; [reflexivity.. | lia].
    + lia.
Defined.

End RateLimitExamples.

Section FinalStatus.

Import Codeguardignore Processor DriverDefs.

Variable fnmatch : pystr -> pystr -> bool.
Variable env : Env.
Variable rid : pystr.

(** The rate-limit loop leaves the status, the rate counter and the stored
    diff as they are. *)
Lemma wp_rate_limit_loop_records (n : nat) (range : list nat) (w : world)
    (Q : result unit -> world -> Prop) :
  (forall r w1,
     w_status w1 = w_status w ->
     w_rate_increments w1 = w_rate_increments w ->
     w_diff_content w1 = w_diff_content w ->
     (r = Returned tt \/ r = Raised RateLimitCheck \/ r = Raised RateLimitExceeded) ->
     Q r w1) ->
  wp (rate_limit_loop env n range) w Q.
Proof.
  revert w; induction range as [|a range IH]; intros w HQ.
  - apply wp_raise, HQ; auto.
  - cbn [rate_limit_loop]. apply wp_bind, wp_call.
    + intros [] _.
      * apply wp_ret, HQ; auto.
      * apply wp_bind. destruct (a <? n - 1)%nat.
        -- apply wp_modify, IH. intros r w1 Hs Hi Hd Hr. by apply HQ.
        -- apply wp_ret, IH. intros r w1 Hs Hi Hd Hr. by apply HQ.
    + intros _. apply HQ; auto.
Qed.

Lemma run_pipeline_records (st : option Settings) (w : world) :
  wp (run_pipeline fnmatch env rid st) w (pipeline_records env w).
Proof.
  unfold run_pipeline, supervisor_run.
  repeat
    (lazymatch goal with
     | |- wp (rate_limit_loop _ _ _) _ _ =>
         apply wp_rate_limit_loop_records;
         intros ? ? ? ? ? [-> | [-> | ->]]
     | |- wp (bind _ _) _ _ => apply wp_bind
     | |- wp (call _ _) _ _ => apply wp_call; [intros ? ? | intros ?]
     | |- wp (ret _) _ _ => apply wp_ret
     | |- wp (raise _) _ _ => apply wp_raise
     | |- wp (modify _) _ _ => apply wp_modify
     | |- wp (broadcast_progress _) _ _ => apply wp_modify
     | |- wp (if ?b then _ else _) _ _ => destruct b eqn:?
     | |- wp (match ?x with _ => _ end) _ _ => destruct x eqn:?
     end; cbv beta iota);
    unfold pipeline_records; world_simpl; cbn [after_increment];
    repeat match goal with
           | H : w_status _ = _ |- _ => rewrite H
           | H : w_rate_increments _ = _ |- _ => rewrite H
           | H : w_diff_content _ = _ |- _ => rewrite H
           end;
    world_simpl; cbn [default from_option id]; try done.
Qed.

Lemma try_body_records (w : world) :
  wp (try_body fnmatch env rid) w (review_records env w).
Proof.
  assert (Htail : forall rs, settings_fetched env rs ->
    wp (if review_disabled rs
        then call StatusCompletedDisabled (update_status_completed_disabled env) ;;
             modify (set_status COMPLETED None) ;;
             broadcast_progress (py "complete")
        else run_pipeline fnmatch env rid rs)
       (set_status PROCESSING None w) (review_records env w)).
  { intros rs Hrs. destruct (review_disabled rs) eqn:Hd.
    - repeat wp_step; unfold review_records; world_simpl; [|done].
      split; [done|]. exists rs. by rewrite Hd.
    - eapply wp_mono; [apply run_pipeline_records|].
      intros r w'. unfold pipeline_records, review_records. world_simpl.
      destruct r as [[]|s].
      + intros (? & ? & ? & ?). split; [done|]. exists rs. by rewrite Hd.
      + intros (-> & -> & Hs). split; [|done]. by destruct s. }
  unfold try_body.
  wp_step. wp_step; [|by unfold review_records].
  wp_step. wp_step. wp_step. wp_step; [|by unfold review_records].
  wp_step. destruct v0.
  - wp_step; [|by unfold review_records].
    apply Htail. left. by subst.
  - wp_step. apply Htail. right. by subst.
Qed.

(** X10.  The status a review ends with.  [process_review] never raises;
    the review is completed exactly when no step of the [try] block raised;
    when a step raised, the review is failed if the status update of the
    handler succeeds; when that update raises too, the review stays in
    processing, or in its initial status when already the first status
    update had raised. *)
Theorem process_review_status (w : world) :
  let w' := process_review fnmatch env rid w in
  match fst (try_body fnmatch env rid w), update_status_failed env with
  | Returned _, _ => w_status w' = COMPLETED
  | Raised _, Ok _ => w_status w' = FAILED
  | Raised StatusProcessing, Error => w_status w' = w_status w
  | Raised _, Error => w_status w' = PROCESSING
  end.
Proof.
  pose proof (try_body_records w) as Hrec. unfold wp in Hrec.
  unfold process_review.
  destruct (try_body fnmatch env rid w) as [[[]|s] w1]; cbn [fst snd] in *.
  - apply Hrec.
  - destruct Hrec as [Hst _].
    destruct (update_status_failed env); [by destruct s|].
    rewrite Hst. by destruct s.
Qed.

(** X11.  The rate counter counts the reviews whose agents ran: a review
    increments it at most once; a completed review of an enabled repository
    exactly once, a review skipped because reviews are disabled not at all;
    a failed review increments it exactly when the failing step is one of
    the three that follow the agents (persisting the findings, posting the
    comment, the last status update), so a review that gave up on the rate
    limit or whose agent raised does not count. *)
Theorem rate_counter_once (w : world) :
  let w' := process_review fnmatch env rid w in
  match fst (try_body fnmatch env rid w) with
  | Returned _ =>
      exists rs, settings_fetched env rs
        /\ w_rate_increments w'
           = (if review_disabled rs then w_rate_increments w
              else S (w_rate_increments w))
  | Raised s =>
      w_rate_increments w'
      = (if after_increment s then S (w_rate_increments w) else w_rate_increments w)
  end.
Proof.
  pose proof (try_body_records w) as Hrec. unfold wp in Hrec.
  unfold process_review.
  destruct (try_body fnmatch env rid w) as [[[]|s] w1]; cbn [fst snd] in *.
  - destruct Hrec as (_ & rs & Hrs & Hinc & _). by exists rs.
  - destruct Hrec as [_ Hinc].
    by destruct (update_status_failed env).
Qed.

(** X12.  The diff stored on the review record of a completed review is the
    diff as the host returned it, not the diff that the ignore rules leave:
    whatever the ignore file holds, the stored text is the answer of
    [get_pr_diff]. *)
Theorem stored_diff_is_raw (rs : option Settings) (w w' : world) :
  settings_fetched env rs ->
  review_disabled rs = false ->
  try_body fnmatch env rid w = (Returned tt, w') ->
  exists diff,
    get_pr_diff env = Ok diff
    /\ w_diff_content (process_review fnmatch env rid w) = Some diff.
Proof.
  intros Hrs Hen Hrun.
  pose proof (try_body_records w) as Hrec. unfold wp in Hrec.
  unfold process_review. rewrite Hrun in *. cbn [fst snd] in Hrec.
  destruct Hrec as (_ & rs' & Hrs' & _ & Hdiff).
  rewrite <- (settings_fetched_unique _ _ _ Hrs Hrs') in Hdiff.
  destruct (Hdiff Hen) as [Hget Hsome].
  destruct (w_diff_content w') as [diff|]; [|done]. by exists diff.
Qed.

End FinalStatus.

Section FinalStatusExamples.

Import Codeguardignore Processor DriverDefs Examples.

Lemma stored_diff_is_raw_witness :
  let env := env_ok None [finding_info] [] [] in
  exists diff,
    get_pr_diff env = Ok diff
    /\ w_diff_content (process_review Fnmatch.fnmatch env REVIEW_ID initial_world)
       = Some diff.
Proof.
  intros env.
  apply (stored_diff_is_raw Fnmatch.fnmatch env REVIEW_ID None initial_world
           (snd (try_body Fnmatch.fnmatch env REVIEW_ID initial_world))).
  - left. split; reflexivity.
  - reflexivity.
  - vm_compute. reflexivity.
Defined.

End FinalStatusExamples.

(** ** The file context *)

Section FileContextFacts.

Import Codeguardignore Processor FileContext.

Lemma dict_set_keys (d : list (pystr * pystr)) (key value : pystr) :
  List.map fst (dict_set d key value) = List.map fst d
  \/ (~ In key (List.map fst d)
      /\ List.map fst (dict_set d key value) = List.map fst d ++ [key]).
Proof.
  induction d as [|[k v] d IH]; cbn [dict_set List.map fst app].
  - right. split; [by intros []|done].
  - destruct (decide (k = key)) as [->|Hk]; [by left|].
    cbn [List.map fst]. destruct IH as [->|[Hn ->]]; [by left|].
    right. split; [|done]. by intros [?|?].
Qed.

Lemma dict_set_In (d : list (pystr * pystr)) (key value : pystr) (kv : pystr * pystr) :
  In kv (dict_set d key value) -> kv = (key, value) \/ In kv d.
Proof.
  induction d as [|[k v] d IH]; cbn [dict_set].
  - intros [<-|[]]. by left.
  - destruct (decide (k = key)) as [->|Hk].
    + intros [<-|?]; [by left | right; by right].
    + intros [<-|?]; [right; by left|].
      destruct IH as [?|?]; [done | by left | right; by right].
Qed.

Lemma dict_set_bytes (d : list (pystr * pystr)) (key value : pystr) :
  dict_bytes (dict_set d key value)
  <= dict_bytes d + default 0 (encoded_length value).
Proof.
  unfold dict_bytes.
  induction d as [|[k v] d IH]; cbn [dict_set foldr snd].
  - lia.
  - destruct (decide (k = key)); cbn [foldr snd]; lia.
Qed.

Lemma dict_set_NoDup (d : list (pystr * pystr)) (key value : pystr) :
  List.NoDup (List.map fst d) -> List.NoDup (List.map fst (dict_set d key value)).
Proof.
  intros Hd. destruct (dict_set_keys d key value) as [->|[Hn ->]]; [done|].
  apply NoDup_ListNoDup, NoDup_app. apply NoDup_ListNoDup in Hd.
  split; [done|]. split.
  - intros x Hx ->%list_elem_of_singleton. by apply Hn, list_elem_of_In.
  - apply NoDup_singleton.
Qed.

Section Fetch.

Variable get_file_content : pystr -> answer (option pystr).

Lemma fetch_loop_spec (files : list pystr) (d : list (pystr * pystr))
    (total : N) (requested : list pystr) :
  dict_bytes d <= total -> total <= MAX_TOTAL_CONTEXT_BYTES ->
  context_ok get_file_content d requested ->
  let '(d', requested') := fetch_loop get_file_content files d total requested in
  context_ok get_file_content d' requested'
  /\ exists k, requested' = requested ++ take k files.
Proof.
  revert d total requested.
  induction files as [|p files IH]; intros d total requested Hb Ht Hok.
  - cbn. split; [done|]. exists 0%nat. by rewrite app_nil_r.
  - cbn [fetch_loop].
    assert (Hmore : context_ok get_file_content d (requested ++ [p])).
    { destruct Hok as (Hnd & Hbytes & Hent). split; [done|]. split; [done|].
      intros fp c Hin. destruct (Hent fp c Hin) as (? & ? & ?).
      split; [|done]. apply in_app_iff. by left. }
    assert (Hnext : forall d1 t1, dict_bytes d1 <= t1 ->
              t1 <= MAX_TOTAL_CONTEXT_BYTES ->
              context_ok get_file_content d1 (requested ++ [p]) ->
              let '(d', requested') :=
                fetch_loop get_file_content files d1 t1 (requested ++ [p]) in
              context_ok get_file_content d' requested'
              /\ exists k, requested' = requested ++ take k (p :: files)).
    { intros d1 t1 Hb1 Ht1 Hok1. specialize (IH d1 t1 (requested ++ [p]) Hb1 Ht1 Hok1).
      destruct (fetch_loop _ files d1 t1 _) as [d' requested'].
      destruct IH as [? [k ->]]. split; [done|]. exists (S k).
      by rewrite <- app_assoc. }
    destruct (get_file_content p) as [[raw|]|] eqn:Hget; [|by apply Hnext..].
    destruct (encoded_length (cap_lines raw)) as [n|] eqn:Hlen; [|by apply Hnext].
    destruct (MAX_TOTAL_CONTEXT_BYTES <? total + n) eqn:Hcap.
    + split; [done|]. exists 1%nat. reflexivity.
    + apply N.ltb_ge in Hcap. apply Hnext; [| done |].
      * pose proof (dict_set_bytes d p (cap_lines raw)) as Hs.
        rewrite Hlen in Hs. cbn [default from_option id] in Hs. lia.
      * destruct Hmore as (Hnd & Hbytes & Hent). split; [by apply dict_set_NoDup|].
        split.
        -- pose proof (dict_set_bytes d p (cap_lines raw)) as Hs.
           rewrite Hlen in Hs. cbn [default from_option id] in Hs. lia.
        -- intros fp c [Hnew|Hold]%dict_set_In; [|by apply Hent].
           simplify_eq. split; [apply in_app_iff; right; by left|].
           split; [by rewrite Hlen|]. by exists raw.
Qed.


End Fetch.

End FileContextFacts.

Section CapLines.

Import Codeguardignore Processor FileContext.

Lemma splitlines_acc_line (cur l rest : pystr) :
  Forall (fun c => is_linebreak c = false) l ->
  splitlines_acc cur (l ++ NL :: rest) = (cur ++ l) :: splitlines_acc [] rest.
Proof.
  intros Hl. revert cur. induction Hl as [|c l Hc Hl IH]; intros cur.
  - rewrite app_nil_r. cbn [app splitlines_acc].
    change (is_linebreak NL) with true. cbv iota.
    change (NL =? 13) with false. cbn [andb]. by destruct rest.
  - cbn [app splitlines_acc]. rewrite Hc, IH. by rewrite <- app_assoc.
Qed.

Lemma splitlines_acc_last (cur l : pystr) :
  Forall (fun c => is_linebreak c = false) l ->
  splitlines_acc cur l = match cur ++ l with [] => [] | _ :: _ => [cur ++ l] end.
Proof.
  intros Hl. revert cur. induction Hl as [|c l Hc Hl IH]; intros cur.
  - rewrite app_nil_r. by destruct cur.
  - cbn [splitlines_acc]. rewrite Hc, IH. by rewrite <- app_assoc.
Qed.

(** No line of [splitlines] holds a line boundary. *)
Lemma splitlines_acc_lines (n : nat) (s cur : pystr) :
  (length s <= n)%nat ->
  Forall (fun c => is_linebreak c = false) cur ->
  Forall (Forall (fun c => is_linebreak c = false)) (splitlines_acc cur s).
Proof.
  revert s cur. induction n as [|n IH]; intros s cur Hn Hcur.
  - destruct s; [|cbn in Hn; lia].
    destruct cur; cbn; [constructor | constructor; [done | constructor]].
  - destruct s as [|c s];
      [destruct cur; cbn; [constructor | constructor; [done | constructor]]|].
    cbn [length] in Hn. cbn [splitlines_acc].
    destruct (is_linebreak c) eqn:Hc.
    + constructor; [done|]. destruct s as [|d s]; [constructor|].
      cbn [length] in Hn.
      destruct ((c =? 13) && (d =? 10)); apply IH; cbn [length]; (lia || constructor).
    + apply IH; [lia|]. apply Forall_app. split; [done|]. by repeat constructor.
Qed.

Lemma splitlines_join (ls : list pystr) (rest : pystr) :
  Forall (Forall (fun c => is_linebreak c = false)) ls -> ls <> [] ->
  splitlines_acc [] (join [NL] ls ++ NL :: rest) = ls ++ splitlines_acc [] rest.
Proof.
  induction 1 as [|p ls Hp Hls IH]; [done|]. intros _.
  destruct ls as [|q ls].
  - cbn [join app]. by rewrite splitlines_acc_line.
  - change (join [NL] (p :: q :: ls)) with (p ++ [NL] ++ join [NL] (q :: ls)).
    rewrite <- !app_assoc. cbn [app].
    rewrite splitlines_acc_line by done. cbn [app]. f_equal.
    by apply IH.
Qed.

Lemma digits_no_linebreak (d : Decimal.uint) :
  Forall (fun c => is_linebreak c = false) (py (NilEmpty.string_of_uint d)).
Proof.
  induction d; cbn [NilEmpty.string_of_uint]; try (by constructor);
    change (py (String ?c ?s)) with (N_of_ascii c :: py s);
    by constructor.
Qed.

Lemma truncation_marker_line (more : nat) :
  Forall (fun c => is_linebreak c = false) (truncation_marker more)
  /\ truncation_marker more <> [].
Proof.
  split; [|done]. unfold truncation_marker. apply Forall_app. split.
  { apply Forall_forall. intros c Hc. vm_compute in Hc.
    repeat (apply elem_of_cons in Hc as [->|Hc]; [done|]).
    by apply elem_of_nil in Hc. }
  apply Forall_app. split.
  - unfold str_of_nat, str_of_Z, NilZero.string_of_int, NilZero.string_of_uint.
    destruct (Z.to_int (Z.of_nat more)) as [d|d].
    + destruct d; try apply digits_no_linebreak. by repeat constructor.
    + change (py (String ?c ?s)) with (N_of_ascii c :: py s).
      constructor; [done|]. destruct d; try apply digits_no_linebreak.
      by repeat constructor.
  - apply Forall_forall. intros c Hc. vm_compute in Hc.
    repeat (apply elem_of_cons in Hc as [->|Hc]; [done|]).
    by apply elem_of_nil in Hc.
Qed.

(** X14.  The cap on one file: a text of more than 500 lines becomes a text
    of exactly 502 lines, the first 500 lines of the file as they were, an
    empty line, and the marker that tells how many lines were left out; a
    text of at most 500 lines is not touched. *)
Theorem cap_lines_lines (content : pystr) :
  let lines := splitlines content in
  if (MAX_LINES_PER_FILE <? length lines)%nat then
    splitlines (cap_lines content)
    = take MAX_LINES_PER_FILE lines
      ++ [[]; truncation_marker (length lines - MAX_LINES_PER_FILE)]
    /\ length (splitlines (cap_lines content)) = (MAX_LINES_PER_FILE + 2)%nat
  else cap_lines content = content.
Proof.
  intros lines. unfold cap_lines. fold lines.
  destruct (MAX_LINES_PER_FILE <? length lines)%nat eqn:Hlong; [|done].
  apply Nat.ltb_lt in Hlong.
  destruct (truncation_marker_line (length lines - MAX_LINES_PER_FILE)) as [Hm Hne].
  assert (Hsplit : splitlines
            (join [NL] (take MAX_LINES_PER_FILE lines)
             ++ NL :: NL :: truncation_marker (length lines - MAX_LINES_PER_FILE))
          = take MAX_LINES_PER_FILE lines
            ++ [[]; truncation_marker (length lines - MAX_LINES_PER_FILE)]).
  { unfold splitlines. rewrite splitlines_join.
    - f_equal.
      pose proof (splitlines_acc_line [] []
                    (truncation_marker (length lines - MAX_LINES_PER_FILE))
                    ltac:(constructor)) as Hblank.
      cbn [app] in Hblank. rewrite Hblank. f_equal.
      rewrite splitlines_acc_last by done. cbn [app].
      by destruct (truncation_marker _).
    - apply Forall_take. apply (splitlines_acc_lines (length content)); [lia|constructor].
    - intros Hnil. apply (f_equal length) in Hnil.
      rewrite length_take in Hnil. cbn [length] in Hnil.
      unfold MAX_LINES_PER_FILE in *. lia. }
  split; [done|]. rewrite Hsplit, length_app, length_take. cbn [length].
  unfold MAX_LINES_PER_FILE in *. lia.
Qed.

End CapLines.

(** ** The report: nothing lost, nothing counted twice *)

Section ReportTotals.

Import Formatter.

Lemma filter_severity_length {A : Type} (sev_of : A -> AgentSeverity) (l : list A) :
  (length (List.filter (fun x => severity_eqb SevCritical (sev_of x)) l)
   + length (List.filter (fun x => severity_eqb SevWarning (sev_of x)) l)
   + length (List.filter (fun x => severity_eqb SevInfo (sev_of x)) l)
   = length l)%nat.
Proof.
  induction l as [|x l IH]; [done|].
  cbn [List.filter length].
  set (fc := List.filter (fun x => severity_eqb SevCritical (sev_of x)) l) in *.
  set (fw := List.filter (fun x => severity_eqb SevWarning (sev_of x)) l) in *.
  set (fi := List.filter (fun x => severity_eqb SevInfo (sev_of x)) l) in *.
  destruct (sev_of x); cbn [severity_eqb length]; lia.
Qed.

Lemma filter_severity_perm {A : Type} (sev_of : A -> AgentSeverity) (l : list A) :
  List.filter (fun x => severity_eqb SevCritical (sev_of x)) l
  ++ List.filter (fun x => severity_eqb SevWarning (sev_of x)) l
  ++ List.filter (fun x => severity_eqb SevInfo (sev_of x)) l
  ≡ₚ l.
Proof.
  induction l as [|x l IH]; [done|].
  cbn [List.filter].
  set (fc := List.filter (fun x => severity_eqb SevCritical (sev_of x)) l) in *.
  set (fw := List.filter (fun x => severity_eqb SevWarning (sev_of x)) l) in *.
  set (fi := List.filter (fun x => severity_eqb SevInfo (sev_of x)) l) in *.
  destruct (sev_of x); cbn [severity_eqb app].
  - by constructor.
  - rewrite <- Permutation_middle. by constructor.
  - rewrite app_assoc, <- Permutation_middle, <- app_assoc. by constructor.
Qed.

(** X15.  The report loses no finding and counts none twice: the counts of
    [count_by_severity] for the three severities add up to the number of
    findings, the lists of [findings_by_severity] taken in the order of the
    sections are a rearrangement of the labelled findings, and the count in
    the summary of each severity is the number of entries of its section. *)
Theorem report_totals (all_findings : list (AgentFinding * pystr)) :
  let counts := count_by_severity (List.map fst all_findings) in
  let by_severity := group_by_severity all_findings in
  (default 0 (counts !! py "critical") + default 0 (counts !! py "warning")
   + default 0 (counts !! py "info") = length all_findings)%nat
  /\ flat_map (fun sev => subscript by_severity sev []) SEVERITY_ORDER ≡ₚ all_findings
  /\ Forall (fun sev => length (subscript by_severity sev [])
                        = default 0%nat (counts !! sev)) SEVERITY_ORDER.
Proof.
  intros counts by_severity. unfold counts, by_severity.
  assert (Hcount : forall sev,
    default 0%nat (count_by_severity (List.map fst all_findings) !! severity_str sev)
    = length (List.filter (fun fa => severity_eqb sev (severity (fst fa))) all_findings)).
  { intros sev. rewrite count_by_severity_lookup. unfold count_severity.
    induction all_findings as [|fa l IH]; [done|].
    cbn [List.map List.filter]. destruct (severity_eqb sev (severity (fst fa)));
      cbn [length]; by rewrite IH. }
  split; [|split].
  - rewrite <- (filter_severity_length (fun fa => severity (fst fa)) all_findings).
    by rewrite <- !Hcount.
  - cbn [flat_map SEVERITY_ORDER]. rewrite app_nil_r.
    rewrite <- (filter_severity_perm (fun fa => severity (fst fa)) all_findings) at 4.
    by rewrite <- !group_by_severity_lookup.
  - change SEVERITY_ORDER with (List.map severity_str SEVERITIES).
    apply Forall_map, Forall_forall. intros sev _. cbv beta.
    by rewrite group_by_severity_lookup, Hcount.
Qed.

End ReportTotals.

(** ** The reply of the model: the fenced block *)

Section FencedReply.

Import LLM.

Lemma lstrip_blank_app (ws y : pystr) :
  is_blank ws = true -> lstrip (ws ++ y) = lstrip y.
Proof.
  induction ws as [|c ws IH]; [done|].
  cbn [is_blank forallb app lstrip]. intros [Hc Hws]%andb_true_iff.
  rewrite Hc. by apply IH.
Qed.

Lemma is_blank_rev (ws : pystr) : is_blank (rev ws) = is_blank ws.
Proof.
  unfold is_blank. induction ws as [|c ws IH]; [done|].
  cbn [rev forallb]. rewrite forallb_app, IH. cbn [forallb].
  rewrite andb_true_r. apply andb_comm.
Qed.

(** Whitespace after a text that is already stripped is stripped away. *)
Lemma strip_app_blank (body ws : pystr) :
  strip body = body -> body <> [] -> is_blank ws = true ->
  strip (body ++ ws) = body
  /\ exists c t, body = c :: t /\ is_space c = false.
Proof.
  intros Hstrip Hne Hws.
  destruct body as [|c t]; [done|].
  assert (Hc : is_space c = false).
  { pose proof (strip_ends (c :: t)) as [Hhead _]. by rewrite Hstrip in Hhead. }
  split; [|by exists c, t].
  rewrite <- Hstrip at 2. unfold strip.
  cbn [app lstrip]. rewrite Hc.
  change (c :: t ++ ws) with ((c :: t) ++ ws).
  rewrite rev_app_distr, lstrip_blank_app; [done|]. by rewrite is_blank_rev.
Qed.

Lemma blank_no_backquote (ws : pystr) :
  is_blank ws = true -> contains_char 96 ws = false.
Proof.
  induction ws as [|c ws IH]; [done|].
  cbn [is_blank forallb contains_char existsb]. intros [Hc Hws]%andb_true_iff.
  unfold contains_char in IH. rewrite (IH Hws), orb_false_r.
  destruct (N.eqb_spec 96 c) as [<-|]; [by vm_compute in Hc | done].
Qed.

Lemma contains_char_app (c : N) (x y : pystr) :
  contains_char c (x ++ y) = contains_char c x || contains_char c y.
Proof. apply existsb_app. Qed.

Lemma match_fence_at_other (c : N) (s : pystr) :
  (96 =? c) = false -> match_fence_at (c :: s) = None.
Proof. intros Hc. unfold match_fence_at, FENCE. cbn [strip_prefix]. by rewrite Hc. Qed.

Lemma search_fence_skip (pre x : pystr) :
  contains_char 96 pre = false -> search_fence (pre ++ x) = search_fence x.
Proof.
  induction pre as [|c pre IH]; [done|].
  cbn [contains_char existsb]. intros [Hc Hpre]%orb_false_iff.
  cbn [app search_fence]. rewrite (match_fence_at_other c _ Hc). by apply IH.
Qed.

Lemma search_fence_none (s : pystr) :
  contains_char 96 s = false -> search_fence s = None.
Proof.
  intros Hs. rewrite <- (app_nil_r s), search_fence_skip by done. reflexivity.
Qed.

Lemma until_fence_app (x post : pystr) :
  contains_char 96 x = false -> until_fence (x ++ FENCE ++ post) = Some x.
Proof.
  induction x as [|c x IH]; [done|].
  cbn [contains_char existsb]. intros [Hc Hx]%orb_false_iff.
  cbn [app until_fence]. unfold FENCE at 1. cbn [startswith]. rewrite Hc.
  cbn [andb]. by rewrite (IH Hx).
Qed.

Variable json : Type.
Variable T : Type.
Variable json_loads : pystr -> exn + json.
Variable is_list : json -> bool.
Variable wrap_findings : json -> json.
Variable has_findings_field : bool.
Variable model_validate : json -> exn + T.

(** X16.  A reply that wraps its document in a fenced block is processed as
    the document alone: whatever stands before the opening fence (without a
    backquote) and after the closing fence is dropped, with or without the
    tag [json] and whatever whitespace surrounds the document inside the
    fences.  The document is a non-empty text without a backquote and
    without whitespace at its ends; without the tag it must not start with
    the letter j. *)
Theorem fenced_reply (pre tag ws1 body ws2 post : pystr) :
  contains_char 96 pre = false ->
  tag = py "json" \/ (tag = [] /\ startswith [106] body = false) ->
  is_blank ws1 = true -> is_blank ws2 = true ->
  contains_char 96 body = false ->
  body <> [] -> strip body = body ->
  process_content json T json_loads is_list wrap_findings has_findings_field
    model_validate
    (ContentStr (pre ++ FENCE ++ tag ++ ws1 ++ body ++ ws2 ++ FENCE ++ post))
  = process_content json T json_loads is_list wrap_findings has_findings_field
      model_validate (ContentStr body).
Proof.
  intros Hpre Htag Hws1 Hws2 Hbody Hne Hstrip.
  destruct (strip_app_blank body ws2 Hstrip Hne Hws2) as [Hsb (c & t & -> & Hc)].
  set (body := c :: t) in *.
  set (rest := body ++ ws2 ++ FENCE ++ post).
  assert (Hl : lstrip (ws1 ++ rest) = rest).
  { rewrite lstrip_blank_app by done. unfold rest, body. cbn [app lstrip].
    by rewrite Hc. }
  assert (Huntil : until_fence rest = Some (body ++ ws2)).
  { unfold rest. rewrite app_assoc. apply until_fence_app.
    by rewrite contains_char_app, Hbody, blank_no_backquote. }
  assert (Hfence : search_fence (pre ++ FENCE ++ tag ++ ws1 ++ rest)
                   = Some (body ++ ws2)).
  { rewrite search_fence_skip by done.
    assert (Hm : match_fence_at (FENCE ++ tag ++ ws1 ++ rest) = Some (body ++ ws2)).
    { unfold match_fence_at.
      change (strip_prefix FENCE (FENCE ++ tag ++ ws1 ++ rest))
        with (Some (tag ++ ws1 ++ rest)).
      cbv beta iota.
      destruct Htag as [->|[-> Hj]].
      - change (strip_prefix (py "json") (py "json" ++ ws1 ++ rest))
          with (Some (ws1 ++ rest)).
        cbv beta iota. by rewrite Hl.
      - cbn [app].
        assert (Hnone : strip_prefix (py "json") (ws1 ++ rest) = None).
        { destruct ws1 as [|w ws1].
          - unfold rest, body. unfold body in Hj. cbn [app]. cbn [startswith] in Hj.
            rewrite andb_true_r in Hj.
            change (py "json") with (106 :: py "son"). cbn [strip_prefix].
            by rewrite Hj.
          - cbn [is_blank forallb] in Hws1. apply andb_true_iff in Hws1 as [Hw _].
            change (py "json") with (106 :: py "son"). cbn [app strip_prefix].
            destruct (N.eqb_spec 106 w) as [<-|]; [by vm_compute in Hw | done]. }
        rewrite Hnone. by rewrite Hl. }
    destruct (FENCE ++ tag ++ ws1 ++ rest) as [|x xs] eqn:Hx.
    - by destruct tag.
    - cbn [search_fence]. by rewrite Hm. }
  unfold process_content.
  assert (Hfull : is_blank (pre ++ FENCE ++ tag ++ ws1 ++ rest) = false).
  { unfold is_blank. rewrite forallb_app. apply andb_false_iff. by right. }
  assert (Hbare : is_blank body = false).
  { unfold body. cbn [is_blank forallb]. by rewrite Hc. }
  fold rest. rewrite Hfull, Hbare, Hfence, Hsb.
  by rewrite (search_fence_none body Hbody).
Qed.

End FencedReply.

Section FencedReplyExamples.

Import LLM.

Lemma fenced_reply_witness :
  process_content unit pystr (fun s => inr tt) (fun _ => false) (fun j => j) false
    (fun _ => inr (py "parsed"))
    (ContentStr (py "Here is the review:" ++ [NL] ++ FENCE ++ py "json" ++ [NL]
                 ++ py "{}" ++ [NL] ++ FENCE ++ [NL]))
  = process_content unit pystr (fun s => inr tt) (fun _ => false) (fun j => j) false
      (fun _ => inr (py "parsed")) (ContentStr (py "{}")).
Proof.
  apply (fenced_reply unit pystr (fun s => inr tt) (fun _ => false) (fun j => j)
           false (fun _ => inr (py "parsed"))
           (py "Here is the review:" ++ [NL]) (py "json") [NL] (py "{}") [NL] [NL]).
  - reflexivity.
  - by left.
  - reflexivity.
  - reflexivity.
  - reflexivity.
  - discriminate.
  - reflexivity.
Defined.

End FencedReplyExamples.

(** ** The escape repair touches backslashes only *)

Section EscapeRepairScope.

Import LLM.

Lemma re_sub_escapes_others (n : nat) (s : pystr) (prev : bool) :
  (length s <= n)%nat ->
  List.filter (fun c => negb (c =? BACKSLASH)) (re_sub_escapes prev s)
  = List.filter (fun c => negb (c =? BACKSLASH)) s.
Proof.
  revert s prev. induction n as [|n IH]; intros s prev Hn.
  - by destruct s; [|cbn in Hn; lia].
  - destruct s as [|c s]; [done|]. cbn [length] in Hn. cbn [re_sub_escapes].
    destruct ((c =? BACKSLASH) && negb prev) eqn:Hm.
    + apply andb_true_iff in Hm as [Hc _].
      destruct s as [|d s]; [done|]. cbn [length] in Hn.
      destruct (valid_escape_char d).
      * cbn [List.filter]. rewrite Hc. cbn [negb]. apply IH. cbn [length]. lia.
      * cbn [List.filter]. change (BACKSLASH =? BACKSLASH) with true.
        rewrite Hc. cbn [negb]. rewrite IH by lia. reflexivity.
    + cbn [List.filter]. rewrite IH by lia. reflexivity.
Qed.

Lemma replace_escaped_apostrophe_others (n : nat) (s : pystr) :
  (length s <= n)%nat ->
  List.filter (fun c => negb (c =? BACKSLASH)) (replace_escaped_apostrophe s)
  = List.filter (fun c => negb (c =? BACKSLASH)) s.
Proof.
  revert s. induction n as [|n IH]; intros s Hn.
  - by destruct s; [|cbn in Hn; lia].
  - destruct s as [|c s]; [done|]. cbn [length] in Hn.
    cbn [replace_escaped_apostrophe].
    destruct s as [|d s]; [done|]. cbn [length] in Hn.
    destruct ((c =? BACKSLASH) && (d =? APOSTROPHE)) eqn:Hm.
    + apply andb_true_iff in Hm as [Hc Hd]. apply N.eqb_eq in Hd as ->.
      cbn [List.filter]. rewrite Hc. change (APOSTROPHE =? BACKSLASH) with false.
      cbn [negb]. rewrite IH by lia. reflexivity.
    + cbn [List.filter]. rewrite IH by (cbn [length]; lia). reflexivity.
Qed.

Lemma re_sub_escapes_plain (s : pystr) (prev : bool) :
  contains_char BACKSLASH s = false -> re_sub_escapes prev s = s.
Proof.
  revert prev. induction s as [|c s IH]; intros prev; [done|].
  cbn [contains_char existsb]. intros [Hc Hs]%orb_false_iff.
  cbn [re_sub_escapes]. rewrite N.eqb_sym, Hc. cbn [andb].
  by rewrite (IH _ Hs).
Qed.

Lemma replace_escaped_apostrophe_plain (s : pystr) :
  contains_char BACKSLASH s = false -> replace_escaped_apostrophe s = s.
Proof.
  induction s as [|c s IH]; [done|].
  cbn [contains_char existsb]. intros [Hc Hs]%orb_false_iff.
  cbn [replace_escaped_apostrophe]. destruct s as [|d s]; [done|].
  rewrite N.eqb_sym, Hc. cbn [andb]. by rewrite (IH Hs).
Qed.

(** X17.  The escape repair touches backslashes only: the characters of
    the repaired text other than backslashes are those of the text, in the
    same order, and a text without a backslash is returned as it is. *)
Theorem fix_json_escapes_scope (content : pystr) :
  List.filter (fun c => negb (c =? BACKSLASH)) (_fix_json_escapes content)
  = List.filter (fun c => negb (c =? BACKSLASH)) content
  /\ (contains_char BACKSLASH content = false -> _fix_json_escapes content = content).
Proof.
  unfold _fix_json_escapes. split.
  - rewrite (replace_escaped_apostrophe_others (length (re_sub_escapes false content)))
      by lia.
    by apply (re_sub_escapes_others (length content)).
  - intros Hplain. rewrite (re_sub_escapes_plain _ _ Hplain).
    by apply replace_escaped_apostrophe_plain.
Qed.

End EscapeRepairScope.

(** ** The rate limiter *)

Section RateLimiterFacts.

Import Queue.

Variable self : RateLimiter.

(** X18.  The two readings of the limiter agree: with a positive limit, a
    request may proceed exactly when some requests remain, and the number
    that remain is never negative and never above the limit once the
    counter is not negative. *)
Theorem can_proceed_remaining (r : redis) (key : pystr) :
  (0 < max_requests self)%Z ->
  (can_proceed self r key = true <-> (0 < get_remaining self r key)%Z)
  /\ (0 <= get_remaining self r key)%Z
  /\ (redis_get r (rate_key key) = None -> get_remaining self r key = max_requests self).
Proof.
  intros Hmax. unfold can_proceed, get_remaining.
  destruct (redis_get r (rate_key key)) as [current|]; [|split; [|split]; [done|lia|done]].
  split; [|split; [lia|done]].
  destruct (Z.leb_spec (max_requests self) current); split; (done || lia).
Qed.

Lemma increment_fresh (r : redis) (key : pystr) :
  r !! rate_key key = None ->
  increment self r key
  = (1%Z, <[rate_key key := {| e_value := 1; e_ttl := Some (window_seconds self) |}]> r).
Proof.
  intros Hnone. unfold increment, redis_incr. rewrite Hnone.
  change (1 =? 1)%Z with true. cbv iota. unfold redis_expire.
  rewrite lookup_insert_eq. cbn [e_value]. by rewrite insert_insert_eq.
Qed.

Lemma increment_counted (r : redis) (key : pystr) (v : Z) (ttl : option Z) :
  (1 <= v)%Z ->
  r !! rate_key key = Some {| e_value := v; e_ttl := ttl |} ->
  increment self r key
  = ((v + 1)%Z, <[rate_key key := {| e_value := v + 1; e_ttl := ttl |}]> r).
Proof.
  intros Hv Hsome. unfold increment, redis_incr. rewrite Hsome. cbn [e_value e_ttl].
  destruct (Z.eqb_spec (v + 1) 1); [lia | done].
Qed.

Lemma increments_counter (key : pystr) (n : nat) (r : redis) :
  r !! rate_key key = None ->
  increments self key (S n) r
  = <[rate_key key := {| e_value := Z.of_nat (S n);
                         e_ttl := Some (window_seconds self) |}]> r.
Proof.
  intros Hnone. induction n as [|n IH].
  - cbn [increments]. by rewrite increment_fresh.
  - cbn [increments] in *. rewrite IH.
    rewrite (increment_counted _ key (Z.of_nat (S n)) (Some (window_seconds self)));
      [|lia|by rewrite lookup_insert_eq].
    cbn [snd]. rewrite insert_insert_eq. do 3 f_equal. lia.
Qed.

(** X19.  The window is fixed by its first request.  From a store without
    the counter, [n] requests leave the counter at [n] with the expiry that
    the first of them set; a further request may proceed exactly when
    [n] is below the limit; the other keys of the store are as they were;
    and once the window has passed since the first request the counter is
    gone and all requests are available again, however recent the last
    request was. *)
Theorem rate_limiter_window (key : pystr) (n : nat) (r : redis) :
  r !! rate_key key = None ->
  (1 <= n)%nat ->
  (0 < window_seconds self)%Z ->
  let r' := increments self key n r in
  r' !! rate_key key
  = Some {| e_value := Z.of_nat n; e_ttl := Some (window_seconds self) |}
  /\ can_proceed self r' key = (Z.of_nat n <? max_requests self)%Z
  /\ get_remaining self r' key = Z.max 0 (max_requests self - Z.of_nat n)
  /\ (forall other, other <> rate_key key -> r' !! other = r !! other)
  /\ can_proceed self (elapse (window_seconds self) r') key = true
  /\ get_remaining self (elapse (window_seconds self) r') key = max_requests self.
Proof.
  intros Hnone Hn Hwin r'. subst r'.
  destruct n as [|n]; [lia|]. rewrite increments_counter by done.
  assert (Hgone : elapse (window_seconds self)
                    (<[rate_key key := {| e_value := Z.of_nat (S n);
                                          e_ttl := Some (window_seconds self) |}]> r)
                  !! rate_key key = None).
  { unfold elapse. rewrite lookup_omap, lookup_insert_eq. cbn.
    by rewrite Z.leb_refl. }
  unfold can_proceed, get_remaining, redis_get.
  rewrite Hgone, lookup_insert_eq. cbn [fmap option_fmap option_map e_value].
  split; [done|]. split.
  { destruct (Z.leb_spec (max_requests self) (Z.of_nat (S n))),
      (Z.ltb_spec (Z.of_nat (S n)) (max_requests self)); done || lia. }
  split; [done|]. split; [|done].
  intros other Hother. by rewrite lookup_insert_ne.
Qed.

End RateLimiterFacts.

Section RateLimiterExamples.

Import Queue.

Lemma can_proceed_remaining_witness :
  (can_proceed default_limiter ∅ (py "gemini") = true
   <-> (0 < get_remaining default_limiter ∅ (py "gemini"))%Z)
  /\ (0 <= get_remaining default_limiter ∅ (py "gemini"))%Z
  /\ (redis_get ∅ (rate_key (py "gemini")) = None ->
      get_remaining default_limiter ∅ (py "gemini") = max_requests default_limiter).
Proof.
  apply (can_proceed_remaining default_limiter ∅ (py "gemini")). reflexivity.
Defined.

Lemma rate_limiter_window_witness :
  let r' := increments default_limiter (py "gemini") 15 ∅ in
  r' !! rate_key (py "gemini") = Some {| e_value := 15; e_ttl := Some 60%Z |}
  /\ can_proceed default_limiter r' (py "gemini") = false
  /\ get_remaining default_limiter r' (py "gemini") = 0%Z
  /\ (forall other, other <> rate_key (py "gemini") ->
        r' !! other = (∅ : redis) !! other)
  /\ can_proceed default_limiter (elapse 60 r') (py "gemini") = true
  /\ get_remaining default_limiter (elapse 60 r') (py "gemini") = 15%Z.
Proof.
  apply (rate_limiter_window default_limiter (py "gemini") 15 ∅).
  - reflexivity.
  - lia.
  - reflexivity.
Defined.

End RateLimiterExamples.

(** ** The job queue *)

Section QueueFacts.

Import Queue.

Variable D : Type.
Variable json_dumps : review_job D -> pystr.
Variable json_loads : pystr -> review_job D.

Lemma enqueue_all_rev (q : queue) (jobs : list (review_job D)) :
  enqueue_all D json_dumps q jobs = rev (List.map json_dumps jobs) ++ q.
Proof.
  revert q. induction jobs as [|job jobs IH]; intros q; [done|].
  cbn [enqueue_all fold_left List.map rev]. unfold enqueue_all in IH.
  rewrite IH. unfold enqueue_review. by rewrite <- app_assoc.
Qed.

Lemma dequeue_n_rev (jobs : list (review_job D)) :
  Forall (fun job => json_loads (json_dumps job) = job) jobs ->
  dequeue_n D json_loads (length jobs) (rev (List.map json_dumps jobs))
  = (List.map Some jobs, []).
Proof.
  induction 1 as [|job jobs Hjob Hjobs IH]; [done|].
  cbn [length dequeue_n List.map rev]. unfold dequeue_review at 1.
  rewrite last_snoc, removelast_last, IH. by rewrite Hjob.
Qed.

(** X28.  The queue is first in, first out, and the priority of a job
    plays no part: the jobs enqueued on an empty queue come back from as
    many calls of [dequeue_review] in the order they were enqueued,
    whatever their priorities are; the queue is then empty and a further
    call answers [None].  The length of the queue grows by the number of
    jobs enqueued.  The jobs are such that [json.loads] gives back what
    [json.dumps] was given. *)
Theorem queue_fifo (jobs : list (review_job D)) (q : queue) :
  Forall (fun job => json_loads (json_dumps job) = job) jobs ->
  dequeue_n D json_loads (length jobs) (enqueue_all D json_dumps [] jobs)
  = (List.map Some jobs, [])
  /\ dequeue_review D json_loads [] = (None, [])
  /\ queue_length (enqueue_all D json_dumps q jobs)
     = (queue_length q + length jobs)%nat.
Proof.
  intros Hjson. split; [|split].
  - by rewrite enqueue_all_rev, app_nil_r, dequeue_n_rev.
  - reflexivity.
  - rewrite enqueue_all_rev. unfold queue_length.
    rewrite length_app, length_rev, length_map. lia.
Qed.

End QueueFacts.

Section QueueExamples.

Import Queue.

(** Two jobs, the second with the higher priority: the first comes back
    first. *)
Lemma queue_fifo_witness :
  let first := {| job_id := py "a"; data := tt; priority := 0; created_at := py "t0" |} in
  let second := {| job_id := py "b"; data := tt; priority := 9; created_at := py "t1" |} in
  let dumps (job : review_job unit) := job_id job in
  let loads (text : pystr) :=
    if bool_decide (text = py "a") then first else second in
  dequeue_n unit loads 2 (enqueue_all unit dumps [] [first; second])
  = ([Some first; Some second], [])
  /\ dequeue_review unit loads [] = (None, [])
  /\ queue_length (enqueue_all unit dumps [] [first; second]) = 2%nat.
Proof.
  intros first second dumps loads.
  apply (queue_fifo unit dumps loads [first; second] []).
  repeat constructor.
Defined.

End QueueExamples.

(** ** Paginated listings *)

Section PaginationFacts.

Import Pagination.

Context {T : Type}.

Lemma pages_ceiling (total per_page : Z) :
  (0 <= total)%Z -> (1 <= per_page)%Z ->
  let pages := if (0 <? total)%Z then ((total + per_page - 1) / per_page)%Z else 0%Z in
  (0 <= pages)%Z
  /\ (total <= pages * per_page)%Z
  /\ ((pages - 1) * per_page < total \/ total = 0 /\ pages = 0)%Z.
Proof.
  intros Htotal Hpp pages. subst pages.
  destruct (Z.ltb_spec 0 total) as [Hpos|Hzero]; [|lia].
  pose proof (Z.div_mod (total + per_page - 1) per_page ltac:(lia)) as Hdm.
  pose proof (Z.mod_pos_bound (total + per_page - 1) per_page ltac:(lia)) as Hmod.
  nia.
Qed.

(** X20.  The page arithmetic of a listing.  For a page number of at least
    1 and a page size of at least 1, the response names the count of the
    table and the least number of pages that hold it; the page holds at
    most [per_page] rows, and holds some exactly when its number is at most
    the number of pages; [has_next] tells whether rows follow the page and
    [has_prev] whether rows precede it. *)
Theorem list_reviews_pages (table : list T) (page per_page : Z) :
  (1 <= page)%Z -> (1 <= per_page)%Z ->
  let r := list_reviews table page per_page in
  total r = Z.of_nat (length table)
  /\ (0 <= pages r)%Z
  /\ (total r <= pages r * per_page)%Z
  /\ (forall n, (0 <= n)%Z -> (total r <= n * per_page)%Z -> (pages r <= n)%Z)
  /\ (Z.of_nat (length (items r)) <= per_page)%Z
  /\ (items r <> [] <-> (page <= pages r)%Z)
  /\ (has_next r = true <-> (page * per_page < total r)%Z)
  /\ (has_prev r = true <-> (0 < offset page per_page)%Z).
Proof.
  intros Hpage Hpp r. subst r.
  unfold list_reviews, get_all_paginated, has_next, has_prev, offset.
  cbn [items total Pagination.page pages].
  set (total := Z.of_nat (length table)).
  pose proof (pages_ceiling total per_page ltac:(lia) Hpp) as Hceil.
  cbv zeta in Hceil.
  set (pages := if (0 <? total)%Z then ((total + per_page - 1) / per_page)%Z else 0%Z)
    in *.
  destruct Hceil as (Hp0 & Hup & Hlow).
  assert (Hlen : length (range table ((page - 1) * per_page)
                           ((page - 1) * per_page + per_page - 1))
                 = Nat.min (Z.to_nat per_page)
                     (length table - Z.to_nat ((page - 1) * per_page))).
  { unfold range. rewrite length_take, length_drop. f_equal. lia. }
  split; [done|]. split; [done|]. split; [done|]. split; [intros n Hn Hle; nia|].
  split; [lia|]. split; [|split].
  - rewrite <- length_zero_iff_nil, Hlen. unfold total in *. split.
    + intros Hne.
      assert (Z.to_nat ((page - 1) * per_page) < length table)%nat by lia. nia.
    + intros Hle.
      assert (Z.to_nat ((page - 1) * per_page) < length table)%nat by nia. lia.
  - rewrite Z.ltb_lt. split; intros; nia.
  - rewrite Z.ltb_lt. split; intros; nia.
Qed.

Lemma chunks_concat (k : nat) (l : list T) (n : nat) :
  concat (List.map (fun i => take k (drop (i * k) l)) (seq 0 n)) = take (n * k) l.
Proof.
  induction n as [|n IH]; [done|].
  rewrite seq_S, List.map_app, concat_app, IH. cbn [List.map concat Nat.add].
  rewrite app_nil_r, take_take_drop. f_equal. lia.
Qed.

(** X21.  The pages of a listing, one after the other, are the table: no
    row is left out and none is listed twice. *)
Theorem list_reviews_partition (table : list T) (per_page : Z) :
  (1 <= per_page)%Z ->
  let pages := pages (list_reviews table 1 per_page) in
  concat (List.map (fun p => items (list_reviews table (Z.of_nat p) per_page))
            (seq 1 (Z.to_nat pages)))
  = table.
Proof.
  intros Hpp pages.
  destruct (list_reviews_pages table 1 per_page ltac:(lia) Hpp)
    as (Htotal & Hp0 & Hup & _).
  fold pages in Hp0, Hup. rewrite Htotal in Hup.
  rewrite <- seq_shift, List.map_map.
  rewrite (map_ext _ (fun i => take (Z.to_nat per_page)
                                 (drop (i * Z.to_nat per_page) table))).
  - rewrite chunks_concat. apply take_ge. nia.
  - intros i. unfold list_reviews, get_all_paginated, range. cbn [items].
    f_equal; [lia|]. f_equal. nia.
Qed.

End PaginationFacts.

Section PaginationExamples.

Import Pagination.

Lemma list_reviews_pages_witness :
  let r := list_reviews [1; 2; 3; 4; 5]%Z 3 2 in
  total r = 5%Z
  /\ (0 <= pages r)%Z
  /\ (total r <= pages r * 2)%Z
  /\ (forall n, (0 <= n)%Z -> (total r <= n * 2)%Z -> (pages r <= n)%Z)
  /\ (Z.of_nat (length (items r)) <= 2)%Z
  /\ (items r <> [] <-> (3 <= pages r)%Z)
  /\ (has_next r = true <-> (3 * 2 < total r)%Z)
  /\ (has_prev r = true <-> (0 < offset 3 2)%Z).
Proof.
  apply (list_reviews_pages [1; 2; 3; 4; 5]%Z 3 2); lia.
Defined.

Lemma list_reviews_partition_witness :
  concat (List.map (fun p => items (list_reviews [1; 2; 3; 4; 5]%Z (Z.of_nat p) 2))
            (seq 1 (Z.to_nat (pages (list_reviews [1; 2; 3; 4; 5]%Z 1 2)))))
  = [1; 2; 3; 4; 5]%Z.
Proof.
  apply (list_reviews_partition [1; 2; 3; 4; 5]%Z 2). lia.
Defined.

End PaginationExamples.

(** ** The progress subscribers *)

Section ConnectionFacts.

Import Websocket.

Lemma disconnect_with_list (m : connections) (review_id : pystr)
    (l : list websocket) (ws : websocket) :
  disconnect (with_list m review_id l) review_id ws
  = with_list m review_id (list_remove ws l).
Proof.
  assert (Hnotin : forall l', ws ∉ l' -> list_remove ws l' = l').
  { induction l' as [|x l' IH]; [done|]. intros Hn. cbn [list_remove].
    destruct (decide (x = ws)) as [->|]; [destruct Hn; by left|].
    rewrite IH; [done|]. intros ?. apply Hn. by right. }
  destruct l as [|x l].
  - unfold with_list at 1, disconnect. by rewrite lookup_delete_eq.
  - unfold with_list at 1, disconnect. rewrite lookup_insert_eq.
    destruct (decide (ws ∈ x :: l)) as [Hin|Hn].
    + unfold with_list. destruct (list_remove ws (x :: l)).
      * by rewrite delete_insert_eq.
      * by rewrite insert_insert_eq.
    + rewrite (Hnotin _ Hn). unfold with_list. by rewrite insert_insert_eq.
Qed.

Lemma remove_failed (send_json : websocket -> bool) (l : list websocket) :
  fold_left (fun l ws => list_remove ws l)
    (List.filter (fun ws => negb (send_json ws)) l) l
  = List.filter send_json l.
Proof.
  assert (Hkeep : forall x d l', send_json x = true ->
            Forall (fun ws => send_json ws = false) d ->
            fold_left (fun l ws => list_remove ws l) d (x :: l')
            = x :: fold_left (fun l ws => list_remove ws l) d l').
  { intros x d. induction d as [|w d IH]; intros l' Hx Hd; [done|].
    apply Forall_cons in Hd as [Hw Hd]. cbn [fold_left list_remove].
    destruct (decide (x = w)) as [->|]; [congruence|]. by apply IH. }
  induction l as [|x l IH]; [done|].
  cbn [List.filter]. destruct (send_json x) eqn:Hx; cbn [negb].
  - rewrite Hkeep, IH; [done..|].
    apply Forall_forall. intros w [_ Hw]%list_elem_of_In%List.filter_In.
    by apply negb_true_iff.
  - cbn [fold_left list_remove]. destruct (decide (x = x)); [|done]. apply IH.
Qed.

(** X22.  After a broadcast the subscribers of the review are those the
    message reached, in their order; the sockets whose send raised are
    gone, the key of the review is dropped when none is left, and a review
    without subscribers leaves the store as it is.  (The calls of other
    coroutines during the sends are not part of this reading.) *)
Theorem broadcast_keeps_reached (m : connections) (review_id : pystr)
    (send_json : websocket -> bool) :
  no_empty_list m ->
  broadcast m review_id send_json
  = match m !! review_id with
    | None => m
    | Some l => with_list m review_id (List.filter send_json l)
    end.
Proof.
  intros Hinv. unfold broadcast.
  destruct (m !! review_id) as [l|] eqn:Hl; [|done].
  assert (Hfold : forall d l0,
    fold_left (fun conns ws => disconnect conns review_id ws) d
      (with_list m review_id l0)
    = with_list m review_id (fold_left (fun l ws => list_remove ws l) d l0)).
  { induction d as [|w d IH]; intros l0; [done|].
    cbn [fold_left]. by rewrite disconnect_with_list, IH. }
  assert (Hm : m = with_list m review_id l).
  { unfold with_list. destruct l as [|x l]; [by destruct (Hinv _ _ Hl)|].
    by rewrite insert_id. }
  rewrite Hm at 1. by rewrite Hfold, remove_failed.
Qed.

Lemma with_list_no_empty (m : connections) (review_id : pystr) (l : list websocket) :
  no_empty_list m -> no_empty_list (with_list m review_id l).
Proof.
  intros Hinv rid l'. unfold with_list. destruct l as [|x l].
  - destruct (decide (rid = review_id)) as [->|Hne].
    + by rewrite lookup_delete_eq.
    + rewrite lookup_delete_ne by done. apply Hinv.
  - destruct (decide (rid = review_id)) as [->|Hne].
    + rewrite lookup_insert_eq. by intros [= <-].
    + rewrite lookup_insert_ne by done. apply Hinv.
Qed.

Lemma disconnect_no_empty (m : connections) (review_id : pystr) (ws : websocket) :
  no_empty_list m -> no_empty_list (disconnect m review_id ws).
Proof.
  intros Hinv. unfold disconnect. destruct (m !! review_id) as [l|] eqn:Hl; [|done].
  apply (with_list_no_empty m review_id
           (if decide (ws ∈ l) then list_remove ws l else l) Hinv).
Qed.

(** X23.  The store never holds an empty list: after any sequence of calls
    of [connect], [disconnect] and [broadcast] on a new manager, every
    review that has a key has a subscriber. *)
Theorem connections_never_empty (calls : list call) :
  no_empty_list (after_calls calls).
Proof.
  unfold after_calls.
  assert (Hstep : forall m c, no_empty_list m -> no_empty_list (apply_call m c)).
  { intros m [rid ws|rid ws|rid send] Hinv; cbn [apply_call].
    - unfold connect. intros rid' l'.
      destruct (decide (rid' = rid)) as [->|Hne].
      + rewrite lookup_insert_eq. intros [= <-]. by destruct (default _ _).
      + rewrite lookup_insert_ne by done.
        destruct (m !! rid); [apply Hinv|].
        rewrite lookup_insert_ne by done. apply Hinv.
    - by apply disconnect_no_empty.
    - unfold broadcast. destruct (m !! rid) as [l|]; [|done].
      generalize (List.filter (fun ws => negb (send ws)) l). intros d.
      revert m Hinv. induction d as [|w d IH]; intros m Hinv; [done|].
      cbn [fold_left]. by apply IH, disconnect_no_empty. }
  assert (Hall : forall m, no_empty_list m ->
            no_empty_list (fold_left apply_call calls m)).
  { induction calls as [|c calls IH]; intros m Hinv; [done|].
    cbn [fold_left]. by apply IH, Hstep. }
  apply Hall. intros rid l. by rewrite lookup_empty.
Qed.

End ConnectionFacts.

Section ConnectionExamples.

Import Websocket.

(** Three subscribers, the second of which has gone away. *)
Lemma broadcast_keeps_reached_witness :
  let m : connections := {[ py "review-1" := [1; 2; 3]%nat ]} in
  let send_json := fun ws : websocket => negb (ws =? 2)%nat in
  broadcast m (py "review-1") send_json
  = match m !! py "review-1" with
    | None => m
    | Some l => with_list m (py "review-1") (List.filter send_json l)
    end.
Proof.
  intros m send_json.
  apply (broadcast_keeps_reached m (py "review-1") send_json).
  intros review_id l [_ <-]%lookup_singleton_Some. discriminate.
Defined.

End ConnectionExamples.

(** ** The language of a change *)

Section DetectLanguage.

Import Prompts.

Lemma first_seen_In (langs : list pystr) (l : pystr) :
  In l (first_seen langs) <-> In l langs.
Proof.
  induction langs as [|x langs IH]; [done|].
  cbn [first_seen In]. rewrite List.filter_In, IH.
  destruct (decide (l = x)) as [->|Hne]; [tauto|].
  rewrite bool_decide_eq_false_2 by done. cbn [negb]. split; [tauto|].
  intros [?|?]; [by left | by right].
Qed.

Lemma first_seen_NoDup (langs : list pystr) : List.NoDup (first_seen langs).
Proof.
  induction langs as [|x langs IH]; [constructor|].
  cbn [first_seen]. constructor; [|by apply List.NoDup_filter].
  intros [_ Hx]%List.filter_In. by rewrite bool_decide_eq_true_2 in Hx.
Qed.

Lemma first_seen_snoc (langs : list pystr) (x : pystr) :
  first_seen (langs ++ [x])
  = first_seen langs ++ (if bool_decide (x ∈ langs) then [] else [x]).
Proof.
  induction langs as [|y langs IH]; [done|].
  cbn [app first_seen]. rewrite IH, List.filter_app. f_equal. f_equal.
  destruct (decide (x = y)) as [->|Hne].
  - rewrite (bool_decide_eq_true_2 (y ∈ y :: langs)) by (by left).
    destruct (bool_decide (y ∈ langs)); [done|].
    cbn [List.filter]. by rewrite bool_decide_eq_true_2.
  - destruct (bool_decide (x ∈ langs)) eqn:Hin.
    + apply bool_decide_eq_true_1 in Hin.
      by rewrite (bool_decide_eq_true_2 (x ∈ y :: langs)) by (by right).
    + apply bool_decide_eq_false_1 in Hin.
      rewrite (bool_decide_eq_false_2 (x ∈ y :: langs)) by (by intros [?|?]%elem_of_cons).
      cbn [List.filter]. by rewrite bool_decide_eq_false_2.
Qed.

Lemma votes_snoc (l : pystr) (langs : list pystr) (x : pystr) :
  votes l (langs ++ [x])
  = (votes l langs + if bool_decide (x = l) then 1 else 0)%nat.
Proof.
  unfold votes. rewrite List.filter_app, length_app. cbn [List.filter].
  by destruct (bool_decide (x = l)).
Qed.

Lemma votes_absent (l : pystr) (langs : list pystr) :
  ~ In l langs -> votes l langs = 0%nat.
Proof.
  unfold votes. induction langs as [|y langs IH]; [done|].
  intros Hn. cbn [List.filter].
  rewrite bool_decide_eq_false_2 by (intros ->; apply Hn; by left).
  apply IH. intros ?. apply Hn. by right.
Qed.

Lemma counter_add_tally (v : pystr -> nat) (keys : list pystr) (x : pystr) :
  List.NoDup keys ->
  counter_add (List.map (fun l => (l, v l)) keys) x
  = List.map (fun l => (l, (v l + if bool_decide (x = l) then 1 else 0)%nat)) keys
    ++ (if bool_decide (x ∈ keys) then [] else [(x, 1%nat)]).
Proof.
  induction keys as [|k keys IH]; intros Hnd; [done|].
  apply List.NoDup_cons_iff in Hnd as [Hk Hnd].
  cbn [List.map counter_add app]. destruct (decide (k = x)) as [->|Hne].
  - rewrite bool_decide_eq_true_2 by done.
    rewrite (bool_decide_eq_true_2 (x ∈ x :: keys)) by (by left).
    rewrite app_nil_r. f_equal; [f_equal; lia|].
    apply map_ext_in. intros l Hl.
    rewrite bool_decide_eq_false_2 by (by intros <-). f_equal. lia.
  - rewrite (bool_decide_eq_false_2 (x = k)) by done.
    rewrite IH by done. cbn [app]. f_equal; [f_equal; lia|]. f_equal.
    destruct (bool_decide (x ∈ keys)) eqn:Hin.
    + apply bool_decide_eq_true_1 in Hin.
      by rewrite (bool_decide_eq_true_2 (x ∈ k :: keys)) by (by right).
    + apply bool_decide_eq_false_1 in Hin.
      by rewrite (bool_decide_eq_false_2 (x ∈ k :: keys)) by (by intros [?|?]%elem_of_cons).
Qed.

(** The counter holds every language once, in the order of first
    appearance, with the number of its files. *)
Lemma counter_tally (langs : list pystr) :
  fold_left counter_add langs []
  = List.map (fun l => (l, votes l langs)) (first_seen langs).
Proof.
  induction langs as [|x langs IH] using rev_ind; [done|].
  rewrite fold_left_app. cbn [fold_left]. rewrite IH.
  rewrite counter_add_tally by apply first_seen_NoDup.
  rewrite first_seen_snoc, List.map_app.
  f_equal.
  - apply map_ext. intros l. by rewrite votes_snoc.
  - destruct (bool_decide (x ∈ langs)) eqn:Hin.
    + apply bool_decide_eq_true_1 in Hin.
      by rewrite bool_decide_eq_true_2
        by (by apply list_elem_of_In, first_seen_In, list_elem_of_In).
    + apply bool_decide_eq_false_1 in Hin.
      rewrite bool_decide_eq_false_2
        by (by rewrite list_elem_of_In, first_seen_In, <- list_elem_of_In).
      cbn [List.map]. rewrite votes_snoc, votes_absent
        by (by rewrite <- list_elem_of_In).
      by rewrite bool_decide_eq_true_2.
Qed.

Lemma most_common_1_first_max (counts : list (pystr * nat)) :
  match most_common_1 counts with
  | None => counts = []
  | Some (k, n) =>
      exists a b, counts = a ++ (k, n) :: b
        /\ (forall kv, In kv a -> (snd kv < n)%nat)
        /\ (forall kv, In kv b -> (snd kv <= n)%nat)
  end.
Proof.
  unfold most_common_1.
  induction counts as [|kv counts IH] using rev_ind; [done|].
  rewrite fold_left_app. cbn [fold_left].
  destruct (fold_left _ counts None) as [[k n]|].
  - destruct IH as (a & b & -> & Ha & Hb). cbn [snd].
    destruct (Nat.ltb_spec n (snd kv)) as [Hlt|Hge].
    + destruct kv as [k' n']. cbn [snd] in Hlt.
      exists (a ++ (k, n) :: b), []. split; [done|]. split; [|by intros ? []].
      intros kv [Hin|[<-|Hin]]%in_app_iff.
      * specialize (Ha _ Hin). lia.
      * cbn [snd]. lia.
      * specialize (Hb _ Hin). lia.
    + exists a, (b ++ [kv]). rewrite <- app_assoc. split; [done|]. split; [done|].
      intros kv' [Hin|[<-|[]]]%in_app_iff; [by apply Hb | done].
  - subst counts. destruct kv as [k' n']. exists [], [].
    by split; [|split; intros ? []].
Qed.

Variable lower : pystr -> pystr.

Lemma detect_language_counts (files : list pystr) (lang_counts : list (pystr * nat)) :
  fold_left
    (fun lang_counts f =>
       match file_language lower f with
       | Some lang => counter_add lang_counts lang
       | None => lang_counts
       end)
    files lang_counts
  = fold_left counter_add (omap (file_language lower) files) lang_counts.
Proof.
  revert lang_counts. induction files as [|f files IH]; intros lang_counts; [done|].
  cbn [fold_left omap list_omap]. rewrite IH.
  by destruct (file_language lower f).
Qed.

(** X24.  The language detected is the one most files count for, the
    earliest in the list winning a tie.  With [langs] the languages of the
    files that have a known extension, in the order of the files: no such
    file gives generic; otherwise the result is a language of [langs] that
    no language has more files than, and every language that first appears
    before it has fewer files. *)
Theorem detect_language_majority (files : list pystr) :
  let langs := omap (file_language lower) files in
  let detected := detect_language lower files in
  match langs with
  | [] => detected = py "generic"
  | _ :: _ =>
      (forall l, (votes l langs <= votes detected langs)%nat)
      /\ exists a b,
           first_seen langs = a ++ detected :: b
           /\ forall l, In l a -> (votes l langs < votes detected langs)%nat
  end.
Proof.
  intros langs detected. unfold detected, detect_language.
  rewrite detect_language_counts, counter_tally. fold langs.
  pose proof (most_common_1_first_max
                (List.map (fun l => (l, votes l langs)) (first_seen langs))) as Hmax.
  destruct (most_common_1 _) as [[k n]|].
  - destruct Hmax as (a & b & Hsplit & Ha & Hb).
    apply map_eq_app in Hsplit as (a' & rest & Hfs & <- & Hrest).
    apply map_eq_cons in Hrest as (k' & b' & -> & [= -> <-] & <-).
    destruct langs as [|l0 langs0] eqn:Hlangs; [by destruct a'|].
    rewrite <- Hlangs in *. split.
    + intros l. destruct (decide (l ∈ langs)) as [Hin|Hn];
        [|rewrite (votes_absent l langs); [lia | by rewrite <- list_elem_of_In]].
      apply list_elem_of_In, first_seen_In in Hin. rewrite Hfs in Hin.
      apply in_app_iff in Hin as [Hin|[<-|Hin]]; [|done|].
      * specialize (Ha (l, votes l langs)
                      ltac:(apply in_map_iff; by exists l)). cbn [snd] in Ha. lia.
      * apply (Hb (l, votes l langs)). apply in_map_iff. by exists l.
    + exists a', b'. split; [done|]. intros l Hin.
      apply (Ha (l, votes l langs)). apply in_map_iff. by exists l.
  - destruct langs as [|l0 langs0]; [done|].
    by apply map_eq_nil in Hmax.
Qed.

End DetectLanguage.

(** ** The agents of a review *)

Section AgentsRun.

Import Processor Prompts Supervisor.

Variable lower : pystr -> pystr.

(** X25.  Disabling an agent in the settings of a repository does not skip
    it: the supervisor puts a default agent in the place of every agent it
    is not given, so all three nodes of the graph call their agent,
    whatever the settings are.  An enabled agent runs with the prompt of
    the detected language; a disabled one runs with the default prompt of
    its kind, the Python prompt. *)
Theorem disabled_agents_still_run (repo_settings : option Settings)
    (files : list pystr) (analyze : Agent -> list AgentFinding) :
  let '(logic, security, quality) := build_supervisor lower repo_settings files in
  let '(logic_prompt, security_prompt, quality_prompt) :=
    get_prompts_for_language (detect_language lower files) in
  let enabled (flag : Settings -> bool) :=
    match repo_settings with None => true | Some c => flag c end in
  exists l s q,
    logic = Some l /\ security = Some s /\ quality = Some q
    /\ run_node logic analyze = analyze l
    /\ run_node security analyze = analyze s
    /\ run_node quality analyze = analyze q
    /\ l = {| agent_type := LOGIC;
              prompt_template :=
                if enabled agents_logic then logic_prompt else PYTHON_LOGIC_PROMPT |}
    /\ s = {| agent_type := SECURITY;
              prompt_template :=
                if enabled agents_security then security_prompt
                else PYTHON_SECURITY_PROMPT |}
    /\ q = {| agent_type := QUALITY;
              prompt_template :=
                if enabled agents_quality then quality_prompt
                else PYTHON_QUALITY_PROMPT |}.
Proof.
  unfold build_supervisor.
  destruct (get_prompts_for_language (detect_language lower files))
    as [[logic_prompt security_prompt] quality_prompt].
  unfold ReviewSupervisor.
  eexists _, _, _. split; [reflexivity|]. split; [reflexivity|].
  split; [reflexivity|]. split; [reflexivity|]. split; [reflexivity|].
  split; [reflexivity|].
  destruct repo_settings as [[en al asec aq thr]|]; cbn [agents_logic agents_security
    agents_quality]; [|by repeat split].
  by destruct al, asec, aq.
Qed.

End AgentsRun.

(** ** The webhook endpoint *)

Section WebhookFacts.

Import Webhooks.

Variable hmac_sha256_hexdigest : pystr -> list N -> pystr.
Variable github_webhook_secret : pystr.
Variable model_validate_json : list N -> option WebhookPayload.

Lemma accept_payload_not_401 (st : store) (body : list N) :
  fst (accept_payload model_validate_json st body) <> inl HTTP401.
Proof.
  unfold accept_payload. destruct (model_validate_json body) as [payload|]; [|done].
  destruct (negb _); [done|].
  destruct (get_by_github_id _ _ _); by destruct (split_slash _ _) as [|? [|? ?]].
Qed.

Lemma check_signature_401 (body : list N) (signature : option pystr) :
  check_signature hmac_sha256_hexdigest github_webhook_secret body signature
  = inl HTTP401
  <-> github_webhook_secret <> []
      /\ exists sig, signature = Some sig /\ sig <> []
           /\ verify_signature hmac_sha256_hexdigest body sig github_webhook_secret
              = inr false.
Proof.
  unfold check_signature.
  destruct github_webhook_secret as [|k secret]; [split; [done | by intros [? _]]|].
  destruct signature as [[|c sig]|].
  - split; [done|]. by intros (_ & ? & [= <-] & ? & _).
  - destruct (verify_signature _ body (c :: sig) (k :: secret)) as [e|[]] eqn:Hver.
    + split.
      * intros [= ->]. unfold verify_signature in Hver.
        destruct (negb _); [done|]. unfold compare_digest in Hver.
        by destruct (_ && _).
      * intros (_ & sig' & [= <-] & _ & Hf). congruence.
    + split; [done|]. intros (_ & sig' & [= <-] & _ & Hf). congruence.
    + split; [|done]. intros _. split; [done|]. by exists (c :: sig).
  - split; [done|]. by intros (_ & ? & ? & _).
Qed.

(** X26.  When the signature of a webhook is checked.  The endpoint answers
    401 exactly for a pull request event that carries a non-empty signature
    header, with a secret configured, when the signature is not the
    expected one; the store is then left as it is.  A pull request event
    without the header, or with an empty one, is never refused, whether or
    not a secret is configured; and an event of another type is ignored
    before any check. *)
Theorem webhook_signature_check (st : store) (body : list N) (event : pystr)
    (signature : option pystr) :
  let '(result, st') :=
    handle_github_webhook hmac_sha256_hexdigest github_webhook_secret
      model_validate_json st body event signature in
  (result = inl HTTP401 <->
     event = py "pull_request" /\ github_webhook_secret <> []
     /\ exists sig, signature = Some sig /\ sig <> []
          /\ verify_signature hmac_sha256_hexdigest body sig github_webhook_secret
             = inr false)
  /\ (result = inl HTTP401 -> st' = st)
  /\ (event <> py "pull_request" ->
      result = inr (Ignored (py "event type: " ++ event)) /\ st' = st).
Proof.
  unfold handle_github_webhook.
  destruct (decide (event = py "pull_request")) as [->|Hev].
  2: { rewrite bool_decide_eq_false_2 by done. cbn [negb].
       split; [|by split]. split; [done|]. by intros [? _]. }
  rewrite bool_decide_eq_true_2 by done. cbn [negb].
  pose proof (check_signature_401 body signature) as H401.
  destruct (check_signature _ _ body signature) as [e|[]].
  - split; [|by split]. split.
    + intros [= ->]. split; [done|]. by apply H401.
    + intros (_ & Hrest). f_equal. apply H401 in Hrest. congruence.
  - pose proof (accept_payload_not_401 st body) as Hnot.
    destruct (accept_payload model_validate_json st body) as [result st'].
    cbn [fst] in Hnot. split; [|by split]. split; [done|].
    intros (_ & Hrest). by apply H401 in Hrest.
Qed.


End WebhookFacts.
